(** * searchHouse spider: a shallow embedding of [spider/spider.go]

    The development follows the source file function by function.  A Go
    [string] is a sequence of bytes, modelled as [list ascii]; [uint64] and
    [int] (64 bits wide) are modelled as [Z] with the wrap-around written
    out; Go maps are stdpp [gmap]s; code that panics returns [None]. *)

From Stdlib Require Import ZArith QArith Ascii String List Lia.
From Stdlib Require Import DecimalString DecimalN DecimalPos.
From stdpp Require Import gmap strings list.

Open Scope Z_scope.

(** ** Go strings *)

Abbreviation gostring := (list ascii).

(** String literals of the source, as byte sequences. *)
Definition gostr (s : string) : gostring := list_ascii_of_string s.

Definition byteZ (c : ascii) : Z := Z.of_N (N_of_ascii c).

Module GoStrings.

(** [strings.HasPrefix]. *)
Fixpoint HasPrefix (s prefix : gostring) : bool :=
  match prefix, s with
  | [], _ => true
  | _ :: _, [] => false
  | p :: prefix', c :: s' => Ascii.eqb c p && HasPrefix s' prefix'
  end.

(** [strings.HasSuffix]. *)
Definition HasSuffix (s suffix : gostring) : bool :=
  HasPrefix (rev s) (rev suffix).

(** [strings.TrimSuffix]: [s] without the trailing [suffix], or [s]
    itself when it does not end with it. *)
Definition TrimSuffix (s suffix : gostring) : gostring :=
  if HasSuffix s suffix
  then firstn (length s - length suffix)%nat s
  else s.

(** [strings.ToLower] on ASCII input, where it maps the bytes 'A'..'Z'
    to 'a'..'z' and leaves every other byte alone.  The only call of the
    program passes a string that [urlRe] has matched, which is ASCII
    (see [urlRe_match_ascii] below). *)
Definition lower_byte (c : ascii) : ascii :=
  let n := byteZ c in
  if (65 <=? n) && (n <=? 90) then ascii_of_N (Z.to_N (n + 32)) else c.

Definition ToLower (s : gostring) : gostring := map lower_byte s.

(** [strings.Contains]: does [substr] occur in [s]? *)
Fixpoint Contains (s substr : gostring) : bool :=
  HasPrefix s substr
  || match s with
     | [] => false
     | _ :: s' => Contains s' substr
     end.

End GoStrings.

(** ** [hash/fnv]: 64-bit FNV-1a *)

Module Fnv.

Definition offset64 : Z := 14695981039346656037.
Definition prime64 : Z := 1099511628211.

(** One byte of [sum64a.Write]: [hash ^= uint64(c); hash *= prime64]. *)
Definition step (h : Z) (c : ascii) : Z :=
  (Z.lxor h (byteZ c) * prime64) mod 2 ^ 64.

(** [New64a], [Write], [Sum64]. *)
Definition Sum64a (data : gostring) : Z := fold_left step data offset64.

End Fnv.

(** ** Machine integers *)

Module GoInt.

Definition MinInt : Z := - 2 ^ 63.
Definition MaxInt : Z := 2 ^ 63 - 1.

(** The conversion [int(x)] of a [uint64]: same bits, read as signed. *)
Definition of_uint64 (u : Z) : Z :=
  if u <? 2 ^ 63 then u else u - 2 ^ 64.

(** Results of [int] arithmetic wrap around modulo 2^64. *)
Definition wrap (z : Z) : Z := (z + 2 ^ 63) mod 2 ^ 64 - 2 ^ 63.

Definition neg (x : Z) : Z := wrap (- x).

(** [x % y]: the remainder of the division truncated towards zero, with
    the sign of [x]; a run-time panic when [y] is zero. *)
Definition rem (x y : Z) : option Z :=
  if y =? 0 then None else Some (Z.rem x y).

End GoInt.

(** ** [regexp]

    The syntax tree of the regular expressions the program compiles, and a
    backtracking matcher.  [ends r text p] lists, in the order of
    preference of Go's leftmost-first matching, the positions at which a
    match of [r] that starts at position [p] of [text] can end.

    Go matches over UTF-8 runes.  Every literal and every class of the
    expressions of this program names ASCII bytes only, so a rune other
    than those is a run of bytes >= 0x80, each of which the byte-wise
    reading treats the same way (outside a class, inside a negated class,
    not a newline); matching byte by byte gives the same answers. *)

Module Regexp.

Inductive regex : Type :=
| Empty                                             (* the empty expression *)
| Lit (c : ascii)                                   (* a literal byte *)
| Class (negated : bool) (ranges : list (ascii * ascii))  (* [a-z0-9], [^...] *)
| AnyCharNotNL                                      (* . *)
| Cat (r1 r2 : regex)
| Alt (r1 r2 : regex)
| Repeat (min : nat) (max : option nat) (r : regex) (* r{min,max} greedy; * + ? *)
| Group (name : option string) (r : regex)          (* (r), (?P<name>r) *)
| BeginText                                         (* ^ *)
| EndText.                                          (* $ *)

Definition Star := Repeat 0 None.
Definition Plus := Repeat 1 None.
Definition Opt := Repeat 0 (Some 1%nat).

(** A literal string. *)
Fixpoint Str (s : gostring) : regex :=
  match s with
  | [] => Empty
  | [c] => Lit c
  | c :: s' => Cat (Lit c) (Str s')
  end.

(** A concatenation [r1 r2 ... rn]. *)
Fixpoint Seq (rs : list regex) : regex :=
  match rs with
  | [] => Empty
  | [r] => r
  | r :: rs' => Cat r (Seq rs')
  end.

(** An alternation [r1|r2|...|rn]. *)
Fixpoint Alts (rs : list regex) : regex :=
  match rs with
  | [] => Class false []
  | [r] => r
  | r :: rs' => Alt r (Alts rs')
  end.

(** Items of a character class: one byte, or a range [lo-hi]. *)
Definition ch (c : ascii) : ascii * ascii := (c, c).
Definition rg (lo hi : ascii) : ascii * ascii := (lo, hi).

(** The Perl class [\s] of Go's syntax: tab, newline, form feed,
    carriage return and space. *)
Definition perl_space : list (ascii * ascii) :=
  [ch "009"; ch "010"; ch "012"; ch "013"; ch " "]%char.

Definition in_range (c : ascii) (item : ascii * ascii) : bool :=
  (byteZ (fst item) <=? byteZ c) && (byteZ c <=? byteZ (snd item)).

Definition class_matches (negated : bool) (ranges : list (ascii * ascii))
    (c : ascii) : bool :=
  xorb negated (existsb (in_range c) ranges).

(** One byte of the text, tested by [f]. *)
Definition one (f : ascii -> bool) (text : gostring) (p : nat) : list nat :=
  match nth_error text p with
  | Some c => if f c then [S p] else []
  | None => []
  end.

(** Greedy repetition: another iteration is preferred to stopping. *)
Fixpoint rep (step : nat -> list nat) (min fuel : nat) (p : nat) : list nat :=
  match fuel with
  | O => match min with O => [p] | S _ => [] end
  | S fuel' =>
      flat_map (rep step (Nat.pred min) fuel') (step p)
      ++ match min with O => [p] | S _ => [] end
  end.

Fixpoint ends (r : regex) (text : gostring) (p : nat) : list nat :=
  match r with
  | Empty => [p]
  | Lit c => one (Ascii.eqb c) text p
  | Class negated ranges => one (class_matches negated ranges) text p
  | AnyCharNotNL => one (fun c => negb (Ascii.eqb c "010"%char)) text p
  | Cat r1 r2 => flat_map (ends r2 text) (ends r1 text p)
  | Alt r1 r2 => ends r1 text p ++ ends r2 text p
  | Repeat min max r =>
      rep (ends r text) min
          (match max with
           | Some n => n
           | None => min + (length text - p)
           end)%nat p
  | Group _ r => ends r text p
  | BeginText => if (p =? 0)%nat then [p] else []
  | EndText => if (p =? length text)%nat then [p] else []
  end.

(** Does a match start at position [p]? *)
Definition matches_at (r : regex) (text : gostring) (p : nat) : bool :=
  match ends r text p with [] => false | _ :: _ => true end.

(** [Regexp.MatchString]: does the text contain any match? *)
Definition MatchString (r : regex) (text : gostring) : bool :=
  existsb (matches_at r text) (seq 0 (S (length text))).

(** The leftmost match that starts at [p] or later: its start and end. *)
Fixpoint find_from (r : regex) (text : gostring) (fuel p : nat)
    : option (nat * nat) :=
  match ends r text p with
  | q :: _ => Some (p, q)
  | [] => match fuel with
          | O => None
          | S fuel' => find_from r text fuel' (S p)
          end
  end.

Definition slice (text : gostring) (a b : nat) : gostring :=
  firstn (b - a) (skipn a text).

(** [Regexp.FindAllString(text, -1)]: the successive leftmost matches.
    After an empty match the search resumes one byte further. *)
Fixpoint find_all (r : regex) (text : gostring) (fuel p : nat)
    : list gostring :=
  match fuel with
  | O => []
  | S fuel' =>
      match find_from r text (length text - p) p with
      | None => []
      | Some (a, b) =>
          slice text a b
          :: (if (length text <=? b)%nat then []
              else find_all r text fuel' (if (b =? a)%nat then S b else b))
      end
  end.

Definition FindAllString (r : regex) (text : gostring) : list gostring :=
  find_all r text (S (length text)) 0.

(** [Regexp.FindAllStringSubmatch(text, -1)] for an expression without
    capture groups: each match is a slice that holds the whole match. *)
Definition FindAllStringSubmatch (r : regex) (text : gostring)
    : list (list gostring) :=
  map (fun m => [m]) (FindAllString r text).

End Regexp.

(** ** [unicode/utf8] and [unicode] *)

Module Utf8.

Definition RuneError : Z := 65533.

(** The table [first] with [acceptRanges]: for a leading byte >= 0x80,
    the length of the sequence and the bounds of its second byte; [None]
    for a byte that starts no sequence. *)
Definition first (s0 : Z) : option (nat * Z * Z) :=
  if s0 <? 194 then None                       (* 0x80-0xC1 *)
  else if s0 <? 224 then Some (2%nat, 128, 191)  (* 0xC2-0xDF *)
  else if s0 =? 224 then Some (3%nat, 160, 191)  (* 0xE0 *)
  else if s0 =? 237 then Some (3%nat, 128, 159)  (* 0xED *)
  else if s0 <? 240 then Some (3%nat, 128, 191)  (* 0xE1-0xEF *)
  else if s0 =? 240 then Some (4%nat, 144, 191)  (* 0xF0 *)
  else if s0 <? 244 then Some (4%nat, 128, 191)  (* 0xF1-0xF3 *)
  else if s0 =? 244 then Some (4%nat, 128, 143)  (* 0xF4 *)
  else None.                                   (* 0xF5-0xFF *)

Definition cont (b : Z) : bool := (128 <=? b) && (b <=? 191).

(** [utf8.DecodeRuneInString]: the first rune of [s] and its width in
    bytes; [(RuneError, 1)] for an invalid encoding. *)
Definition DecodeRuneInString (s : gostring) : Z * nat :=
  match s with
  | [] => (RuneError, 0%nat)
  | c0 :: t =>
      let s0 := byteZ c0 in
      if s0 <? 128 then (s0, 1%nat)
      else
        match first s0 with
        | None => (RuneError, 1%nat)
        | Some (sz, lo, hi) =>
            if (length s <? sz)%nat then (RuneError, 1%nat)
            else
              match map byteZ t with
              | s1 :: rest =>
                  if (s1 <? lo) || (hi <? s1) then (RuneError, 1%nat)
                  else if (sz <=? 2)%nat
                  then (s0 mod 32 * 64 + s1 mod 64, 2%nat)
                  else
                    match rest with
                    | s2 :: rest' =>
                        if negb (cont s2) then (RuneError, 1%nat)
                        else if (sz <=? 3)%nat
                        then (s0 mod 16 * 4096 + s1 mod 64 * 64 + s2 mod 64,
                              3%nat)
                        else
                          match rest' with
                          | s3 :: _ =>
                              if negb (cont s3) then (RuneError, 1%nat)
                              else (s0 mod 8 * 262144 + s1 mod 64 * 4096
                                    + s2 mod 64 * 64 + s3 mod 64, 4%nat)
                          | [] => (RuneError, 1%nat)
                          end
                    | [] => (RuneError, 1%nat)
                    end
              | [] => (RuneError, 1%nat)
              end
        end
  end.

(** [unicode.IsSpace]: the Latin-1 spaces, then the [White_Space]
    property of the other code points. *)
Definition IsSpace (r : Z) : bool :=
  if r <=? 255
  then (r =? 9) || (r =? 10) || (r =? 11) || (r =? 12) || (r =? 13)
       || (r =? 32) || (r =? 133) || (r =? 160)
  else (r =? 5760) || ((8192 <=? r) && (r <=? 8202)) || (r =? 8232)
       || (r =? 8233) || (r =? 8239) || (r =? 8287) || (r =? 12288).

Fixpoint trim_left (f : Z -> bool) (fuel : nat) (s : gostring) : gostring :=
  match fuel, s with
  | S fuel', _ :: _ =>
      let (r, w) := DecodeRuneInString s in
      if f r then trim_left f fuel' (skipn w s) else s
  | _, _ => s
  end.

(** [strings.TrimLeftFunc]: [s] from its first rune that fails [f]. *)
Definition TrimLeftFunc (s : gostring) (f : Z -> bool) : gostring :=
  trim_left f (length s) s.

End Utf8.


(** ** [path/filepath] on Unix *)

Module Filepath.

(** The elements of a path between its separators: ["a//b"] has the
    elements ["a"], [""] and ["b"]. *)
Fixpoint elements (path : gostring) : list gostring :=
  match path with
  | [] => [[]]
  | c :: path' =>
      if Ascii.eqb c "/" then [] :: elements path'
      else match elements path' with
           | e :: es => (c :: e) :: es
           | [] => [[c]]
           end
  end.

Definition dot : gostring := gostr ".".
Definition dotdot : gostring := gostr "..".

(** One element read by [Clean]; [out] holds the elements kept so far,
    the last one first.  Empty elements and ["."] are dropped, [".."]
    removes the element before it, is dropped at the root, and is kept
    at the start of a relative path. *)
Definition clean_step (rooted : bool) (out : list gostring) (e : gostring)
    : list gostring :=
  if bool_decide (e = []) || bool_decide (e = dot) then out
  else if bool_decide (e = dotdot) then
    match out with
    | top :: out' => if bool_decide (top = dotdot) then e :: out else out'
    | [] => if rooted then [] else [e]
    end
  else e :: out.

(** [strings.Join(elems, "/")]. *)
Fixpoint join_sep (elems : list gostring) : gostring :=
  match elems with
  | [] => []
  | [e] => e
  | e :: elems' => e ++ "/"%char :: join_sep elems'
  end.

Definition rooted (path : gostring) : bool :=
  match path with
  | c :: _ => Ascii.eqb c "/"
  | [] => false
  end.

(** [filepath.Clean]: the shortest path name equivalent to [path] by
    purely lexical processing. *)
Definition Clean (path : gostring) : gostring :=
  let out := rev (fold_left (clean_step (rooted path)) (elements path) []) in
  if rooted path then "/"%char :: join_sep out
  else match out with
       | [] => dot
       | _ :: _ => join_sep out
       end.

(** [filepath.Join(dir, name)]: empty elements are ignored, the rest is
    joined with the separator and cleaned. *)
Definition Join (dir name : gostring) : gostring :=
  match dir, name with
  | _ :: _, _ :: _ => Clean (dir ++ "/"%char :: name)
  | _ :: _, [] => Clean dir
  | [], _ :: _ => Clean name
  | [], [] => []
  end.

End Filepath.

(** ** [strconv] *)

Module Strconv.

(** [strconv.FormatUint(x, 10)]. *)
Definition FormatUint (x : Z) : gostring :=
  gostr (NilZero.string_of_uint (N.to_uint (Z.to_N x))).

End Strconv.

(** ** [github.com/hashicorp/golang-lru/v2]

    A cache of at most [size] entries that drops the entry used least
    recently.  The entries are kept in the order of the eviction list of
    the library, the most recently used first. *)

Module Lru.

Record Cache : Type := {
  size : nat;
  entries : list (gostring * bool)
}.

(** [lru.New[string, bool](size)]. *)
Definition New (size : nat) : Cache := {| size := size; entries := [] |}.

(** The value stored under [key]. *)
Fixpoint find (key : gostring) (es : list (gostring * bool)) : option bool :=
  match es with
  | [] => None
  | (k, v) :: es' => if bool_decide (k = key) then Some v else find key es'
  end.

Definition remove (key : gostring) (es : list (gostring * bool))
    : list (gostring * bool) :=
  filter (fun e => fst e <> key) es.

(** [Cache.Contains]: a look-up that leaves the order alone. *)
Definition Contains (c : Cache) (key : gostring) : bool :=
  bool_decide (is_Some (find key (entries c))).

(** [Cache.Get]: a hit moves the entry to the front. *)
Definition Get (c : Cache) (key : gostring) : option bool * Cache :=
  match find key (entries c) with
  | Some v =>
      (Some v, {| size := size c;
                  entries := (key, v) :: remove key (entries c) |})
  | None => (None, c)
  end.

(** [Cache.Add]: an entry that exists is updated and moved to the front;
    a new entry is put at the front, and the oldest entry is dropped when
    the cache holds more than [size] entries. *)
Definition Add (c : Cache) (key : gostring) (value : bool) : Cache :=
  match find key (entries c) with
  | Some _ =>
      {| size := size c; entries := (key, value) :: remove key (entries c) |}
  | None =>
      let es := (key, value) :: entries c in
      {| size := size c;
         entries := if (size c <? length es)%nat then removelast es else es |}
  end.

End Lru.

(** ** Package [common]: pages and fingerprints

    The package is not part of the sources at hand; what the spider uses
    of it is modelled here. *)

Module Common.

(** Modelled from the spec: the Page of the data model,
    [{url, fetchedAtUnixTime, httpStatus, body, fingerprintSet}]; the
    field names are those the spider reads. *)
Record WebPage : Type := {
  Timestamp : Z;
  Url : gostring;
  Status : gostring;
  Body : gostring;
  Fingerprints : gset Z
}.

(** Modelled from the spec: the Fingerprint Index, a mapping from a
    fingerprint to the pages that produced it
    ([Fingerprints.GetFingerprintsAsSet] of [common]). *)
Abbreviation Index := (gmap Z (list WebPage)).

(** Modelled from the spec: [NewFingerprints], an index without pages. *)
Definition NewFingerprints : Index := ∅.

(** Modelled from the spec: [Admit(page, index)] "inserts every
    fingerprint of page into the index, each pointing back to page"
    ([Fingerprints.InsertFingerprintsUsingWebpage] of [common]). *)
Definition InsertFingerprintsUsingWebpage (fp : Index) (page : WebPage)
    : Index :=
  set_fold (fun hash acc => <[hash := page :: default [] (acc !! hash)]> acc)
           fp (Fingerprints page).

(** Modelled from the spec: [Similarity(setA, setB)], the Jaccard index
    |A ∩ B| / |A ∪ B|, as an exact fraction; 0 when both sets are empty
    ([WebPage.Similarity] of [common]). *)
Definition Similarity (wp page : WebPage) : Q :=
  let inter := size (Fingerprints wp ∩ Fingerprints page) in
  let union := size (Fingerprints wp ∪ Fingerprints page) in
  match union with
  | O => 0%Q
  | S _ => (Z.of_nat inter # Pos.of_nat union)%Q
  end.

(** The test [similarity > 0.9]. *)
Definition exceeds_threshold (q : Q) : bool := negb (Qle_bool q (9 # 10)).

End Common.

(** ** The spider *)

Module Spider.

Import Regexp Common.

(** The regular expressions compiled by [urlValid] and [findHostName]. *)

(** [[-a-zA-Z0-9@:%._+~#=]] *)
Definition hostChars : regex :=
  Class false [ch "-"; rg "a" "z"; rg "A" "Z"; rg "0" "9"; ch "@"; ch ":";
               ch "%"; ch "."; ch "_"; ch "+"; ch "~"; ch "#"; ch "="]%char.

(** [[a-zA-Z0-9()]] *)
Definition tldChars : regex :=
  Class false [rg "a" "z"; rg "A" "Z"; rg "0" "9"; ch "("; ch ")"]%char.

(** [[-a-zA-Z0-9()@:_+~?=/]] *)
Definition resourceChars : regex :=
  Class false [ch "-"; rg "a" "z"; rg "A" "Z"; rg "0" "9"; ch "("; ch ")";
               ch "@"; ch ":"; ch "_"; ch "+"; ch "~"; ch "?"; ch "=";
               ch "/"]%char.

(** [^( https:// H{1,256} \. T{1,6} R* )$], where [H], [T] and [R] stand
    for the three classes above. *)
Definition urlRe : regex :=
  Seq [BeginText;
       Group None
         (Seq [Str (gostr "https://");
               Repeat 1 (Some 256%nat) hostChars;
               Lit ".";
               Repeat 1 (Some 6%nat) tldChars;
               Star resourceChars]);
       EndText].

(** The extensions of the alternation of [extRe], in the order of the
    source; [jpe?g] and [tiff?] are the two entries that are not plain
    strings. *)
Definition extAlternatives : list regex :=
  map (fun s => Str (gostr s)) ["css"; "js"; "bmp"; "gif"]%string
  ++ [Seq [Str (gostr "jp"); Opt (Lit "e"); Lit "g"]]
  ++ map (fun s => Str (gostr s)) ["ico"; "png"]%string
  ++ [Seq [Str (gostr "tif"); Opt (Lit "f")]]
  ++ map (fun s => Str (gostr s))
       ["mid"; "mp2"; "mp3"; "mp4"; "ppsx"; "wav"; "avi"; "mov"; "mpeg";
        "ram"; "m4v"; "mkv"; "ogg"; "ogv"; "pdf"; "odc"; "sas"; "ps"; "eps";
        "tex"; "ppt"; "pptx"; "doc"; "docx"; "xls"; "xlsx"; "names"; "data";
        "dat"; "exe"; "bz2"; "tar"; "msi"; "bin"; "7z"; "psd"; "dmg"; "iso";
        "epub"; "dll"; "cnf"; "tgz"; "sha1"; "ss"; "scm"; "py"; "rkt"; "r";
        "c"; "thmx"; "mso"; "arff"; "rtf"; "jar"; "csv"; "java"; "txt"; "rm";
        "smil"; "wmv"; "swf"; "wma"; "zip"; "rar"; "gz"]%string.

(** [. * \. (?: css|js|...|rar|gz ) $] *)
Definition extRe : regex :=
  Seq [Star AnyCharNotNL; Lit "."; Alts extAlternatives; EndText].

(** [https://[^\s:/@]+\.[^\s:/@]+] *)
Definition domainChars : regex :=
  Class true (perl_space ++ [ch ":"; ch "/"; ch "@"]%char).

Definition domainRe : regex :=
  Seq [Str (gostr "https://"); Plus domainChars; Lit "."; Plus domainChars].

(** The regular expression of the earlier copy of [urlValid], with its
    named groups:
    [^ (?P<scheme> https://) (?P<hostname> H{1,256} \. T{1,6})
    (?P<resource> R* ) $]. *)
Definition legacyUrlRe : regex :=
  Seq [BeginText;
       Group (Some "scheme"%string) (Str (gostr "https://"));
       Group (Some "hostname"%string)
         (Seq [Repeat 1 (Some 256%nat) hostChars;
               Lit ".";
               Repeat 1 (Some 6%nat) tldChars]);
       Group (Some "resource"%string) (Star resourceChars);
       EndText].

(** [findHostName]: the first match of [domainRe] in [url], or the empty
    string. *)
Definition findHostName (url : gostring) : gostring :=
  let substr := FindAllStringSubmatch domainRe url in
  match substr with
  | [] => []
  | [] :: _ => []
  | (whole :: _) :: _ => whole
  end.

(** [hash]: the 64-bit FNV-1a sum of the bytes of [str]. *)
Definition hash (str : gostring) : Z := Fnv.Sum64a str.

(** [abs]: [-val] is computed in [int], where it wraps around. *)
Definition abs (val : Z) : Z :=
  if val <? 0 then GoInt.neg val else val.

(** [calcWebsiteToRoutineNum]; [None] is the panic of [%] by zero. *)
Definition calcWebsiteToRoutineNum (numRoutines : Z) (url : gostring)
    : option Z :=
  let hostname := findHostName url in
  let hash := abs (GoInt.of_uint64 (hash hostname)) in
  GoInt.rem hash numRoutines.

(** [validPage]. *)
Definition validPage (wp : WebPage) : bool :=
  let trimmedBody := Utf8.TrimLeftFunc (Body wp) Utf8.IsSpace in
  GoStrings.HasPrefix trimmedBody (gostr "<!DOCTYPE html")
  || GoStrings.HasPrefix trimmedBody (gostr "<!doctype html").

(** [duplicateExists].  The two loops range over Go maps, in an order the
    language leaves open; the function returns [true] as soon as one
    page passes the test, so its result is that of [existsb]. *)
Definition duplicateExists (fp : Index) (wp : WebPage) : bool :=
  let fpGlobalSet := fp in
  let fpWebpageSet := Fingerprints wp in
  existsb
    (fun hash =>
       match fpGlobalSet !! hash with
       | Some pages =>
           existsb
             (fun page =>
                bool_decide (Url page ≠ Url wp)
                && exceeds_threshold (Similarity wp page))
             pages
       | None => false
       end)
    (elements fpWebpageSet).

(** [StringSet] of [spider/stringset.go]: a set of strings held as the
    keys of a map to [bool].  The zero value has a nil map, which reads
    like the empty map. *)
Record StringSet : Type := { m : gmap gostring bool }.

Definition emptyStringSet : StringSet := {| m := ∅ |}.

Definition Add (s : StringSet) (str : gostring) : StringSet :=
  {| m := <[str := true]> (m s) |}.

Definition Contains (s : StringSet) (str : gostring) : bool :=
  default false (m s !! str).

(** [delete(s.m, str)]; on the nil map of the zero value it does
    nothing. *)
Definition Remove (s : StringSet) (str : gostring) : StringSet :=
  {| m := delete str (m s) |}.

(** [Merge]: every key of [right.m] is added, in the order in which the
    map is ranged over. *)
Definition Merge (s right : StringSet) : StringSet :=
  fold_left Add (elements (dom (m right))) s.

(** The fields of [SearchHouseSpider] that are fixed when it is built. *)
Record SearchHouseSpider : Type := {
  numRoutines : Z;
  workingDirectory : gostring;
  maxLinksPerPage : Z
}.

(** The name of the file of a page: shared by [writeToDisk] and
    [pageDownloaded]. *)
Definition fileNameOf (s : SearchHouseSpider) (url : gostring) : gostring :=
  Filepath.Join (workingDirectory s)
                (Strconv.FormatUint (hash url) ++ gostr ".json").

Section WithCollaborators.

(** The host-eligibility oracle [isWordPressWebsite] consults a cache
    and the network; it is taken as a function of the state of both.
    [getHostname] is [url.Parse(u).Host] of [net/url]. *)
Context {OracleState : Type}.
Variable isWordPressWebsite : gostring -> OracleState -> bool * OracleState.
Variable getHostname : gostring -> gostring.

(** [urlValid]. *)
Definition urlValid (url : gostring) (o : OracleState)
    : bool * OracleState :=
  if MatchString urlRe url
     && negb (MatchString extRe (GoStrings.ToLower url))
  then isWordPressWebsite (getHostname url) o
  else (false, o).

(** The loop of [constructProperURLs]; [None] is the panic of
    [urlStr[0]] on an empty string. *)
Fixpoint constructProperURLs_loop (hostName : gostring)
    (urls : list gostring) (properURLs : StringSet) (o : OracleState)
    : option (StringSet * OracleState) :=
  match urls with
  | [] => Some (properURLs, o)
  | urlStr :: urls' =>
      match urlStr with
      | [] => None
      | c :: _ =>
          let parsedURL :=
            if Ascii.eqb c "/" then hostName ++ urlStr
            else GoStrings.TrimSuffix urlStr (gostr "/") in
          let (valid, o') := urlValid parsedURL o in
          constructProperURLs_loop hostName urls'
            (if valid then Add properURLs parsedURL else properURLs) o'
      end
  end.

(** [constructProperURLs]. *)
Definition constructProperURLs (urls : list gostring) (root : gostring)
    (o : OracleState) : option (StringSet * OracleState) :=
  let properURLs := emptyStringSet in
  let hostName := findHostName root in
  match hostName with
  | [] => Some (properURLs, o)
  | _ :: _ => constructProperURLs_loop hostName urls properURLs o
  end.

(** *** The crawl loop *)

(** What the rest of the program and the outside world contribute:
    [common.NewWebPage] fingerprints the body, [WebPage.Serialize] and
    [WebPage.FindAllAnchorHREFs] are methods of [common]. *)
Variable fingerprintsOf : gostring -> gset Z.
Variable Serialize : WebPage -> gostring.
Variable FindAllAnchorHREFs : WebPage -> Z -> list gostring.

Definition NewWebPage (timestamp : Z) (url status body : gostring)
    : WebPage :=
  {| Timestamp := timestamp; Url := url; Status := status; Body := body;
     Fingerprints := fingerprintsOf body |}.

(** The answer of [http.Get] followed by [io.ReadAll]: an error of the
    request, or a status line with the body, [None] when reading the
    body failed. *)
Inductive Response : Type :=
| GetError
| GetOk (status : gostring) (body : option gostring).

(** What one iteration of the loop receives from outside. *)
Record Env : Type := {
  http_Get : gostring -> Response;
  time_Now_Unix : Z
}.

(** The actions that the body of [Crawl] takes itself: its calls of
    [time.Sleep], its call of [http.Get] for the page (line 68), and
    the call of [fp.InsertFingerprintsUsingWebpage(page)], marked by
    [EvAdmit].  The request for [/wp-admin] that [isWordPressWebsite]
    sends when [urlValid] asks it about a host that is not cached is no
    action of this list: it belongs to the step of the oracle, which
    takes the state [wordpressSites] to the next one, and an oracle
    that is to show its requests keeps them in that state. *)
Inductive Event : Type :=
| EvSleep (seconds : Z)
| EvGet (url : gostring)
| EvAdmit (routineNum : Z) (page : WebPage).

(** The state all workers share: the frontier, the page directory, the
    oracle with its cache, and the actions so far.

    Modelled from the spec: the Frontier, [PopURL(shard)] removes and
    returns the next pending URL of the shard or the empty string,
    [InsertURL(url, shard)] appends to the queue of the shard. *)
Record World : Type := {
  frontier : gmap Z (list gostring);
  files : gmap gostring gostring;
  wordpressSites : OracleState;
  trace : list Event
}.

(** Stateful code: a function of the shared state, [None] on a panic. *)
Definition M (A : Type) : Type := World -> option (A * World).

Definition ret {A} (a : A) : M A := fun w => Some (a, w).

Definition bind {A B} (c : M A) (k : A -> M B) : M B :=
  fun w => match c w with
           | Some (a, w') => k a w'
           | None => None
           end.

Notation "x <- c ;; k" := (bind c (fun x => k))
  (at level 100, c at next level, right associativity).
Notation "c ;;; k" := (bind c (fun _ => k))
  (at level 100, right associativity).

Definition emit (e : Event) : M unit :=
  fun w => Some (tt, {| frontier := frontier w; files := files w;
                        wordpressSites := wordpressSites w;
                        trace := trace w ++ [e] |}).

(** [time.Sleep(seconds * time.Second)]. *)
Definition Sleep (seconds : Z) : M unit := emit (EvSleep seconds).

Definition PopURL (routineNum : Z) : M gostring :=
  fun w =>
    match frontier w !! routineNum with
    | Some (url :: rest) =>
        Some (url, {| frontier := <[routineNum := rest]> (frontier w);
                      files := files w;
                      wordpressSites := wordpressSites w;
                      trace := trace w |})
    | _ => Some ([], w)
    end.

Definition InsertPage (url : gostring) (routineNum : Z) : M unit :=
  fun w =>
    Some (tt, {| frontier :=
                   <[routineNum :=
                       default [] (frontier w !! routineNum) ++ [url]]>
                     (frontier w);
                 files := files w;
                 wordpressSites := wordpressSites w;
                 trace := trace w |}).

(** A call of the oracle, on the shared cache. *)
Definition withOracle {A} (f : OracleState -> A * OracleState) : M A :=
  fun w =>
    let (a, o) := f (wordpressSites w) in
    Some (a, {| frontier := frontier w; files := files w;
                wordpressSites := o; trace := trace w |}).

(** A call that may panic and leaves the shared state alone. *)
Definition orPanic {A} (r : option A) : M A :=
  fun w => match r with Some a => Some (a, w) | None => None end.

(** [pageDownloaded]: is there a file with the name of the page?  The
    page directory of the model has no I/O errors; in the source they end
    the process. *)
Definition pageDownloaded (s : SearchHouseSpider) (url : gostring)
    : M bool :=
  fun w => Some (bool_decide (is_Some (files w !! fileNameOf s url)), w).

(** [writeToDisk]: create the file and write the serialized page. *)
Definition writeToDisk (s : SearchHouseSpider) (w : WebPage) : M unit :=
  fun world =>
    let fileName := fileNameOf s (Url w) in
    Some (tt, {| frontier := frontier world;
                 files := <[fileName := Serialize w]> (files world);
                 wordpressSites := wordpressSites world;
                 trace := trace world |}).

(** [setSeed]: the seed URLs go to shard 0, unless already fetched. *)
Fixpoint setSeed (s : SearchHouseSpider) (urls : list gostring) : M unit :=
  match urls with
  | [] => ret tt
  | urlStr :: urls' =>
      downloaded <- pageDownloaded s urlStr ;;
      (if downloaded then ret tt else InsertPage urlStr 0) ;;;
      setSeed s urls'
  end.

(** [NewSpider], on the frontier and the page directory as the previous
    run left them. *)
Definition NewSpider (numRoutines : Z) (workingDirectory : gostring)
    (seed : list gostring) (maxLinks : Z) : M SearchHouseSpider :=
  let cs := {| numRoutines := numRoutines;
               workingDirectory := workingDirectory;
               maxLinksPerPage := maxLinks |} in
  setSeed cs seed ;;;
  ret cs.

(** The loop over the discovered links. *)
Fixpoint insertAnchors (s : SearchHouseSpider) (keys : list gostring)
    : M unit :=
  match keys with
  | [] => ret tt
  | key :: keys' =>
      downloaded <- pageDownloaded s key ;;
      (if downloaded then ret tt
       else
         routineNum <- orPanic (calcWebsiteToRoutineNum (numRoutines s) key) ;;
         InsertPage key routineNum) ;;;
      insertAnchors s keys'
  end.

(** One iteration of the [for] loop of [Crawl], run by the worker
    [routineNum] on its own index [fp]; the result is the index after
    the iteration. *)
Definition Crawl_iteration (s : SearchHouseSpider) (env : Env)
    (routineNum : Z) (fp : Index) : M Index :=
  currentUrl <- PopURL routineNum ;;
  match currentUrl with
  | [] => Sleep 1 ;;; ret fp
  | _ :: _ =>
      valid <- withOracle (urlValid currentUrl) ;;
      if negb valid then ret fp
      else
        downloaded <- pageDownloaded s currentUrl ;;
        if downloaded then ret fp
        else
          emit (EvGet currentUrl) ;;;
          match http_Get env currentUrl with
          | GetOk status (Some body) =>
              if bool_decide (status = gostr "200 OK") then
                let page :=
                  NewWebPage (time_Now_Unix env) currentUrl status body in
                if negb (validPage page) || duplicateExists fp page
                then ret fp
                else
                  let fp' := InsertFingerprintsUsingWebpage fp page in
                  emit (EvAdmit routineNum page) ;;;
                  writeToDisk s page ;;;
                  anchors <-
                    (fun w =>
                       match constructProperURLs
                               (FindAllAnchorHREFs page (maxLinksPerPage s))
                               currentUrl (wordpressSites w) with
                       | Some (set, o) => withOracle (fun _ => (set, o)) w
                       | None => None
                       end) ;;
                  insertAnchors s (elements (dom (m anchors))) ;;;
                  Sleep 5 ;;;
                  ret fp'
              else Sleep 5 ;;; ret fp
          | _ => Sleep 5 ;;; ret fp
          end
  end.

(** *** The workers

    [CrawlConcurrently] starts one goroutine per shard; each runs
    [Crawl], which begins with [fp := common.NewFingerprints(3, 10000)].
    The state of the crawl is the shared state and, per worker, the
    index held in its local variable [fp]. *)
Record System : Type := {
  world : World;
  indexes : list Index
}.

Definition CrawlConcurrently (s : SearchHouseSpider) (w : World) : System :=
  {| world := w;
     indexes := replicate (Z.to_nat (numRoutines s)) NewFingerprints |}.

(** The worker [i] runs one iteration of its loop. *)
Definition worker_step (s : SearchHouseSpider) (sys : System)
    (turn : nat * Env) : option System :=
  let (i, env) := turn in
  match indexes sys !! i with
  | Some fp =>
      match Crawl_iteration s env (Z.of_nat i) fp (world sys) with
      | Some (fp', w') =>
          Some {| world := w'; indexes := <[i := fp']> (indexes sys) |}
      | None => None
      end
  | None => Some sys
  end.

(** The workers take turns in the order of [schedule]. *)
Fixpoint run (s : SearchHouseSpider) (schedule : list (nat * Env))
    (sys : System) : option System :=
  match schedule with
  | [] => Some sys
  | turn :: schedule' =>
      match worker_step s sys turn with
      | Some sys' => run s schedule' sys'
      | None => None
      end
  end.

(** The pages a worker has admitted, oldest first, and those admitted
    by any worker. *)
Fixpoint admittedBy (routineNum : Z) (tr : list Event) : list WebPage :=
  match tr with
  | [] => []
  | EvAdmit r page :: tr' =>
      if bool_decide (r = routineNum) then page :: admittedBy routineNum tr'
      else admittedBy routineNum tr'
  | _ :: tr' => admittedBy routineNum tr'
  end.

Fixpoint admitted (tr : list Event) : list WebPage :=
  match tr with
  | [] => []
  | EvAdmit _ page :: tr' => page :: admitted tr'
  | _ :: tr' => admitted tr'
  end.

End WithCollaborators.

(** The index that holds the pages of [pages], admitted in this order. *)
Definition indexOf (pages : list WebPage) : Index :=
  fold_left InsertFingerprintsUsingWebpage pages NewFingerprints.

End Spider.

(** ** The host-eligibility oracle *)

Module WordPress.

(** What [isWordPressWebsite] gets from the network: the answer of
    [http.Get], [io.ReadAll(resp.Body)] and [resp.Body.Close()].  The
    request fails (or brings no response), or it brings a status code,
    the bytes read from the body, and the news whether reading and closing
    failed. *)
Inductive Probe : Type :=
| ProbeError
| ProbeResponse (StatusCode : Z) (content : gostring)
                (readErr closeErr : bool).

(** ["https://" + str + "/wp-admin"]. *)
Definition probeUrl (str : gostring) : gostring :=
  gostr "https://" ++ str ++ gostr "/wp-admin".

(** [strings.Contains(strings.ToLower(string(content)), "wordpress")].
    [strings.ToLower] maps no rune outside ASCII to one of the letters of
    the word, and writes every other rune with bytes >= 0x80, so the word
    occurs in its result where it occurs in the result of the byte-wise
    [GoStrings.ToLower]. *)
Definition mentionsWordPress (content : gostring) : bool :=
  GoStrings.Contains (GoStrings.ToLower content) (gostr "wordpress").

Section WithNetwork.

Variable http_Get : gostring -> Probe.

(** [isWordPressWebsite], on the cache [s.wordpressSites]. *)
Definition isWordPressWebsite (str : gostring) (wordpressSites : Lru.Cache)
    : bool * Lru.Cache :=
  match Lru.Get wordpressSites str with
  | (Some isWp, cache) => (isWp, cache)
  | (None, cache) =>
      let isWp :=
        match http_Get (probeUrl str) with
        | ProbeResponse StatusCode content false _ =>
            (StatusCode =? 403)
            || ((StatusCode =? 200) && mentionsWordPress content)
        | _ => false
        end in
      (isWp, Lru.Add cache str isWp)
  end.

(** The earlier copy of [isWordPressWebsite]: it looks at the status
    code also when reading the body failed, and it panics ([None]) when
    closing the body fails. *)
Definition legacy_isWordPressWebsite (str : gostring)
    (wordpressSites : Lru.Cache) : option (bool * Lru.Cache) :=
  if Lru.Contains wordpressSites str then
    let (isWp, cache) := Lru.Get wordpressSites str in
    Some (default false isWp, cache)
  else
    match http_Get (probeUrl str) with
    | ProbeResponse StatusCode content readErr closeErr =>
        if closeErr then None
        else
          let isWp :=
            if StatusCode =? 403 then true
            else if StatusCode =? 200 then mentionsWordPress content
            else if StatusCode =? 404 then false
            else false in
          Some (isWp, Lru.Add wordpressSites str isWp)
    | ProbeError => Some (false, Lru.Add wordpressSites str false)
    end.

End WithNetwork.

End WordPress.

(** ** The earlier copy of the spider *)

Module Legacy.

Import Regexp Common Spider.

(** [urlStr[len(urlStr)-1] == '/'], for a string that is not empty. *)
Definition lastIsSlash (urlStr : gostring) : bool :=
  match nth_error urlStr (length urlStr - 1) with
  | Some c => Ascii.eqb c "/"
  | None => false
  end.

Section WithNetwork.

(** The earlier copy has an oracle of its own,
    [WordPress.legacy_isWordPressWebsite]; both copies read the host
    with [url.Parse]. *)
Variable http_Get : gostring -> WordPress.Probe.
Variable getHostname : gostring -> gostring.

(** The earlier copy of [urlValid], on the cache [s.wordpressSites].
    Its [extRe] literal is split over four source lines whose
    concatenation is the text of [extRe].  It panics ([None]) when its
    oracle does. *)
Definition urlValid (url : gostring) (wordpressSites : Lru.Cache)
    : option (bool * Lru.Cache) :=
  if MatchString legacyUrlRe url
     && negb (MatchString extRe (GoStrings.ToLower url))
  then
    match WordPress.legacy_isWordPressWebsite http_Get (getHostname url)
            wordpressSites with
    | Some (isWp, cache) =>
        if isWp then Some (true, cache) else Some (false, cache)
    | None => None
    end
  else Some (false, wordpressSites).

(** The loop of the earlier copy of [constructProperURLs]: the trailing
    slash is cut off by slicing, and the URL is tested by the earlier
    copy of [urlValid]; [None] is the panic of [urlStr[0]] on an empty
    string, or a panic of the oracle. *)
Fixpoint constructProperURLs_loop (hostName : gostring)
    (urls : list gostring) (properURLs : StringSet)
    (wordpressSites : Lru.Cache) : option (StringSet * Lru.Cache) :=
  match urls with
  | [] => Some (properURLs, wordpressSites)
  | urlStr :: urls' =>
      match urlStr with
      | [] => None
      | c :: _ =>
          let parsedURL :=
            if Ascii.eqb c "/" then hostName ++ urlStr
            else if lastIsSlash urlStr
                 then firstn (length urlStr - 1) urlStr
                 else urlStr in
          match urlValid parsedURL wordpressSites with
          | Some (valid, cache) =>
              constructProperURLs_loop hostName urls'
                (if valid then Add properURLs parsedURL else properURLs)
                cache
          | None => None
          end
      end
  end.

Definition constructProperURLs (urls : list gostring) (root : gostring)
    (wordpressSites : Lru.Cache) : option (StringSet * Lru.Cache) :=
  let properURLs := emptyStringSet in
  let hostName := findHostName root in
  match hostName with
  | [] => Some (properURLs, wordpressSites)
  | _ :: _ =>
      constructProperURLs_loop hostName urls properURLs wordpressSites
  end.

End WithNetwork.

(** The earlier copy of [abs]: [-1 * val], computed in [int]. *)
Definition abs (val : Z) : Z :=
  if val <? 0 then GoInt.wrap (-1 * val) else val.

(** The name of the file of a page in the earlier copy:
    [s.workingDirectory + "/" + FormatUint(hash(url), 10) + ".json"]. *)
Definition fileNameOf (s : SearchHouseSpider) (url : gostring) : gostring :=
  workingDirectory s ++ gostr "/"
  ++ Strconv.FormatUint (hash url) ++ gostr ".json".

End Legacy.

(** * Properties *)

(** ** The matcher *)

Module RegexpFacts.

Import Regexp.

Lemma flat_map_flat_map {A B C} (f : B -> list C) (g : A -> list B) l :
  flat_map f (flat_map g l) = flat_map (fun x => flat_map f (g x)) l.
Proof.
  induction l as [|a l IH]; simpl; [reflexivity|].
  now rewrite flat_map_app, IH.
Qed.

(** Concatenation is associative, also for the order of preference. *)
Lemma ends_Cat_assoc r1 r2 r3 text p :
  ends (Cat (Cat r1 r2) r3) text p = ends (Cat r1 (Cat r2 r3)) text p.
Proof. simpl. apply flat_map_flat_map. Qed.

Lemma ends_Cat_ext r1 r2 r2' text p :
  (forall q, ends r2 text q = ends r2' text q) ->
  ends (Cat r1 r2) text p = ends (Cat r1 r2') text p.
Proof. intros H. simpl. apply flat_map_ext. exact H. Qed.

(** A capture group matches what its body matches. *)
Lemma ends_Group name r text p : ends (Group name r) text p = ends r text p.
Proof. reflexivity. Qed.

Lemma existsb_pointwise {A} (f g : A -> bool) l :
  (forall x, f x = g x) -> existsb f l = existsb g l.
Proof.
  intros H. induction l as [|a l IH]; simpl; [reflexivity|].
  now rewrite H, IH.
Qed.

Lemma MatchString_ext r r' text :
  (forall p, ends r text p = ends r' text p) ->
  MatchString r text = MatchString r' text.
Proof.
  intros H. unfold MatchString, matches_at.
  apply existsb_pointwise. intros p. now rewrite H.
Qed.

(** *** Matching in a suffix of the text *)

(** Expressions without [^]. *)
Fixpoint unanchored (r : regex) : bool :=
  match r with
  | BeginText => false
  | Cat r1 r2 | Alt r1 r2 => unanchored r1 && unanchored r2
  | Repeat _ _ r | Group _ r => unanchored r
  | _ => true
  end.

Lemma one_shift f pre text p :
  one f (pre ++ text) (length pre + p) = map (Nat.add (length pre)) (one f text p).
Proof.
  unfold one. rewrite nth_error_app2 by lia.
  replace (length pre + p - length pre)%nat with p by lia.
  destruct (nth_error text p) as [c|]; [|reflexivity].
  destruct (f c); simpl; [|reflexivity].
  f_equal. lia.
Qed.

Lemma rep_shift (step step' : nat -> list nat) k :
  (forall q, step' (k + q)%nat = map (Nat.add k) (step q)) ->
  forall fuel min p,
    rep step' min fuel (k + p) = map (Nat.add k) (rep step min fuel p).
Proof.
  intros Hstep. induction fuel as [|fuel IH]; intros min p; simpl.
  - destruct min; reflexivity.
  - rewrite Hstep, map_app, flat_map_concat_map, map_map.
    rewrite (flat_map_concat_map _ (step p)), concat_map, map_map.
    f_equal; [|destruct min; reflexivity].
    f_equal. apply map_ext. intros q. apply IH.
Qed.

Lemma ends_shift r pre text :
  unanchored r = true ->
  forall p, ends r (pre ++ text) (length pre + p)
            = map (Nat.add (length pre)) (ends r text p).
Proof.
  induction r as [ | c | neg rs | | r1 IH1 r2 IH2 | r1 IH1 r2 IH2
                 | min max r IH | name r IH | | ]; simpl; intros Hr p;
    try discriminate; try apply one_shift.
  - reflexivity.
  - apply andb_prop in Hr as [H1 H2].
    rewrite IH1 by assumption.
    rewrite flat_map_concat_map, map_map, (flat_map_concat_map _ (ends r1 text p)).
    rewrite concat_map, map_map. f_equal. apply map_ext.
    intros q. now apply IH2.
  - apply andb_prop in Hr as [H1 H2].
    now rewrite IH1, IH2, map_app.
  - replace (length (pre ++ text) - (length pre + p))%nat
      with (length text - p)%nat by (rewrite length_app; lia).
    apply rep_shift. intros q. now apply IH.
  - now apply IH.
  - rewrite length_app.
    destruct (Nat.eqb_spec p (length text)) as [->|Hne].
    + now rewrite Nat.eqb_refl.
    + destruct (Nat.eqb_spec (length pre + p) (length pre + length text));
        [lia | reflexivity].
Qed.

(** An unanchored expression that matches at the start of [text] matches
    in every text that ends with [text]. *)
Lemma MatchString_suffix r pre text :
  unanchored r = true ->
  matches_at r text 0 = true ->
  MatchString r (pre ++ text) = true.
Proof.
  intros Hr Hm. unfold MatchString. apply existsb_exists.
  exists (length pre). split.
  - apply in_seq. rewrite length_app. lia.
  - unfold matches_at in *.
    replace (length pre) with (length pre + 0)%nat by lia.
    rewrite ends_shift by assumption.
    destruct (ends r text 0); [discriminate | reflexivity].
Qed.

(** *** Expressions over ASCII *)

(** Expressions that consume ASCII bytes only. *)
Fixpoint ascii_only (r : regex) : bool :=
  match r with
  | Lit c => byteZ c <? 128
  | Class false ranges => forallb (fun item => byteZ (snd item) <? 128) ranges
  | Class true _ | AnyCharNotNL => false
  | Cat r1 r2 | Alt r1 r2 => ascii_only r1 && ascii_only r2
  | Repeat _ _ r | Group _ r => ascii_only r
  | Empty | BeginText | EndText => true
  end.

(** The bytes of [text] from [p] up to [q] are ASCII. *)
Definition ascii_between (text : gostring) (p q : nat) : Prop :=
  (p <= q)%nat
  /\ forall i c, (p <= i < q)%nat -> nth_error text i = Some c -> byteZ c < 128.

Lemma ascii_between_refl text p : ascii_between text p p.
Proof. split; [lia|]. intros i c Hi. lia. Qed.

Lemma ascii_between_trans text p q r :
  ascii_between text p q -> ascii_between text q r -> ascii_between text p r.
Proof.
  intros [Hpq H1] [Hqr H2]. split; [lia|].
  intros i c Hi Hc. destruct (Nat.lt_ge_cases i q).
  - apply (H1 i c); [lia | exact Hc].
  - apply (H2 i c); [lia | exact Hc].
Qed.

Lemma one_ascii f text p q :
  (forall c, f c = true -> byteZ c < 128) ->
  In q (one f text p) -> ascii_between text p q.
Proof.
  intros Hf. unfold one.
  destruct (nth_error text p) as [c|] eqn:Hc; [|intros []].
  destruct (f c) eqn:Hfc; [|intros []].
  intros [<- | []]. split; [lia|].
  intros i c' Hi Hc'. replace i with p in Hc' by lia.
  rewrite Hc in Hc'. injection Hc' as <-. now apply Hf.
Qed.

Lemma rep_ascii step text :
  (forall p q, In q (step p) -> ascii_between text p q) ->
  forall fuel min p q, In q (rep step min fuel p) -> ascii_between text p q.
Proof.
  intros Hstep. induction fuel as [|fuel IH]; intros min p q; simpl.
  - destruct min; [|intros []]. intros [<- | []]. apply ascii_between_refl.
  - intros Hin. apply in_app_or in Hin as [Hin | Hin].
    + apply in_flat_map in Hin as (q1 & Hq1 & Hq).
      apply ascii_between_trans with q1; [now apply Hstep | now apply IH in Hq].
    + destruct min; [|destruct Hin]. destruct Hin as [<- | []].
      apply ascii_between_refl.
Qed.

Lemma ends_ascii r text :
  ascii_only r = true ->
  forall p q, In q (ends r text p) -> ascii_between text p q.
Proof.
  induction r as [ | c | neg rs | | r1 IH1 r2 IH2 | r1 IH1 r2 IH2
                 | min max r IH | name r IH | | ]; simpl; intros Hr p q.
  - intros [<- | []]. apply ascii_between_refl.
  - apply one_ascii. intros c' Hc'. apply Ascii.eqb_eq in Hc'. subst c'.
    now apply Z.ltb_lt.
  - destruct neg; [discriminate|]. apply one_ascii. intros c Hc.
    unfold class_matches in Hc. simpl in Hc.
    apply existsb_exists in Hc as (item & Hitem & Hin).
    rewrite forallb_forall in Hr. apply Hr in Hitem.
    unfold in_range in Hin. apply andb_prop in Hin as [_ Hhi].
    apply Z.leb_le in Hhi. apply Z.ltb_lt in Hitem. lia.
  - discriminate.
  - apply andb_prop in Hr as [H1 H2]. intros Hin.
    apply in_flat_map in Hin as (q1 & Hq1 & Hq).
    apply ascii_between_trans with q1; [now apply IH1 | now apply IH2].
  - apply andb_prop in Hr as [H1 H2]. intros Hin.
    apply in_app_or in Hin as [Hin | Hin]; [now apply IH1 | now apply IH2].
  - apply rep_ascii. now apply IH.
  - now apply IH.
  - destruct (p =? 0)%nat; [|intros []]. intros [<- | []].
    apply ascii_between_refl.
  - destruct (p =? length text)%nat; [|intros []]. intros [<- | []].
    apply ascii_between_refl.
Qed.

(** A match of [^r$] covers the whole text. *)
Lemma ends_anchored r text p q :
  In q (ends (Cat BeginText (Cat r EndText)) text p) ->
  p = 0%nat /\ In (length text) (ends r text 0).
Proof.
  cbn [ends]. intros Hin.
  apply in_flat_map in Hin as (p' & Hp' & Hin).
  destruct (Nat.eqb_spec p 0) as [->|_]; [|destruct Hp'].
  destruct Hp' as [<- | []]. split; [reflexivity|].
  apply in_flat_map in Hin as (q1 & Hq1 & Hq).
  destruct (Nat.eqb_spec q1 (length text)) as [->|_]; [|destruct Hq].
  exact Hq1.
Qed.

(** Whatever [^r$] matches is ASCII when [r] is. *)
Lemma MatchString_anchored_ascii r text :
  ascii_only r = true ->
  MatchString (Cat BeginText (Cat r EndText)) text = true ->
  Forall (fun c => byteZ c < 128) text.
Proof.
  intros Hr Hm. unfold MatchString in Hm.
  apply existsb_exists in Hm as (p & _ & Hp).
  unfold matches_at in Hp.
  destruct (ends (Cat BeginText (Cat r EndText)) text p) as [|q l] eqn:He;
    [discriminate|].
  assert (Hin : In q (ends (Cat BeginText (Cat r EndText)) text p))
    by (rewrite He; now left).
  apply ends_anchored in Hin as [_ Hin].
  apply (ends_ascii r text Hr) in Hin as [_ Hall].
  apply List.Forall_forall. intros c Hc.
  apply In_nth_error in Hc as [i Hi].
  apply (Hall i c); [|exact Hi].
  split; [lia|]. apply nth_error_Some. now rewrite Hi.
Qed.

(** *** Greedy repetition over a run of bytes *)

(** The positions from [hi] down to [lo]. *)
Definition countdown (hi lo : nat) : list nat := rev (seq lo (S hi - lo)).

Lemma countdown_head hi lo :
  (lo <= hi)%nat -> exists l, countdown hi lo = hi :: l.
Proof.
  intros H. unfold countdown.
  replace (S hi - lo)%nat with (S (hi - lo)) by lia.
  rewrite seq_S, rev_app_distr. simpl.
  replace (lo + (hi - lo))%nat with hi by lia. eauto.
Qed.

Lemma countdown_empty hi lo : (hi < lo)%nat -> countdown hi lo = [].
Proof.
  intros H. unfold countdown.
  now replace (S hi - lo)%nat with 0%nat by lia.
Qed.

Lemma countdown_snoc hi lo :
  (lo <= hi)%nat -> countdown hi (S lo) ++ [lo] = countdown hi lo.
Proof.
  intros H. unfold countdown.
  replace (S hi - lo)%nat with (S (S hi - S lo)) by lia.
  reflexivity.
Qed.

Lemma In_countdown hi lo q :
  In q (countdown hi lo) <-> (lo <= q <= hi)%nat.
Proof.
  unfold countdown. rewrite <- in_rev, in_seq. lia.
Qed.

(** The bytes of [text] from [p] up to [e] pass [f], and the run ends at
    [e]. *)
Definition run_until (f : ascii -> bool) (text : gostring) (p e : nat) : Prop :=
  (p <= e)%nat
  /\ (forall i, (p <= i < e)%nat ->
                exists c, nth_error text i = Some c /\ f c = true)
  /\ match nth_error text e with
     | Some c => f c = false
     | None => True
     end.

Lemma run_until_later f text p p' e :
  run_until f text p e -> (p <= p' <= e)%nat -> run_until f text p' e.
Proof.
  intros (Hpe & Hrun & Hend) Hp'. repeat split; [lia | | exact Hend].
  intros i Hi. apply Hrun. lia.
Qed.

(** Over a run, the greedy repetition of a one-byte test stops at every
    position from the end of the run down to the least number of
    iterations. *)
Lemma rep_one_run f text e :
  forall fuel min p,
    run_until f text p e -> (e - p <= fuel)%nat ->
    rep (one f text) min fuel p = countdown e (p + min).
Proof.
  induction fuel as [|fuel IH]; intros min p (Hpe & Hrun & Hend) Hfuel.
  - assert (e = p) by lia. subst e. simpl.
    destruct min.
    + rewrite Nat.add_0_r. unfold countdown.
      now replace (S p - p)%nat with 1%nat by lia.
    + symmetry. apply countdown_empty. lia.
  - cbn [rep]. destruct (Nat.eq_dec p e) as [->|Hne].
    + assert (Hone : one f text e = []).
      { unfold one. destruct (nth_error text e); [|reflexivity].
        now rewrite Hend. }
      rewrite Hone. simpl. destruct min.
      * rewrite Nat.add_0_r. unfold countdown.
        now replace (S e - e)%nat with 1%nat by lia.
      * symmetry. apply countdown_empty. lia.
    + destruct (Hrun p) as (c & Hc & Hfc); [lia|].
      assert (Hone : one f text p = [S p])
        by (unfold one; now rewrite Hc, Hfc).
      rewrite Hone. cbn [flat_map]. rewrite app_nil_r.
      rewrite (IH (Nat.pred min) (S p)).
      * destruct min; simpl.
        -- rewrite !Nat.add_0_r. apply countdown_snoc. lia.
        -- rewrite app_nil_r. f_equal. lia.
      * apply run_until_later with p; [now repeat split | lia].
      * lia.
Qed.

(** [r+] for a one-byte test [r], over a run. *)
Lemma ends_Plus_run f r text p e :
  (forall q, ends r text q = one f text q) ->
  run_until f text p e ->
  ends (Plus r) text p = countdown e (S p).
Proof.
  intros Hr Hrun. cbn [ends Plus].
  assert (Hfuel : (e - p <= 1 + (length text - p))%nat).
  { destruct Hrun as (Hpe & Hall & _).
    destruct (Nat.eq_dec p e) as [Heq|Hne]; [lia|].
    destruct (Hall (e - 1)%nat) as (c & Hc & _); [lia|].
    assert (e - 1 < length text)%nat
      by (apply nth_error_Some; now rewrite Hc).
    lia. }
  assert (Hext : forall fuel min q,
             rep (ends r text) min fuel q = rep (one f text) min fuel q).
  { induction fuel as [|fuel IH]; intros min q; simpl; [reflexivity|].
    rewrite Hr. f_equal. apply flat_map_ext. intros q'. apply IH. }
  rewrite Hext, (rep_one_run f text e) by assumption.
  f_equal. lia.
Qed.

Lemma flat_map_head {A} (f : A -> list nat) (l : list A) v :
  (forall x, In x l -> f x = [] \/ exists t, f x = v :: t) ->
  (exists x, In x l /\ f x <> []) ->
  exists t, flat_map f l = v :: t.
Proof.
  induction l as [|a l IH]; intros Hall (x & Hx & Hne); [destruct Hx|].
  simpl. destruct (Hall a (or_introl eq_refl)) as [Hnil | (t & Ht)].
  - rewrite Hnil. simpl. apply IH.
    + intros y Hy. apply Hall. now right.
    + destruct Hx as [-> | Hx]; [contradiction|]. now exists x.
  - rewrite Ht. simpl. eauto.
Qed.

End RegexpFacts.

(** ** URL validation *)

Module UrlFacts.

Import Regexp RegexpFacts Common Spider.

(** The expression of the earlier copy and the current one have the same
    matches at every position of every text: the groups only name
    parts of the same concatenation. *)
(** Three groups in a row match like one group around the whole. *)
Lemma ends_groups_flatten n1 n2 n3 n scheme host dot tld res last text p :
  ends (Cat (Group n1 scheme)
            (Cat (Group n2 (Cat host (Cat dot tld)))
                 (Cat (Group n3 res) last))) text p
  = ends (Cat (Group n (Cat scheme (Cat host (Cat dot (Cat tld res)))))
              last) text p.
Proof.
  simpl. rewrite !flat_map_flat_map.
  apply flat_map_ext. intros q1.
  rewrite !flat_map_flat_map. apply flat_map_ext. intros q2.
  rewrite !flat_map_flat_map. apply flat_map_ext. intros q3.
  rewrite !flat_map_flat_map. reflexivity.
Qed.

Lemma ends_legacyUrlRe text p :
  ends legacyUrlRe text p = ends urlRe text p.
Proof.
  unfold legacyUrlRe, urlRe.
  cbv beta iota delta [Seq].
  apply ends_Cat_ext. intros q.
  apply ends_groups_flatten.
Qed.

Lemma MatchString_legacyUrlRe url :
  MatchString legacyUrlRe url = MatchString urlRe url.
Proof. apply MatchString_ext, ends_legacyUrlRe. Qed.

(** The words the alternation of [extRe] stands for. *)
Definition disallowedExtensions : list gostring :=
  map gostr
    ["css"; "js"; "bmp"; "gif"; "jpg"; "jpeg"; "ico"; "png"; "tif"; "tiff";
     "mid"; "mp2"; "mp3"; "mp4"; "ppsx"; "wav"; "avi"; "mov"; "mpeg";
     "ram"; "m4v"; "mkv"; "ogg"; "ogv"; "pdf"; "odc"; "sas"; "ps"; "eps";
     "tex"; "ppt"; "pptx"; "doc"; "docx"; "xls"; "xlsx"; "names"; "data";
     "dat"; "exe"; "bz2"; "tar"; "msi"; "bin"; "7z"; "psd"; "dmg"; "iso";
     "epub"; "dll"; "cnf"; "tgz"; "sha1"; "ss"; "scm"; "py"; "rkt"; "r";
     "c"; "thmx"; "mso"; "arff"; "rtf"; "jar"; "csv"; "java"; "txt"; "rm";
     "smil"; "wmv"; "swf"; "wma"; "zip"; "rar"; "gz"]%string.

(** What [urlRe] accepts is ASCII: [strings.ToLower] in [urlValid] only
    sees ASCII text. *)
Lemma urlRe_match_ascii url :
  MatchString urlRe url = true -> Forall (fun c => byteZ c < 128) url.
Proof.
  apply (MatchString_anchored_ascii
           (Group None
              (Seq [Str (gostr "https://");
                    Repeat 1 (Some 256%nat) hostChars;
                    Lit ".";
                    Repeat 1 (Some 6%nat) tldChars;
                    Star resourceChars]))).
  vm_compute. reflexivity.
Qed.

Lemma extRe_unanchored : unanchored extRe = true.
Proof. reflexivity. Qed.

Lemma extRe_matches_extensions :
  forallb (fun ext => matches_at extRe ("."%char :: ext) 0)
          disallowedExtensions = true.
Proof. vm_compute. reflexivity. Qed.

(** [extRe] matches every text that ends with a dot and one of the
    words. *)
Lemma extRe_suffix pre ext :
  In ext disallowedExtensions ->
  MatchString extRe (pre ++ "."%char :: ext) = true.
Proof.
  intros Hin. apply MatchString_suffix; [apply extRe_unanchored|].
  pose proof extRe_matches_extensions as H.
  rewrite forallb_forall in H. now apply H.
Qed.

(** A URL ends with the extension [ext] when, read in lower case, it is
    some text followed by a dot and [ext]. *)
Definition endsWithExtension (url ext : gostring) : Prop :=
  exists pre, GoStrings.ToLower url = pre ++ "."%char :: ext.

Lemma extensions_lower_case :
  forallb (fun ext => bool_decide (GoStrings.ToLower ext = ext))
          disallowedExtensions = true.
Proof. vm_compute. reflexivity. Qed.

(** A URL that is written with the extension at its end ends with it. *)
Lemma suffix_endsWithExtension pre ext :
  In ext disallowedExtensions ->
  endsWithExtension (pre ++ "."%char :: ext) ext.
Proof.
  intros Hin. exists (GoStrings.ToLower pre).
  pose proof extensions_lower_case as H.
  rewrite forallb_forall in H. apply H in Hin.
  apply bool_decide_eq_true in Hin.
  unfold GoStrings.ToLower in *. rewrite map_app. cbn [map].
  now rewrite Hin.
Qed.

Section WithOracle.

Context {OracleState : Type}.
Variable isWordPressWebsite : gostring -> OracleState -> bool * OracleState.
Variable getHostname : gostring -> gostring.

Lemma urlValid_extension url ext o :
  In ext disallowedExtensions ->
  endsWithExtension url ext ->
  urlValid isWordPressWebsite getHostname url o = (false, o).
Proof.
  intros Hin [pre Hpre]. unfold urlValid.
  rewrite Hpre, extRe_suffix by assumption.
  now rewrite andb_false_r.
Qed.

(** Every member of the set built by the loop was in it before or has
    passed [urlValid]. *)
Lemma constructProperURLs_loop_valid hostName urls :
  forall properURLs o set o' url,
    constructProperURLs_loop isWordPressWebsite getHostname
      hostName urls properURLs o = Some (set, o') ->
    is_Some (m set !! url) ->
    is_Some (m properURLs !! url)
    \/ exists o1, fst (urlValid isWordPressWebsite getHostname url o1) = true.
Proof.
  induction urls as [|urlStr urls IH];
    intros properURLs o set o' url Hrun Hin.
  - injection Hrun as <- <-. now left.
  - cbn [constructProperURLs_loop] in Hrun.
    destruct urlStr as [|c rest]; [discriminate|].
    remember (if Ascii.eqb c "/" then hostName ++ c :: rest
              else GoStrings.TrimSuffix (c :: rest) (gostr "/"))
      as parsedURL eqn:Hparsed.
    destruct (urlValid isWordPressWebsite getHostname parsedURL o)
      as [valid o1] eqn:Hvalid.
    destruct (IH _ _ _ _ _ Hrun Hin) as [Hold | Hnew]; [|now right].
    destruct valid; [|now left].
    cbn [Add m] in Hold.
    destruct (decide (parsedURL = url)) as [<-|Hne].
    + right. exists o. now rewrite Hvalid.
    + left. now rewrite lookup_insert_ne in Hold.
Qed.

Lemma constructProperURLs_valid urls root o set o' url :
  constructProperURLs isWordPressWebsite getHostname urls root o
    = Some (set, o') ->
  is_Some (m set !! url) ->
  exists o1, fst (urlValid isWordPressWebsite getHostname url o1) = true.
Proof.
  unfold constructProperURLs. intros Hrun Hin.
  destruct (findHostName root) as [|c hostName].
  - injection Hrun as <- <-. simpl in Hin.
    rewrite lookup_empty in Hin. now destruct Hin.
  - destruct (constructProperURLs_loop_valid _ _ _ _ _ _ _ Hrun Hin)
      as [Hold | Hnew]; [|exact Hnew].
    simpl in Hold. rewrite lookup_empty in Hold. now destruct Hold.
Qed.

(** C6: a URL that ends in a disallowed extension (in any casing) fails
    [urlValid], whatever the oracle answers, and is in no set that
    [constructProperURLs] returns, for every list of links and every
    root URL. *)
Theorem disallowed_extension_never_discovered url ext :
  In ext disallowedExtensions ->
  endsWithExtension url ext ->
  (forall o, urlValid isWordPressWebsite getHostname url o = (false, o))
  /\ (forall urls root o set o',
        constructProperURLs isWordPressWebsite getHostname urls root o
          = Some (set, o') ->
        m set !! url = None /\ Contains set url = false).
Proof.
  intros Hin Hext. split.
  - intros o. now apply urlValid_extension with ext.
  - intros urls root o set o' Hrun.
    assert (Hnone : m set !! url = None).
    { destruct (m set !! url) as [b|] eqn:Hlook; [|reflexivity].
      destruct (constructProperURLs_valid _ _ _ _ _ url Hrun) as [o1 Ho1].
      - now rewrite Hlook.
      - rewrite (urlValid_extension _ _ o1 Hin Hext) in Ho1. discriminate. }
    split; [exact Hnone|]. unfold Contains. now rewrite Hnone.
Qed.

End WithOracle.

End UrlFacts.

(** ** The shard router *)

Module ShardFacts.

Import Regexp Common Spider.

Lemma step_range h c : 0 <= Fnv.step h c < 2 ^ 64.
Proof. unfold Fnv.step. apply Z.mod_pos_bound. lia. Qed.

Lemma Sum64a_range data : 0 <= Fnv.Sum64a data < 2 ^ 64.
Proof.
  unfold Fnv.Sum64a.
  assert (H : 0 <= Fnv.offset64 < 2 ^ 64) by (unfold Fnv.offset64; lia).
  revert H. generalize Fnv.offset64 as h.
  induction data as [|c data IH]; intros h Hh; simpl; [exact Hh|].
  apply IH, step_range.
Qed.

Lemma of_uint64_range u :
  0 <= u < 2 ^ 64 -> GoInt.MinInt <= GoInt.of_uint64 u <= GoInt.MaxInt.
Proof.
  unfold GoInt.of_uint64, GoInt.MinInt, GoInt.MaxInt. intros H.
  destruct (Z.ltb_spec u (2 ^ 63)); lia.
Qed.

(** [-val] does not overflow unless [val] is the least [int]. *)
Lemma abs_nonneg val :
  GoInt.MinInt < val <= GoInt.MaxInt -> 0 <= abs val <= GoInt.MaxInt.
Proof.
  unfold abs, GoInt.neg, GoInt.wrap, GoInt.MinInt, GoInt.MaxInt. intros H.
  destruct (Z.ltb_spec val 0); [|lia].
  rewrite Z.mod_small by lia. lia.
Qed.

(** The least [int] is its own negation. *)
Lemma abs_MinInt : abs GoInt.MinInt = GoInt.MinInt.
Proof. reflexivity. Qed.

(** Away from the one hash value that [abs] cannot negate, the shard
    index is within bounds. *)
Lemma calcWebsiteToRoutineNum_in_range numRoutines url :
  1 <= numRoutines ->
  hash (findHostName url) <> 2 ^ 63 ->
  exists r, calcWebsiteToRoutineNum numRoutines url = Some r
            /\ 0 <= r < numRoutines.
Proof.
  intros Hn Hh. unfold calcWebsiteToRoutineNum, GoInt.rem.
  destruct (Z.eqb_spec numRoutines 0) as [->|_]; [lia|].
  eexists. split; [reflexivity|].
  pose proof (Sum64a_range (findHostName url)) as Hr.
  fold (hash (findHostName url)) in Hr.
  pose proof (of_uint64_range _ Hr) as Hi.
  assert (Hne : GoInt.of_uint64 (hash (findHostName url)) <> GoInt.MinInt).
  { unfold GoInt.of_uint64, GoInt.MinInt.
    destruct (Z.ltb_spec (hash (findHostName url)) (2 ^ 63)); lia. }
  assert (Ha : 0 <= abs (GoInt.of_uint64 (hash (findHostName url)))
               <= GoInt.MaxInt) by (apply abs_nonneg; lia).
  destruct Ha as [Ha _].
  pose proof (Z.rem_bound_pos _ numRoutines Ha) as Hb. lia.
Qed.

(** *** The host name of a URL *)

(** The bytes [domainRe] accepts in a host name: all but white space,
    [:], [/] and [@]. *)
Definition domainChar (c : ascii) : bool :=
  class_matches true (perl_space ++ [ch ":"; ch "/"; ch "@"]%char) c.

(** A host: bytes of [domainChar] with a dot that is neither the first nor
    the last of them. *)
Definition hostShaped (host : gostring) : Prop :=
  forallb domainChar host = true
  /\ exists a b, host = a ++ "."%char :: b /\ a <> [] /\ b <> [].

(** What follows the host in a URL: nothing, or a byte that ends the host
    name, like the [/] of the path or the [:] of a port. *)
Definition endsHost (rest : gostring) : Prop :=
  match rest with
  | [] => True
  | c :: _ => domainChar c = false
  end.

Definition scheme : gostring := gostr "https://".

Lemma host_run host rest :
  forallb domainChar host = true -> endsHost rest ->
  RegexpFacts.run_until domainChar (scheme ++ host ++ rest) 8
                        (8 + length host).
Proof.
  intros Hhost Hrest. split; [lia|]. split.
  - intros i Hi.
    change (scheme ++ host ++ rest)
      with (firstn 8 scheme ++ (host ++ rest)).
    rewrite nth_error_app2 by (simpl; lia).
    rewrite nth_error_app1 by (simpl; lia).
    destruct (nth_error host (i - length (firstn 8 scheme))) as [c|] eqn:Hc.
    + exists c. split; [reflexivity|].
      rewrite forallb_forall in Hhost. apply Hhost.
      now apply nth_error_In in Hc.
    + apply nth_error_None in Hc. simpl in Hc. lia.
  - change (scheme ++ host ++ rest)
      with (firstn 8 scheme ++ (host ++ rest)).
    rewrite nth_error_app2 by (simpl; lia).
    rewrite nth_error_app2 by (simpl; lia).
    replace (8 + length host - length (firstn 8 scheme) - length host)%nat
      with 0%nat by (simpl; lia).
    destruct rest as [|c rest]; [exact I | exact Hrest].
Qed.

(** A dot inside the run of the host, followed by the rest of the run. *)
Lemma dot_then_run text e q :
  RegexpFacts.run_until domainChar text 8 e ->
  (8 <= q <= e)%nat ->
  let ends_here :=
    flat_map (ends (Plus domainChars) text) (ends (Lit ".") text q) in
  ends_here = []
  \/ (nth_error text q = Some "."%char /\ (q < e)%nat
      /\ ends_here = RegexpFacts.countdown e (S (S q))).
Proof.
  intros Hrun Hq. cbv zeta. cbn [ends]. unfold one.
  destruct (nth_error text q) as [c|] eqn:Hc; [|now left].
  destruct (Ascii.eqb_spec "."%char c) as [<-|Hne]; [|now left].
  cbn [flat_map]. rewrite app_nil_r.
  destruct (Nat.lt_ge_cases q e) as [Hlt|Hge].
  - right. split; [reflexivity|]. split; [exact Hlt|].
    apply (RegexpFacts.ends_Plus_run domainChar); [reflexivity|].
    apply RegexpFacts.run_until_later with 8%nat; [exact Hrun | lia].
  - left. exfalso. destruct Hrun as (Hle & Hall & Hend).
    assert (q = e) by lia. subst q.
    rewrite Hc in Hend. discriminate.
Qed.

(** The leftmost-first match of [domainRe] at the start of such a URL
    ends where the host ends. *)
Lemma ends_domainRe_host host rest :
  hostShaped host -> endsHost rest ->
  exists l, ends domainRe (scheme ++ host ++ rest) 0
            = (8 + length host)%nat :: l.
Proof.
  intros (Hhost & a & b & Hab & Ha & Hb) Hrest.
  pose proof (host_run host rest Hhost Hrest) as Hrun.
  assert (Hdot : nth_error (scheme ++ host ++ rest) (8 + length a)
                 = Some "."%char).
  { change (scheme ++ host ++ rest)
      with (firstn 8 scheme ++ (host ++ rest)).
    rewrite nth_error_app2 by (simpl; lia).
    rewrite Hab, <- app_assoc.
    rewrite nth_error_app2 by (simpl; lia).
    replace (8 + length a - length (firstn 8 scheme) - length a)%nat
      with 0%nat by (simpl; lia).
    reflexivity. }
  assert (Hlen : length host = (length a + S (length b))%nat)
    by (rewrite Hab, length_app; reflexivity).
  assert (Hla : (1 <= length a)%nat)
    by (destruct a; [contradiction | simpl; lia]).
  assert (Hlb : (1 <= length b)%nat)
    by (destruct b; [contradiction | simpl; lia]).
  set (text := scheme ++ host ++ rest) in *.
  set (e := (8 + length host)%nat) in *.
  assert (Hscheme : ends (Str scheme) text 0 = [8%nat]) by reflexivity.
  change (ends domainRe text 0)
    with (flat_map
            (fun q1 =>
               flat_map
                 (fun q2 => flat_map (ends (Plus domainChars) text)
                                     (ends (Lit ".") text q2))
                 (ends (Plus domainChars) text q1))
            (ends (Str scheme) text 0)).
  rewrite Hscheme. cbn [flat_map]. rewrite app_nil_r.
  rewrite (RegexpFacts.ends_Plus_run domainChar domainChars text 8 e)
    by (try assumption; reflexivity).
  apply RegexpFacts.flat_map_head.
  - intros q Hq. apply RegexpFacts.In_countdown in Hq.
    destruct (dot_then_run text e q Hrun) as [Hnil | (_ & Hlt & Hcd)];
      [lia | now left |].
    rewrite Hcd.
    destruct (Nat.le_gt_cases (S (S q)) e) as [Hle|Hgt].
    + right. now apply RegexpFacts.countdown_head.
    + left. now apply RegexpFacts.countdown_empty.
  - exists (8 + length a)%nat. split.
    + apply RegexpFacts.In_countdown. unfold e. lia.
    + destruct (dot_then_run text e (8 + length a) Hrun)
        as [Hnil | (_ & Hlt & Hcd)]; [unfold e; lia | |].
      * exfalso. revert Hnil. cbn [ends]. unfold one. rewrite Hdot.
        cbn [Ascii.eqb Bool.eqb flat_map]. rewrite app_nil_r.
        rewrite (RegexpFacts.ends_Plus_run domainChar domainChars text
                   (S (8 + length a)) e);
          [|reflexivity
           |apply RegexpFacts.run_until_later with 8%nat;
            [exact Hrun | unfold e; lia]].
        destruct (RegexpFacts.countdown_head e (S (S (8 + length a))))
          as [l Hl]; [unfold e; lia|].
        rewrite Hl. discriminate.
      * rewrite Hcd.
        destruct (RegexpFacts.countdown_head e (S (S (8 + length a))))
          as [l Hl]; [unfold e; lia|].
        rewrite Hl. discriminate.
Qed.

(** [findHostName] returns the scheme and the host of such a URL. *)
Lemma findHostName_host host rest :
  hostShaped host -> endsHost rest ->
  findHostName (scheme ++ host ++ rest) = scheme ++ host.
Proof.
  intros Hhost Hrest.
  destruct (ends_domainRe_host host rest Hhost Hrest) as [l Hends].
  unfold findHostName, FindAllStringSubmatch, FindAllString.
  cbn [find_all].
  assert (Hfind : forall fuel,
             find_from domainRe (scheme ++ host ++ rest) fuel 0
             = Some (0%nat, (8 + length host)%nat)).
  { intros fuel. destruct fuel; cbn [find_from]; now rewrite Hends. }
  rewrite Hfind. cbn [map]. unfold slice.
  rewrite Nat.sub_0_r, skipn_O.
  change (firstn (8 + length host) (scheme ++ host ++ rest))
    with (scheme ++ firstn (length host) (host ++ rest)).
  assert (Hhost' : firstn (length host) (host ++ rest) = host)
    by now rewrite firstn_app, Nat.sub_diag, firstn_O, app_nil_r, firstn_all.
  now rewrite Hhost'.
Qed.

(** [findHostName] reads the text of the URL, not its parsed form: with
    user information before the host there is no match at all, and a
    fragment that follows the host without a slash belongs to the match. *)
Example findHostName_reads_text :
  findHostName (gostr "https://a.example/x") = gostr "https://a.example"
  /\ findHostName (gostr "https://a.example:8080/x") = gostr "https://a.example"
  /\ findHostName (gostr "https://user@a.example/x") = []
  /\ findHostName (gostr "https://a.example#b.de")
     = gostr "https://a.example#b.de".
Proof. vm_compute. repeat split; reflexivity. Qed.

(** URLs with the same host go to the same shard, whatever follows the
    host. *)
Lemma same_host_same_shard numRoutines host rest1 rest2 :
  hostShaped host -> endsHost rest1 -> endsHost rest2 ->
  calcWebsiteToRoutineNum numRoutines (scheme ++ host ++ rest1)
  = calcWebsiteToRoutineNum numRoutines (scheme ++ host ++ rest2).
Proof.
  intros Hhost H1 H2. unfold calcWebsiteToRoutineNum.
  now rewrite !findHostName_host by assumption.
Qed.

(** The host name of a URL as the claim has it, for an [https] URL
    without user information and port: the text between the scheme and
    the next ['/'], ['?'] or ['#'], where the authority of a URL ends. *)
Definition endsAuthority (c : ascii) : bool :=
  Ascii.eqb c "/" || Ascii.eqb c "?" || Ascii.eqb c "#".

Fixpoint authority (rest : gostring) : gostring :=
  match rest with
  | [] => []
  | c :: rest' => if endsAuthority c then [] else c :: authority rest'
  end.

Definition hostnameOf (url : gostring) : option gostring :=
  if GoStrings.HasPrefix url scheme
  then Some (authority (skipn (length scheme) url))
  else None.

(** C3 fails on two URLs of the host [site.test], with two shards.
    Both URLs pass the two tests of [urlValid], so link discovery hands
    them to the router once the oracle accepts the host.  The class
    [[^\s:/@]] of [domainRe] ends the match at [':'], ['/'] and ['@']
    but not at ['?'], so [findHostName] reads the query of the first URL
    as part of the host name; the two texts have different FNV-1a sums,
    and the router sends the first URL to shard 0 and the second to
    shard 1. *)
Theorem same_hostname_different_shard :
  let u1 := gostr "https://site.test?x=1" in
  let u2 := gostr "https://site.test/y" in
  hostnameOf u1 = Some (gostr "site.test")
  /\ hostnameOf u2 = Some (gostr "site.test")
  /\ MatchString urlRe u1 = true
  /\ MatchString extRe (GoStrings.ToLower u1) = false
  /\ MatchString urlRe u2 = true
  /\ MatchString extRe (GoStrings.ToLower u2) = false
  /\ findHostName u1 = gostr "https://site.test?x=1"
  /\ findHostName u2 = gostr "https://site.test"
  /\ calcWebsiteToRoutineNum 2 u1 = Some 0
  /\ calcWebsiteToRoutineNum 2 u2 = Some 1.
Proof. vm_compute. repeat split; reflexivity. Qed.

(** A URL that [urlRe] accepts and [extRe] does not reject, whose host
    name has the FNV-1a sum 2^63. *)
Definition minIntUrl : gostring :=
  gostr "https://j8nk8ivq27lhaadxyr05l8gl.com/blog".

(** C8 fails on [minIntUrl]: the sum of its host name is 2^63, which
    [int] reads as the least integer; [abs] returns it unchanged and the
    remainder by 3 is -2, outside 0..2.  The URL passes both tests of
    [urlValid], so link discovery hands it to the router once the oracle
    accepts its host. *)
Theorem calcWebsiteToRoutineNum_out_of_range :
  MatchString urlRe minIntUrl = true
  /\ MatchString extRe (GoStrings.ToLower minIntUrl) = false
  /\ findHostName minIntUrl = gostr "https://j8nk8ivq27lhaadxyr05l8gl.com"
  /\ hash (findHostName minIntUrl) = 2 ^ 63
  /\ abs (GoInt.of_uint64 (hash (findHostName minIntUrl))) = - 2 ^ 63
  /\ calcWebsiteToRoutineNum 3 minIntUrl = Some (-2).
Proof. vm_compute. repeat split; reflexivity. Qed.

End ShardFacts.

(** ** Link discovery *)

Module LinkFacts.

Import Regexp Common Spider.

Section WithOracle.

Context {OracleState : Type}.
Variable isWordPressWebsite : gostring -> OracleState -> bool * OracleState.
Variable getHostname : gostring -> gostring.

Lemma loop_panics hostName urls :
  In [] urls ->
  forall properURLs o,
    constructProperURLs_loop isWordPressWebsite getHostname
      hostName urls properURLs o = None.
Proof.
  induction urls as [|urlStr urls IH]; intros Hin properURLs o;
    [destruct Hin|].
  cbn [constructProperURLs_loop].
  destruct urlStr as [|c rest]; [reflexivity|].
  destruct Hin as [Heq | Hin]; [discriminate|].
  destruct (urlValid _ _ _ o) as [valid o1].
  now apply IH.
Qed.

Lemma loop_returns hostName urls :
  ~ In [] urls ->
  forall properURLs o,
    exists set o',
      constructProperURLs_loop isWordPressWebsite getHostname
        hostName urls properURLs o = Some (set, o').
Proof.
  induction urls as [|urlStr urls IH]; intros Hnin properURLs o.
  - now exists properURLs, o.
  - cbn [constructProperURLs_loop].
    destruct urlStr as [|c rest]; [exfalso; apply Hnin; now left|].
    destruct (urlValid _ _ _ o) as [valid o1].
    apply IH. intros Hin. apply Hnin. now right.
Qed.

(** C9, as the code has it: when the root URL has no host name the
    function returns the empty set and reads no link; otherwise every
    link is indexed at byte 0, and the function panics exactly when
    one of the links is the empty string. *)
Theorem constructProperURLs_panic_iff urls root o :
  (findHostName root = [] ->
   constructProperURLs isWordPressWebsite getHostname urls root o
   = Some (emptyStringSet, o))
  /\ (findHostName root <> [] ->
      (constructProperURLs isWordPressWebsite getHostname urls root o = None
       <-> In [] urls)).
Proof.
  unfold constructProperURLs.
  destruct (findHostName root) as [|c hostName]; split.
  - reflexivity.
  - intros H. now destruct H.
  - discriminate.
  - intros _. split.
    + intros Hnone.
      destruct (in_dec (fun a b : gostring => decide (a = b)) [] urls)
        as [Hin|Hnin];
        [exact Hin|].
      destruct (loop_returns (c :: hostName) urls Hnin emptyStringSet o)
        as (set & o' & Hsome).
      rewrite Hsome in Hnone. discriminate.
    + intros Hin. now apply loop_panics.
Qed.

(** Under the precondition that no link is empty, no index is out of
    bounds: the function returns. *)
Lemma constructProperURLs_total urls root o :
  Forall (fun urlStr => urlStr <> []) urls ->
  exists set o',
    constructProperURLs isWordPressWebsite getHostname urls root o
    = Some (set, o').
Proof.
  intros Hall.
  assert (Hnin : ~ In [] urls).
  { intros Hin. rewrite List.Forall_forall in Hall.
    now apply (Hall [] Hin). }
  unfold constructProperURLs.
  destruct (findHostName root) as [|c hostName].
  - now exists emptyStringSet, o.
  - now apply loop_returns.
Qed.

End WithOracle.

End LinkFacts.

(** ** Collaborators for the examples

    An oracle that accepts every host and keeps no state, and stand-ins
    for the methods of [common] and [net/url]. *)

Module Sample.

Import Common Spider.

Definition isWordPressWebsite (host : gostring) (o : unit) : bool * unit :=
  (true, o).

Definition getHostname (u : gostring) : gostring := u.

(** One fingerprint per page: the sum of its body. *)
Definition fingerprintsOf (body : gostring) : gset Z := {[ Fnv.Sum64a body ]}.

Definition Serialize (w : WebPage) : gostring := Body w.

End Sample.

Module LinkExamples.

Import Common Spider.

(** C9 as stated fails: with a root URL without host name the function
    returns although a link is empty, so non-empty links are not
    necessary for it to be total. *)
Lemma constructProperURLs_empty_link_no_panic :
  ~ (forall urls root (o : unit),
       constructProperURLs Sample.isWordPressWebsite Sample.getHostname
         urls root o <> None ->
       Forall (fun urlStr => urlStr <> []) urls).
Proof.
  intros H.
  specialize (H [[]] (gostr "mailto:someone@site.test") tt).
  assert (Hret : constructProperURLs Sample.isWordPressWebsite
                   Sample.getHostname [[]]
                   (gostr "mailto:someone@site.test") tt <> None)
    by (vm_compute; discriminate).
  specialize (H Hret). inversion H as [|x l Hx Hl]. now apply Hx.
Qed.

End LinkExamples.

(** ** Page validation *)

Module PageFacts.

Import Common Spider Utf8.

Lemma HasPrefix_spec s prefix :
  GoStrings.HasPrefix s prefix = true <-> exists rest, s = prefix ++ rest.
Proof.
  revert s. induction prefix as [|p prefix IH]; intros s; simpl.
  - split; [intros _; now exists s | intros _; now destruct s].
  - destruct s as [|c s]; simpl.
    + split; [discriminate | intros [rest H]; discriminate].
    + rewrite andb_true_iff, Ascii.eqb_eq, IH. split.
      * intros [-> [rest ->]]. now exists rest.
      * intros [rest H]. injection H as -> ->. split; [reflexivity|].
        now exists rest.
Qed.

(** A byte sequence that is the encoding of one white-space rune. *)
Definition is_space_encoding (e : gostring) : bool :=
  let (r, w) := DecodeRuneInString e in
  IsSpace r && (w =? length e)%nat.

(** Leading white space: a sequence of encoded white-space runes. *)
Inductive whitespace : gostring -> Prop :=
| whitespace_nil : whitespace []
| whitespace_cons e ws :
    is_space_encoding e = true -> whitespace ws -> whitespace (e ++ ws).

(** The white-space runes of [unicode.IsSpace], in UTF-8. *)
Definition spaceEncodings : list gostring :=
  map (map (fun b => ascii_of_N (Z.to_N b)))
    [[9]; [10]; [11]; [12]; [13]; [32]; [194; 133]; [194; 160];
     [225; 154; 128];
     [226; 128; 128]; [226; 128; 129]; [226; 128; 130]; [226; 128; 131];
     [226; 128; 132]; [226; 128; 133]; [226; 128; 134]; [226; 128; 135];
     [226; 128; 136]; [226; 128; 137]; [226; 128; 138];
     [226; 128; 168]; [226; 128; 169]; [226; 128; 175]; [226; 129; 159];
     [227; 128; 128]].

Lemma spaceEncodings_are_spaces :
  forallb is_space_encoding spaceEncodings = true.
Proof. vm_compute. reflexivity. Qed.

Lemma first_size s0 sz lo hi :
  first s0 = Some (sz, lo, hi) -> sz = 2%nat \/ sz = 3%nat \/ sz = 4%nat.
Proof.
  unfold first. intros H.
  repeat match type of H with
         | (if ?b then _ else _) = _ => destruct b
         end;
    inversion H; auto.
Qed.

Ltac decode_cases :=
  repeat match goal with
         | |- context [if ?b then _ else _] => destruct b eqn:?
         | H : context [if ?b then _ else _] |- _ => destruct b eqn:?
         end.

(** The width of a rune is at least one and at most the length of the
    string. *)
Lemma decode_width c s :
  (1 <= snd (DecodeRuneInString (c :: s)) <= length (c :: s))%nat.
Proof.
  unfold DecodeRuneInString.
  destruct (byteZ c <? 128); [simpl; lia|].
  destruct (first (byteZ c)) as [[[sz lo] hi]|] eqn:Hfirst; [|simpl; lia].
  destruct (Nat.ltb_spec (length (c :: s)) sz) as [Hlt|Hge]; [simpl; lia|].
  apply first_size in Hfirst.
  destruct s as [|c1 [|c2 [|c3 s]]]; simpl in *;
    decode_cases; simpl; lia.
Qed.

(** Decoding looks at the bytes of the rune only. *)
Lemma decode_prefix s r w :
  DecodeRuneInString s = (r, w) ->
  IsSpace r = true ->
  DecodeRuneInString (firstn w s) = (r, w) /\ length (firstn w s) = w.
Proof.
  unfold DecodeRuneInString.
  destruct s as [|c0 s]; [intros [= <- <-]; discriminate|].
  destruct (byteZ c0 <? 128) eqn:Hascii.
  { intros [= <- <-] _. simpl. now rewrite Hascii. }
  destruct (first (byteZ c0)) as [[[sz lo] hi]|] eqn:Hfirst;
    [|intros [= <- <-]; discriminate].
  pose proof (first_size _ _ _ _ Hfirst) as Hsz.
  destruct s as [|c1 [|c2 [|c3 s]]];
    destruct Hsz as [-> | [-> | ->]]; simpl;
    intros H Hspace; decode_cases;
    injection H as <- <-; try discriminate;
    simpl; rewrite ?Hascii, ?Hfirst; simpl;
    repeat match goal with
           | H : ?b = _ |- context [?b] => rewrite H
           end; simpl; auto.
Qed.

Lemma decode_extend e t r :
  DecodeRuneInString e = (r, length e) ->
  IsSpace r = true ->
  DecodeRuneInString (e ++ t) = (r, length e).
Proof.
  unfold DecodeRuneInString.
  destruct e as [|c0 e]; [intros [= <-]; discriminate|].
  cbn [app].
  destruct (byteZ c0 <? 128) eqn:Hascii.
  { intros H _. destruct e; [exact H | discriminate]. }
  destruct (first (byteZ c0)) as [[[sz lo] hi]|] eqn:Hfirst;
    [|intros [= <- _]; discriminate].
  pose proof (first_size _ _ _ _ Hfirst) as Hsz.
  destruct e as [|c1 [|c2 [|c3 [|c4 e]]]];
    destruct Hsz as [-> | [-> | ->]]; simpl;
    intros H Hspace; decode_cases;
    inversion H; subst; try reflexivity;
    vm_compute in Hspace; discriminate.
Qed.

Lemma is_space_encoding_nonempty e :
  is_space_encoding e = true -> e <> [].
Proof. intros H ->. discriminate. Qed.

Lemma trim_left_enough f fuel :
  forall fuel' s,
    (length s <= fuel)%nat -> (length s <= fuel')%nat ->
    trim_left f fuel s = trim_left f fuel' s.
Proof.
  induction fuel as [|fuel IH]; intros fuel' s Hlen Hlen'.
  - destruct s; [now destruct fuel' | simpl in Hlen; lia].
  - destruct s as [|c s]; [now destruct fuel'|].
    destruct fuel' as [|fuel']; [simpl in Hlen'; lia|].
    cbn [trim_left].
    pose proof (decode_width c s) as Hw.
    destruct (DecodeRuneInString (c :: s)) as [r w].
    simpl in Hw, Hlen, Hlen'.
    destruct (f r); [|reflexivity].
    assert (Hskip : (length (skipn w (c :: s)) <= length s)%nat).
    { rewrite length_skipn. simpl. lia. }
    apply IH; lia.
Qed.

Lemma trim_left_fuel f fuel s :
  (length s <= fuel)%nat -> trim_left f fuel s = trim_left f (length s) s.
Proof. intros H. now apply trim_left_enough. Qed.

(** Stripping removes one white-space rune after the other. *)
Lemma trim_space_encoding e s :
  is_space_encoding e = true ->
  TrimLeftFunc (e ++ s) IsSpace = TrimLeftFunc s IsSpace.
Proof.
  intros He. pose proof (is_space_encoding_nonempty e He) as Hne.
  unfold is_space_encoding in He.
  destruct (DecodeRuneInString e) as [r w] eqn:Hdec.
  apply andb_prop in He as [Hspace Hw].
  apply Nat.eqb_eq in Hw. subst w.
  pose proof (decode_extend e s r Hdec Hspace) as Hext.
  unfold TrimLeftFunc.
  destruct e as [|c e]; [contradiction|].
  cbn [app length trim_left]. cbn [app] in Hext.
  rewrite Hext, Hspace.
  replace (skipn (length (c :: e)) (c :: e ++ s)) with s
    by (change (c :: e ++ s) with ((c :: e) ++ s);
        now rewrite skipn_app, skipn_all, Nat.sub_diag).
  apply trim_left_fuel. rewrite length_app. lia.
Qed.

Lemma trim_whitespace ws s :
  whitespace ws -> TrimLeftFunc (ws ++ s) IsSpace = TrimLeftFunc s IsSpace.
Proof.
  induction 1 as [|e ws He Hws IH]; [reflexivity|].
  rewrite <- app_assoc, trim_space_encoding by assumption. exact IH.
Qed.

(** What is stripped is white space, and what remains is the rest. *)
Lemma trim_left_split fuel :
  forall s, exists ws,
    whitespace ws /\ s = ws ++ trim_left IsSpace fuel s.
Proof.
  induction fuel as [|fuel IH]; intros s.
  - exists []. split; [constructor | now destruct s].
  - destruct s as [|c s]; [exists []; split; [constructor | reflexivity]|].
    cbn [trim_left].
    destruct (DecodeRuneInString (c :: s)) as [r w] eqn:Hdec.
    destruct (IsSpace r) eqn:Hspace;
      [|exists []; split; [constructor | reflexivity]].
    destruct (decode_prefix _ _ _ Hdec Hspace) as [Hpre Hlen].
    destruct (IH (skipn w (c :: s))) as (ws & Hws & Heq).
    exists (firstn w (c :: s) ++ ws). split.
    + constructor; [|exact Hws].
      unfold is_space_encoding. rewrite Hpre, Hspace, Hlen.
      now rewrite Nat.eqb_refl.
    + rewrite <- app_assoc, <- Heq. symmetry. apply firstn_skipn.
Qed.

Definition doctypeUpper : gostring := gostr "<!DOCTYPE html".
Definition doctypeLower : gostring := gostr "<!doctype html".

(** C4, as the code has it: a page is accepted exactly when its body is
    white space followed by ["<!DOCTYPE html"] or by ["<!doctype html"],
    in one of these two casings. *)
Theorem validPage_two_casings wp :
  validPage wp = true
  <-> exists ws rest,
        whitespace ws
        /\ (Body wp = ws ++ doctypeUpper ++ rest
            \/ Body wp = ws ++ doctypeLower ++ rest).
Proof.
  unfold validPage. rewrite orb_true_iff, !HasPrefix_spec.
  fold doctypeUpper doctypeLower. split.
  - intros H.
    destruct (trim_left_split (length (Body wp)) (Body wp))
      as (ws & Hws & Heq).
    fold (TrimLeftFunc (Body wp) IsSpace) in Heq.
    destruct H as [[rest Hrest] | [rest Hrest]]; exists ws, rest;
      (split; [exact Hws|]); rewrite Hrest in Heq; auto.
  - intros (ws & rest & Hws & [Hbody | Hbody]); rewrite Hbody;
      rewrite trim_whitespace by assumption; [left | right];
      exists rest; reflexivity.
Qed.

(** Case-insensitive reading of the claim: the stripped body, in lower
    case, begins with ["<!doctype html"]. *)
Definition doctypeAnyCasing (body : gostring) : bool :=
  GoStrings.HasPrefix (GoStrings.ToLower (TrimLeftFunc body IsSpace))
                      doctypeLower.

Definition mixedCasePage : WebPage :=
  {| Timestamp := 0; Url := gostr "https://site.test";
     Status := gostr "200 OK";
     Body := gostr "<!DocType HTML><html><body>text</body></html>";
     Fingerprints := ∅ |}.

(** C4 as stated fails: a doctype in another casing is rejected. *)
Lemma validPage_rejects_mixed_case :
  doctypeAnyCasing (Body mixedCasePage) = true
  /\ validPage mixedCasePage = false
  /\ ~ (forall wp, validPage wp = true <-> doctypeAnyCasing (Body wp) = true).
Proof.
  assert (Hany : doctypeAnyCasing (Body mixedCasePage) = true)
    by (vm_compute; reflexivity).
  assert (Hrej : validPage mixedCasePage = false)
    by (vm_compute; reflexivity).
  split; [exact Hany|]. split; [exact Hrej|].
  intros H. apply H in Hany. rewrite Hrej in Hany. discriminate.
Qed.

End PageFacts.

(** ** The fingerprint index and the duplicate check *)

Module IndexFacts.

Import Common Spider.

(** [page] is listed under the fingerprint [hash]. *)
Definition listed (fp : Index) (hash : Z) (page : WebPage) : Prop :=
  exists pages, fp !! hash = Some pages /\ In page pages.

Lemma insert_lookup (fp : Index) page hash :
  InsertFingerprintsUsingWebpage fp page !! hash
  = if decide (hash ∈ Fingerprints page)
    then Some (page :: default [] (fp !! hash))
    else fp !! hash.
Proof.
  assert (H : (hash ∈ Fingerprints page ->
               InsertFingerprintsUsingWebpage fp page !! hash
               = Some (page :: default [] (fp !! hash)))
              /\ (hash ∉ Fingerprints page ->
                  InsertFingerprintsUsingWebpage fp page !! hash
                  = fp !! hash)).
  { unfold InsertFingerprintsUsingWebpage.
    apply (set_fold_ind_L
             (fun (acc : Index) (X : gset Z) =>
                (hash ∈ X ->
                 acc !! hash = Some (page :: default [] (fp !! hash)))
                /\ (hash ∉ X -> acc !! hash = fp !! hash))).
    - split; [|reflexivity]. intros Hin.
      exfalso. revert Hin. apply not_elem_of_empty.
    - intros x X acc Hx [IHin IHnin].
      destruct (decide (x = hash)) as [->|Hne].
      + split; [|intros Hnin; exfalso; apply Hnin; set_solver].
        intros _. rewrite lookup_insert_eq. now rewrite (IHnin Hx).
      + rewrite lookup_insert_ne by assumption. split.
        * intros H1. apply IHin.
          apply elem_of_union in H1 as [H1|H1]; [|exact H1].
          apply elem_of_singleton in H1. congruence.
        * intros H1. apply IHnin. intros H2. apply H1.
          apply elem_of_union. now right. }
  destruct H as [Hin Hnin].
  destruct (decide (hash ∈ Fingerprints page)); auto.
Qed.

Lemma insert_listed fp page hash page' :
  listed (InsertFingerprintsUsingWebpage fp page) hash page'
  <-> listed fp hash page' \/ (page' = page /\ hash ∈ Fingerprints page).
Proof.
  unfold listed. rewrite insert_lookup.
  destruct (decide (hash ∈ Fingerprints page)) as [Hin|Hnin].
  - split.
    + intros (pages & [= <-] & [<- | Hold]); [now right|].
      left. destruct (fp !! hash) as [old|]; [|destruct Hold].
      now exists old.
    + intros [(pages & Hlook & Hold) | [-> _]].
      * rewrite Hlook. eexists. split; [reflexivity|]. now right.
      * eexists. split; [reflexivity|]. now left.
  - split; [now left|]. intros [H | [_ H]]; [exact H | contradiction].
Qed.

Lemma fold_insert_listed pages :
  forall fp hash page,
    listed (fold_left InsertFingerprintsUsingWebpage pages fp) hash page
    <-> listed fp hash page
        \/ (In page pages /\ hash ∈ Fingerprints page).
Proof.
  induction pages as [|p pages IH]; intros fp hash page; simpl.
  - split; [now left | now intros [H | [[] _]]].
  - rewrite IH, insert_listed. split.
    + intros [[H | [-> H]] | [H1 H2]]; auto.
    + intros [H | [[<- | H1] H2]]; auto.
Qed.

(** The index of [pages] lists a page under a fingerprint exactly when
    the page is one of [pages] and has the fingerprint. *)
Lemma indexOf_listed pages hash page :
  listed (indexOf pages) hash page
  <-> In page pages /\ hash ∈ Fingerprints page.
Proof.
  unfold indexOf. rewrite fold_insert_listed. split.
  - intros [(l & Hl & _) | H]; [|exact H].
    unfold NewFingerprints in Hl. now rewrite lookup_empty in Hl.
  - now right.
Qed.

Lemma exceeds_threshold_spec q :
  exceeds_threshold q = true <-> (9 # 10 < q)%Q.
Proof.
  unfold exceeds_threshold. rewrite negb_true_iff. split.
  - intros H. apply Qnot_le_lt. intros Hle.
    apply Qle_bool_iff in Hle. congruence.
  - intros H. destruct (Qle_bool q (9 # 10)) eqn:Hle; [|reflexivity].
    apply Qle_bool_iff in Hle. exfalso. now apply (Qlt_not_le _ _ H).
Qed.

(** The test of [duplicateExists], on any index. *)
Lemma duplicateExists_spec fp wp :
  duplicateExists fp wp = true
  <-> exists hash page,
        hash ∈ Fingerprints wp
        /\ listed fp hash page
        /\ Url page <> Url wp
        /\ (9 # 10 < Similarity wp page)%Q.
Proof.
  unfold duplicateExists. rewrite existsb_exists. split.
  - intros (hash & Hin & H).
    destruct (fp !! hash) as [pages|] eqn:Hlook; [|discriminate].
    apply existsb_exists in H as (page & Hpage & H).
    apply andb_prop in H as [Hurl Hsim].
    exists hash, page. repeat split.
    + apply elem_of_elements. now apply list_elem_of_In.
    + now exists pages.
    + now apply bool_decide_eq_true in Hurl.
    + now apply exceeds_threshold_spec.
  - intros (hash & page & Hin & (pages & Hlook & Hpage) & Hurl & Hsim).
    exists hash. split.
    + apply list_elem_of_In. now apply elem_of_elements.
    + rewrite Hlook. apply existsb_exists. exists page.
      split; [exact Hpage|]. apply andb_true_intro. split.
      * now apply bool_decide_eq_true.
      * now apply exceeds_threshold_spec.
Qed.

(** Two pages share a fingerprint. *)
Definition sharesFingerprint (wp page : WebPage) : Prop :=
  exists hash, hash ∈ Fingerprints wp /\ hash ∈ Fingerprints page.

(** The duplicate check against an index that lists the pages of
    [pages] under their fingerprints. *)
Lemma duplicateExists_of_listing fp pages wp :
  (forall hash page,
     listed fp hash page <-> In page pages /\ hash ∈ Fingerprints page) ->
  duplicateExists fp wp = true
  <-> exists page,
        In page pages
        /\ Url page <> Url wp
        /\ sharesFingerprint wp page
        /\ (9 # 10 < Similarity wp page)%Q.
Proof.
  intros Hlisting. rewrite duplicateExists_spec. split.
  - intros (hash & page & Hin & Hlisted & Hurl & Hsim).
    apply Hlisting in Hlisted as [Hpage Hhash].
    exists page. repeat split; try assumption. now exists hash.
  - intros (page & Hpage & Hurl & (hash & Hin & Hhash) & Hsim).
    exists hash, page. repeat split; try assumption.
    now apply Hlisting.
Qed.

(** On any index and candidate: the candidate is declared a duplicate
    exactly when some page of the index with another URL shares a
    fingerprint with it and has a Jaccard similarity above 0.9. *)
Lemma duplicateExists_iff pages wp :
  duplicateExists (indexOf pages) wp = true
  <-> exists page,
        In page pages
        /\ Url page <> Url wp
        /\ sharesFingerprint wp page
        /\ (9 # 10 < Similarity wp page)%Q.
Proof.
  apply duplicateExists_of_listing.
  intros hash page. apply indexOf_listed.
Qed.

(** A similarity above 0.9 already implies a shared fingerprint: looking
    only at the pages listed under the fingerprints of the candidate
    loses no match. *)
Lemma similar_shares wp page :
  (9 # 10 < Similarity wp page)%Q -> sharesFingerprint wp page.
Proof.
  unfold Similarity, sharesFingerprint.
  destruct (size (Fingerprints wp ∪ Fingerprints page)) as [|n] eqn:Hu.
  - intros H. exfalso. revert H. apply Qle_not_lt. discriminate.
  - intros H.
    destruct (size (Fingerprints wp ∩ Fingerprints page)) as [|k] eqn:Hi.
    + exfalso. revert H. apply Qle_not_lt. discriminate.
    + assert (Hne : Fingerprints wp ∩ Fingerprints page ≠ ∅).
      { intros Hemp. rewrite Hemp, size_empty in Hi. discriminate. }
      apply set_choose_L in Hne as [hash Hhash].
      exists hash. set_solver.
Qed.

Definition samplePage : WebPage :=
  {| Timestamp := 0; Url := gostr "https://site.test";
     Status := gostr "200 OK";
     Body := gostr "<!DOCTYPE html><html>text</html>";
     Fingerprints := {[ 1; 2; 3 ]} |}.

(** The guard on the URL matters on an index that holds a page with
    the URL of the candidate: that page is skipped, although it shares
    every fingerprint and its similarity is 1.  [Crawl] never calls the
    check on such an index. *)
Lemma duplicateExists_skips_same_url :
  duplicateExists (indexOf [samplePage]) samplePage = false
  /\ ~ (forall pages wp,
          duplicateExists (indexOf pages) wp = true
          <-> exists page,
                In page pages
                /\ sharesFingerprint wp page
                /\ (9 # 10 < Similarity wp page)%Q).
Proof.
  assert (Hfalse : duplicateExists (indexOf [samplePage]) samplePage = false)
    by (vm_compute; reflexivity).
  split; [exact Hfalse|]. intros H.
  assert (Htrue : duplicateExists (indexOf [samplePage]) samplePage = true).
  { apply H. exists samplePage. split; [now left|]. split.
    - exists 1. split; vm_compute; reflexivity.
    - vm_compute. reflexivity. }
  rewrite Hfalse in Htrue. discriminate.
Qed.

End IndexFacts.

(** ** File names *)

Module FileFacts.

Import Common Spider Filepath.

Definition slash : ascii := "/"%char.

(** A name that is one path element: not empty, without separator, and
    neither ["."] nor [".."]. *)
Definition plain (name : gostring) : Prop :=
  name <> [] /\ ~ In slash name /\ name <> dot /\ name <> dotdot.

Lemma elements_nonempty path : elements path <> [].
Proof.
  destruct path as [|c path]; simpl; [discriminate|].
  destruct (Ascii.eqb c "/"); [discriminate|].
  destruct (elements path); discriminate.
Qed.

Lemma elements_no_slash name : ~ In slash name -> elements name = [name].
Proof.
  induction name as [|c name IH]; intros Hnin; [reflexivity|].
  simpl. destruct (Ascii.eqb_spec c "/") as [->|_].
  - exfalso. apply Hnin. now left.
  - rewrite IH; [reflexivity|]. intros H. apply Hnin. now right.
Qed.

Lemma elements_app dir name :
  elements (dir ++ slash :: name) = elements dir ++ elements name.
Proof.
  induction dir as [|c dir IH]; [reflexivity|].
  simpl. destruct (Ascii.eqb c "/").
  - now rewrite IH.
  - rewrite IH. pose proof (elements_nonempty dir) as Hne.
    destruct (elements dir) as [|e es]; [contradiction | reflexivity].
Qed.

Lemma elements_slash_free path e :
  In e (elements path) -> ~ In slash e.
Proof.
  revert e. induction path as [|c path IH]; intros e; simpl.
  - intros [<- | []]. intros [].
  - destruct (Ascii.eqb_spec c "/") as [->|Hne].
    + intros [<- | Hin]; [intros [] | now apply IH].
    + pose proof (elements_nonempty path) as Hnil.
      destruct (elements path) as [|e0 es]; [contradiction|].
      intros [<- | Hin].
      * intros [Heq | Hin]; [now apply Hne|].
        apply (IH e0); [now left | exact Hin].
      * apply IH. now right.
Qed.

(** What [Clean] keeps: elements that are not empty, not ["."], and
    without separator. *)
Definition kept (e : gostring) : Prop :=
  e <> [] /\ e <> dot /\ ~ In slash e.

Lemma clean_step_kept rooted out e :
  Forall kept out -> ~ In slash e -> Forall kept (clean_step rooted out e).
Proof.
  intros Hout He. unfold clean_step.
  destruct (decide (e = [])) as [->|Hne]; [now rewrite bool_decide_eq_true_2|].
  rewrite (bool_decide_eq_false_2 (e = [])) by assumption.
  destruct (decide (e = dot)) as [->|Hnd];
    [now rewrite bool_decide_eq_true_2|].
  rewrite (bool_decide_eq_false_2 (e = dot)) by assumption. simpl.
  assert (Hk : kept e) by (repeat split; assumption).
  destruct (bool_decide (e = dotdot)); [|now constructor].
  destruct out as [|top out'].
  - destruct rooted; [constructor | now repeat constructor].
  - destruct (bool_decide (top = dotdot)); [now constructor|].
    now inversion Hout.
Qed.

Lemma fold_clean_step_kept rooted es :
  forall out,
    Forall kept out -> (forall e, In e es -> ~ In slash e) ->
    Forall kept (fold_left (clean_step rooted) es out).
Proof.
  induction es as [|e es IH]; intros out Hout Hes; simpl; [exact Hout|].
  apply IH.
  - apply clean_step_kept; [exact Hout|]. apply Hes. now left.
  - intros e' Hin. apply Hes. now right.
Qed.

Lemma clean_step_plain rooted out name :
  plain name -> clean_step rooted out name = name :: out.
Proof.
  intros (Hne & _ & Hnd & Hndd). unfold clean_step.
  now rewrite !bool_decide_eq_false_2 by assumption.
Qed.

Lemma join_sep_snoc out name :
  join_sep (out ++ [name])
  = match out with
    | [] => name
    | _ :: _ => join_sep out ++ slash :: name
    end.
Proof.
  induction out as [|e out IH]; [reflexivity|].
  destruct out as [|e' out]; [reflexivity|].
  change (join_sep ((e :: e' :: out) ++ [name]))
    with (e ++ slash :: join_sep ((e' :: out) ++ [name])).
  rewrite IH. change (join_sep (e :: e' :: out))
    with (e ++ slash :: join_sep (e' :: out)).
  now rewrite <- app_assoc.
Qed.

(** The joined elements start like the first of them. *)
Lemma join_sep_head e out :
  kept e -> exists c rest, join_sep (e :: out) = c :: rest /\ c <> slash
                           /\ (rest = [] -> e = [c] /\ out = []).
Proof.
  intros (Hne & _ & Hslash).
  destruct e as [|c e]; [contradiction|].
  assert (Hc : c <> slash) by (intros ->; apply Hslash; now left).
  exists c. destruct out as [|e' out].
  - exists e. split; [reflexivity|]. split; [exact Hc|]. now intros ->.
  - exists (e ++ slash :: join_sep (e' :: out)).
    split; [reflexivity|]. split; [exact Hc|].
    intros H. now destruct e.
Qed.

(** The file [name] in the directory [dir], a cleaned path. *)
Definition inDirectory (dir name : gostring) : gostring :=
  if bool_decide (dir = dot) then name
  else if bool_decide (dir = [slash]) then slash :: name
  else dir ++ slash :: name.

Lemma rooted_app dir rest :
  dir <> [] -> rooted (dir ++ rest) = rooted dir.
Proof. destruct dir; [contradiction | reflexivity]. Qed.

Lemma Clean_plain name : plain name -> Clean name = name.
Proof.
  intros (Hne & Hslash & Hnd & Hndd).
  assert (Hplain : plain name) by (repeat split; assumption).
  unfold Clean. rewrite elements_no_slash by assumption.
  cbn [fold_left]. rewrite clean_step_plain by assumption.
  destruct name as [|c name]; [contradiction|]. simpl.
  destruct (Ascii.eqb_spec c "/") as [->|_]; [|reflexivity].
  exfalso. apply Hslash. now left.
Qed.

Lemma Clean_snoc dir name :
  dir <> [] -> plain name ->
  Clean (dir ++ slash :: name) = inDirectory (Clean dir) name.
Proof.
  intros Hdir Hplain. pose proof Hplain as (Hne & Hslash & Hnd & Hndd).
  unfold Clean.
  rewrite (rooted_app dir (slash :: name)) by assumption.
  rewrite elements_app, (elements_no_slash name) by assumption.
  rewrite fold_left_app. cbn [fold_left].
  rewrite clean_step_plain by assumption.
  set (out := fold_left (clean_step (rooted dir)) (elements dir) []).
  assert (Hkept : Forall kept (rev out)).
  { apply Forall_rev. apply fold_clean_step_kept; [constructor|].
    apply elements_slash_free. }
  cbn [rev]. rewrite join_sep_snoc.
  unfold inDirectory.
  destruct (rev out) as [|e out'] eqn:Hout.
  - destruct (rooted dir); [|reflexivity].
    rewrite bool_decide_eq_false_2 by discriminate.
    now rewrite bool_decide_eq_true_2.
  - inversion Hkept as [|? ? He Hrest]; subst.
    destruct (join_sep_head e out' He)
      as (c0 & rest & Hjoin & Hc0 & Hsingle).
    pose proof He as (_ & Hedot & _).
    rewrite Hjoin.
    destruct (rooted dir).
    + rewrite !bool_decide_eq_false_2; [reflexivity | discriminate | discriminate].
    + rewrite !bool_decide_eq_false_2; [reflexivity | |].
      * intros [= H _]. now apply Hc0.
      * intros [= -> ->].
        destruct (Hsingle eq_refl) as [-> _]. now apply Hedot.
Qed.

(** [Join] puts a plain name into the cleaned directory. *)
Lemma Join_plain dir name :
  plain name -> Join dir name = inDirectory (Clean dir) name.
Proof.
  intros Hplain. pose proof Hplain as (Hne & _).
  destruct dir as [|d dir]; destruct name as [|c name];
    try contradiction; cbn [Join].
  - now rewrite Clean_plain.
  - change (d :: dir ++ "/"%char :: c :: name)
      with ((d :: dir) ++ slash :: c :: name).
    now apply Clean_snoc.
Qed.

(** *** Decimal numerals *)

Definition is_digit (c : ascii) : Prop := 48 <= byteZ c <= 57.

Lemma string_of_uint_digits d :
  Forall is_digit (gostr (NilEmpty.string_of_uint d)).
Proof.
  induction d; simpl; constructor; try assumption;
    unfold is_digit; vm_compute; split; discriminate.
Qed.

Lemma to_uint_nonnil n : N.to_uint n <> Decimal.Nil.
Proof.
  destruct n as [|p]; [discriminate|].
  apply DecimalPos.Unsigned.to_uint_nonnil.
Qed.

(** [FormatUint] writes at least one digit and digits only. *)
Lemma FormatUint_digits x :
  Strconv.FormatUint x <> [] /\ Forall is_digit (Strconv.FormatUint x).
Proof.
  unfold Strconv.FormatUint, NilZero.string_of_uint.
  pose proof (string_of_uint_digits (N.to_uint (Z.to_N x))) as Hd.
  pose proof (to_uint_nonnil (Z.to_N x)) as Hnil.
  destruct (N.to_uint (Z.to_N x)) eqn:Hu; [contradiction|..];
    (split; [discriminate | exact Hd]).
Qed.

(** The number a decimal numeral stands for. *)
Definition readDecimal (s : gostring) : option Z :=
  match NilZero.uint_of_string (string_of_list_ascii s) with
  | Some d => Some (Z.of_N (N.of_uint d))
  | None => None
  end.

(** The numeral written by [FormatUint] reads back as the number. *)
Lemma FormatUint_read x :
  0 <= x -> readDecimal (Strconv.FormatUint x) = Some x.
Proof.
  intros Hx. unfold readDecimal, Strconv.FormatUint, gostr.
  rewrite string_of_list_ascii_of_string.
  rewrite NilZero.usu by apply to_uint_nonnil.
  rewrite DecimalN.Unsigned.of_to. f_equal. now apply Z2N.id.
Qed.

(** The name of the file of a page is a plain path element. *)
Lemma page_file_name_plain x :
  plain (Strconv.FormatUint x ++ gostr ".json").
Proof.
  destruct (FormatUint_digits x) as [Hne Hd].
  destruct (Strconv.FormatUint x) as [|c digits]; [contradiction|].
  assert (Hc : is_digit c) by now inversion Hd.
  repeat split.
  - discriminate.
  - intros Hin. apply in_app_or in Hin as [Hin | Hin].
    + rewrite List.Forall_forall in Hd. apply Hd in Hin.
      unfold is_digit in Hin. vm_compute in Hin. destruct Hin as [H _].
      now apply H.
    + vm_compute in Hin.
      repeat (destruct Hin as [Hin | Hin]; [discriminate|]).
      exact Hin.
  - intros [= -> _]. unfold is_digit in Hc. vm_compute in Hc.
    destruct Hc as [H _]. now apply H.
  - intros [= -> _]. unfold is_digit in Hc. vm_compute in Hc.
    destruct Hc as [H _]. now apply H.
Qed.

(** The file of a page lies in the cleaned page directory, under the
    decimal numeral of the hash of its URL followed by [".json"]. *)
Lemma fileNameOf_spec s url :
  fileNameOf s url
  = inDirectory (Clean (workingDirectory s))
                (Strconv.FormatUint (hash url) ++ gostr ".json").
Proof. unfold fileNameOf. apply Join_plain, page_file_name_plain. Qed.

End FileFacts.

(** ** The crawl loop *)

Module CrawlFacts.

Import Common Spider.

Section WithCollaborators.

Context {OracleState : Type}.
Variable isWordPressWebsite : gostring -> OracleState -> bool * OracleState.
Variable getHostname : gostring -> gostring.
Variable fingerprintsOf : gostring -> gset Z.
Variable Serialize : WebPage -> gostring.
Variable FindAllAnchorHREFs : WebPage -> Z -> list gostring.

Local Abbreviation World := (@World OracleState).
Local Abbreviation M := (@M OracleState).
Local Abbreviation Event := Spider.Event.

Lemma admitted_app (tr1 tr2 : list Event) :
  admitted (tr1 ++ tr2) = admitted tr1 ++ admitted tr2.
Proof.
  induction tr1 as [|[| |r page] tr1 IH]; simpl; try assumption;
    [reflexivity | now rewrite IH].
Qed.

Lemma admittedBy_app routineNum (tr1 tr2 : list Event) :
  admittedBy routineNum (tr1 ++ tr2)
  = admittedBy routineNum tr1 ++ admittedBy routineNum tr2.
Proof.
  induction tr1 as [|[| |r page] tr1 IH]; simpl; try assumption;
    [reflexivity|].
  destruct (bool_decide (r = routineNum)); simpl; now rewrite IH.
Qed.

Lemma admittedBy_none routineNum (tr : list Event) :
  admitted tr = [] -> admittedBy routineNum tr = [].
Proof.
  induction tr as [|[| |r page] tr IH]; simpl; try assumption;
    [reflexivity | discriminate].
Qed.

(** A computation that writes no file and admits no page. *)
Definition stutter {A} (c : M A) : Prop :=
  forall w a w',
    c w = Some (a, w') ->
    files w' = files w
    /\ exists evs, trace w' = trace w ++ evs /\ admitted evs = [].

Lemma bind_inv {A B} (c : M A) (k : A -> M B) w b w' :
  bind c k w = Some (b, w') ->
  exists a w1, c w = Some (a, w1) /\ k a w1 = Some (b, w').
Proof.
  unfold bind. destruct (c w) as [[a w1]|]; [|discriminate].
  intros H. now exists a, w1.
Qed.

Lemma stutter_ret {A} (a : A) : stutter (ret a).
Proof.
  intros w a' w' [= <- <-]. split; [reflexivity|].
  exists []. now rewrite app_nil_r.
Qed.

Lemma stutter_bind {A B} (c : M A) (k : A -> M B) :
  stutter c -> (forall a, stutter (k a)) -> stutter (bind c k).
Proof.
  intros Hc Hk w b w' H.
  apply bind_inv in H as (a & w1 & H1 & H2).
  apply Hc in H1 as (Hf1 & evs1 & Ht1 & Ha1).
  apply Hk in H2 as (Hf2 & evs2 & Ht2 & Ha2).
  split; [congruence|].
  exists (evs1 ++ evs2). split.
  - now rewrite Ht2, Ht1, app_assoc.
  - now rewrite admitted_app, Ha1, Ha2.
Qed.

Lemma stutter_Sleep seconds : stutter (Sleep seconds).
Proof.
  intros w a w' [= <- <-]. split; [reflexivity|].
  now exists [EvSleep seconds].
Qed.

Lemma stutter_EvGet url : stutter (emit (EvGet url)).
Proof.
  intros w a w' [= <- <-]. split; [reflexivity|].
  now exists [EvGet url].
Qed.

Lemma stutter_PopURL routineNum : stutter (PopURL routineNum).
Proof.
  intros w a w'. unfold PopURL.
  destruct (frontier w !! routineNum) as [[|url rest]|];
    intros H; inversion H; subst; (split; [reflexivity|]);
    exists []; simpl; now rewrite app_nil_r.
Qed.

Lemma stutter_InsertPage url routineNum :
  stutter (InsertPage url routineNum).
Proof.
  intros w a w' [= <- <-]. split; [reflexivity|].
  exists []. simpl. now rewrite app_nil_r.
Qed.

Lemma stutter_withOracle {A} (f : OracleState -> A * OracleState) :
  stutter (withOracle f).
Proof.
  intros w a w'. unfold withOracle.
  destruct (f (wordpressSites w)) as [a' o]. intros [= <- <-].
  split; [reflexivity|]. exists []. simpl. now rewrite app_nil_r.
Qed.

Lemma stutter_orPanic {A} (r : option A) : stutter (orPanic r).
Proof.
  intros w a w'. unfold orPanic. destruct r; [|discriminate].
  intros [= <- <-]. split; [reflexivity|].
  exists []. now rewrite app_nil_r.
Qed.

Lemma stutter_pageDownloaded s url : stutter (pageDownloaded s url).
Proof.
  intros w a w' [= <- <-]. split; [reflexivity|].
  exists []. now rewrite app_nil_r.
Qed.

Lemma stutter_insertAnchors s keys : stutter (insertAnchors s keys).
Proof.
  induction keys as [|key keys IH]; simpl; [apply stutter_ret|].
  apply stutter_bind; [apply stutter_pageDownloaded|].
  intros downloaded. apply stutter_bind; [|intros ?; exact IH].
  destruct downloaded; [apply stutter_ret|].
  apply stutter_bind; [apply stutter_orPanic|].
  intros r. apply stutter_InsertPage.
Qed.

(** What follows the write of an admitted page: link discovery and
    the pause. *)
Definition afterWrite (s : SearchHouseSpider) (page : WebPage)
    (currentUrl : gostring) (fp' : Index) : M Index :=
  bind (fun w =>
          match constructProperURLs isWordPressWebsite getHostname
                  (FindAllAnchorHREFs page (maxLinksPerPage s))
                  currentUrl (wordpressSites w) with
          | Some (set, o) => withOracle (fun _ => (set, o)) w
          | None => None
          end)
       (fun anchors =>
          bind (insertAnchors s (elements (dom (m anchors))))
               (fun _ => bind (Sleep 5) (fun _ => ret fp'))).

Lemma stutter_afterWrite s page currentUrl fp' :
  stutter (afterWrite s page currentUrl fp').
Proof.
  unfold afterWrite. apply stutter_bind.
  - intros w a w'.
    destruct (constructProperURLs _ _ _ _ _) as [[set o]|];
      [|discriminate].
    apply stutter_withOracle.
  - intros anchors. apply stutter_bind; [apply stutter_insertAnchors|].
    intros ?. apply stutter_bind; [apply stutter_Sleep|].
    intros ?. apply stutter_ret.
Qed.

Local Abbreviation Crawl_iteration :=
  (Crawl_iteration isWordPressWebsite getHostname fingerprintsOf
                   Serialize FindAllAnchorHREFs).

(** One iteration either leaves the index and the files alone and
    admits nothing, or admits exactly one page: a valid page without
    duplicate in the index of the worker, which is added to this index
    and written to its file. *)
Lemma Crawl_iteration_summary s env routineNum fp w fp' w' :
  Crawl_iteration s env routineNum fp w = Some (fp', w') ->
  exists evs,
    trace w' = trace w ++ evs
    /\ ((fp' = fp /\ files w' = files w /\ admitted evs = [])
        \/ exists page evs1 evs2,
             evs = evs1 ++ EvAdmit routineNum page :: evs2
             /\ admitted evs1 = [] /\ admitted evs2 = []
             /\ validPage page = true
             /\ duplicateExists fp page = false
             /\ fp' = InsertFingerprintsUsingWebpage fp page
             /\ files w'
                = <[fileNameOf s (Url page) := Serialize page]> (files w)).
Proof.
  assert (Hquiet : forall (c : M Index),
             stutter c -> c w = Some (fp', w') -> fp' = fp ->
             exists evs,
               trace w' = trace w ++ evs
               /\ ((fp' = fp /\ files w' = files w /\ admitted evs = [])
                   \/ exists page evs1 evs2,
                        evs = evs1 ++ EvAdmit routineNum page :: evs2
                        /\ admitted evs1 = [] /\ admitted evs2 = []
                        /\ validPage page = true
                        /\ duplicateExists fp page = false
                        /\ fp' = InsertFingerprintsUsingWebpage fp page
                        /\ files w'
                           = <[fileNameOf s (Url page) := Serialize page]>
                               (files w))).
  { intros c Hc Hrun Hfp. apply Hc in Hrun as (Hf & evs & Ht & Ha).
    exists evs. split; [exact Ht|]. now left. }
  unfold Spider.Crawl_iteration. intros H.
  apply bind_inv in H as (currentUrl & w1 & Hpop & H).
  apply stutter_PopURL in Hpop as (Hf1 & evs1 & Ht1 & Ha1).
  destruct currentUrl as [|c currentUrl].
  { apply bind_inv in H as ([] & w2 & Hs & [= <- <-]).
    apply stutter_Sleep in Hs as (Hf2 & evs2 & Ht2 & Ha2).
    exists (evs1 ++ evs2). split; [now rewrite Ht2, Ht1, app_assoc|].
    left. repeat split; [congruence|].
    now rewrite admitted_app, Ha1, Ha2. }
  apply bind_inv in H as (valid & w2 & Hv & H).
  apply stutter_withOracle in Hv as (Hf2 & evs2 & Ht2 & Ha2).
  destruct valid; cbn [negb] in H.
  2:{ injection H as <- <-.
      exists (evs1 ++ evs2). split; [now rewrite Ht2, Ht1, app_assoc|].
      left. repeat split; [congruence|].
      now rewrite admitted_app, Ha1, Ha2. }
  apply bind_inv in H as (downloaded & w3 & Hd & H).
  apply stutter_pageDownloaded in Hd as (Hf3 & evs3 & Ht3 & Ha3).
  destruct downloaded.
  { injection H as <- <-.
    exists (evs1 ++ evs2 ++ evs3).
    split; [now rewrite Ht3, Ht2, Ht1, !app_assoc|].
    left. repeat split; [congruence|].
    now rewrite !admitted_app, Ha1, Ha2, Ha3. }
  apply bind_inv in H as ([] & w4 & Hg & H).
  apply stutter_EvGet in Hg as (Hf4 & evs4 & Ht4 & Ha4).
  set (pre := evs1 ++ evs2 ++ evs3 ++ evs4).
  assert (Htpre : trace w4 = trace w ++ pre)
    by (unfold pre; now rewrite Ht4, Ht3, Ht2, Ht1, !app_assoc).
  assert (Hapre : admitted pre = [])
    by (unfold pre; now rewrite !admitted_app, Ha1, Ha2, Ha3, Ha4).
  assert (Hfpre : files w4 = files w) by congruence.
  assert (Hsleep : bind (Sleep 5) (fun _ => ret fp) w4 = Some (fp', w') ->
            exists evs,
              trace w' = trace w ++ evs
              /\ ((fp' = fp /\ files w' = files w /\ admitted evs = [])
                  \/ exists page evs1 evs2,
                       evs = evs1 ++ EvAdmit routineNum page :: evs2
                       /\ admitted evs1 = [] /\ admitted evs2 = []
                       /\ validPage page = true
                       /\ duplicateExists fp page = false
                       /\ fp' = InsertFingerprintsUsingWebpage fp page
                       /\ files w'
                          = <[fileNameOf s (Url page) := Serialize page]>
                              (files w))).
  { intros Hrun.
    apply bind_inv in Hrun as ([] & w5 & Hs & [= <- <-]).
    apply stutter_Sleep in Hs as (Hf5 & evs5 & Ht5 & Ha5).
    exists (pre ++ evs5). split; [now rewrite Ht5, Htpre, app_assoc|].
    left. repeat split; [congruence|].
    now rewrite admitted_app, Hapre, Ha5. }
  destruct (http_Get env (c :: currentUrl)) as [|status [body|]];
    [apply Hsleep; exact H | | apply Hsleep; exact H].
  destruct (bool_decide (status = gostr "200 OK"));
    [|apply Hsleep; exact H].
  set (page := NewWebPage fingerprintsOf (time_Now_Unix env)
                 (c :: currentUrl) status body) in *.
  destruct (validPage page) eqn:Hvalid; cbn [negb orb] in H.
  2:{ injection H as <- <-. exists pre. split; [exact Htpre|].
      left. now repeat split. }
  destruct (duplicateExists fp page) eqn:Hdup.
  { injection H as <- <-. exists pre. split; [exact Htpre|].
    left. now repeat split. }
  apply bind_inv in H as ([] & w5 & He & H).
  injection He as <-.
  apply bind_inv in H as ([] & w6 & Hw & H).
  injection Hw as <-.
  change (afterWrite s page (c :: currentUrl)
            (InsertFingerprintsUsingWebpage fp page)
            {| frontier := frontier w4;
               files := <[fileNameOf s (Url page) := Serialize page]>
                          (files w4);
               wordpressSites := wordpressSites w4;
               trace := trace w4 ++ [EvAdmit routineNum page] |}
          = Some (fp', w')) in H.
  pose proof H as Hfp.
  apply stutter_afterWrite in H as (Hf7 & evs7 & Ht7 & Ha7).
  simpl in Hf7, Ht7.
  assert (Hfp' : fp' = InsertFingerprintsUsingWebpage fp page).
  { unfold afterWrite in Hfp.
    apply bind_inv in Hfp as (anchors & w7 & _ & Hfp).
    apply bind_inv in Hfp as ([] & w8 & _ & Hfp).
    apply bind_inv in Hfp as ([] & w9 & _ & Hfp).
    now injection Hfp as <- _. }
  exists (pre ++ EvAdmit routineNum page :: evs7). split.
  - rewrite Ht7, Htpre, <- !app_assoc. reflexivity.
  - right. exists page, pre, evs7.
    repeat split; try assumption. now rewrite Hf7, Hfpre.
Qed.

(** *** The pause after a fetch *)

(** A page that was fetched and then rejected, as invalid HTML or as a
    near-duplicate, ends the iteration at once: the only action is the
    request, and no pause follows it. *)
Lemma Crawl_rejected_page_no_sleep s env routineNum fp w url rest o' body :
  frontier w !! routineNum = Some (url :: rest) ->
  url <> [] ->
  urlValid isWordPressWebsite getHostname url (wordpressSites w)
  = (true, o') ->
  files w !! fileNameOf s url = None ->
  http_Get env url = GetOk (gostr "200 OK") (Some body) ->
  (let page := NewWebPage fingerprintsOf (time_Now_Unix env) url
                 (gostr "200 OK") body in
   validPage page = false \/ duplicateExists fp page = true) ->
  Crawl_iteration s env routineNum fp w
  = Some (fp, {| frontier := <[routineNum := rest]> (frontier w);
                 files := files w;
                 wordpressSites := o';
                 trace := trace w ++ [EvGet url] |}).
Proof.
  intros Hpop Hne Hvalid Hfile Hget Hrej.
  unfold Spider.Crawl_iteration, bind, PopURL. rewrite Hpop.
  destruct url as [|c url]; [contradiction|].
  unfold withOracle. cbn [wordpressSites]. rewrite Hvalid.
  cbn [negb]. unfold pageDownloaded. cbn [files]. rewrite Hfile.
  rewrite bool_decide_eq_false_2 by (intros [x Hx]; discriminate).
  unfold emit. rewrite Hget.
  rewrite bool_decide_eq_true_2 by reflexivity.
  cbv zeta in Hrej.
  destruct Hrej as [-> | ->]; [reflexivity|].
  now rewrite orb_true_r.
Qed.

(** The sibling path: a request that fails is followed by the pause. *)
Lemma Crawl_failed_fetch_sleeps s env routineNum fp w url rest o' :
  frontier w !! routineNum = Some (url :: rest) ->
  url <> [] ->
  urlValid isWordPressWebsite getHostname url (wordpressSites w)
  = (true, o') ->
  files w !! fileNameOf s url = None ->
  http_Get env url = GetError ->
  Crawl_iteration s env routineNum fp w
  = Some (fp, {| frontier := <[routineNum := rest]> (frontier w);
                 files := files w;
                 wordpressSites := o';
                 trace := trace w ++ [EvGet url] ++ [EvSleep 5] |}).
Proof.
  intros Hpop Hne Hvalid Hfile Hget.
  unfold Spider.Crawl_iteration, bind, PopURL. rewrite Hpop.
  destruct url as [|c url]; [contradiction|].
  unfold withOracle. cbn [wordpressSites]. rewrite Hvalid.
  cbn [negb]. unfold pageDownloaded. cbn [files]. rewrite Hfile.
  rewrite bool_decide_eq_false_2 by (intros [x Hx]; discriminate).
  unfold emit. rewrite Hget. unfold Sleep, emit, ret. cbn [trace].
  now rewrite <- app_assoc.
Qed.

(** *** Persisted pages *)

(** C7: the file of a page is written under the cleaned page
    directory, and its name is the decimal numeral of the 64-bit
    FNV-1a sum of the URL followed by [".json"]; every page that an
    iteration of the crawl loop admits is in this file afterwards.

    [hash] is the 64-bit FNV-1a sum: the sum of the empty string is
    the offset basis 14695981039346656037, and a further byte is
    combined by exclusive or and the result multiplied by the prime
    1099511628211 modulo [2 ^ 64]; these two equations leave one
    function.  The sums of ["a"] and ["foobar"] are those of the test
    vectors of the hash, and the page of ["a"] in the directory
    ["pages"] has the file ["pages/12638187200555641996.json"]. *)
Theorem admitted_page_file s page :
  let sum := hash (Url page) in
  let name := Strconv.FormatUint sum ++ gostr ".json" in
  let fileName :=
    FileFacts.inDirectory (Filepath.Clean (workingDirectory s)) name in
  hash [] = 14695981039346656037
  /\ (forall str c,
        hash (str ++ [c])
        = (Z.lxor (hash str) (Z.of_N (N_of_ascii c)) * 1099511628211)
          mod 2 ^ 64)
  /\ hash (gostr "a") = 12638187200555641996
  /\ hash (gostr "foobar") = 9625390261332436968
  /\ (Url page = gostr "a" -> workingDirectory s = gostr "pages" ->
      fileName = gostr "pages/12638187200555641996.json")
  /\ 0 <= sum < 2 ^ 64
  /\ FileFacts.readDecimal (Strconv.FormatUint sum) = Some sum
  /\ (forall w : World,
        exists w',
          writeToDisk Serialize s page w = Some (tt, w')
          /\ files w' = <[fileName := Serialize page]> (files w))
  /\ (forall env routineNum fp w fp' w' evs,
        Crawl_iteration s env routineNum fp w = Some (fp', w') ->
        trace w' = trace w ++ evs ->
        In page (admitted evs) ->
        files w' !! fileName = Some (Serialize page)).
Proof.
  cbv zeta. pose proof (ShardFacts.Sum64a_range (Url page)) as Hrange.
  fold (hash (Url page)) in Hrange.
  split; [reflexivity|].
  split; [intros str c; unfold hash, Fnv.Sum64a;
          now rewrite fold_left_app|].
  split; [vm_compute; reflexivity|].
  split; [vm_compute; reflexivity|].
  split; [intros -> ->; vm_compute; reflexivity|].
  split; [exact Hrange|].
  split; [apply FileFacts.FormatUint_read; lia|].
  rewrite <- FileFacts.fileNameOf_spec. split.
  - intros w. eexists. split; reflexivity.
  - intros env routineNum fp w fp' w' evs Hrun Htrace Hin.
    apply Crawl_iteration_summary in Hrun as (evs' & Htrace' & Hcases).
    rewrite Htrace in Htrace'. apply app_inv_head in Htrace'. subst evs'.
    destruct Hcases as [(_ & _ & Hnone) | Hadmit].
    + rewrite Hnone in Hin. destruct Hin.
    + destruct Hadmit
        as (page' & evs1 & evs2 & -> & Ha1 & Ha2 & _ & _ & _ & Hfiles).
      rewrite admitted_app in Hin. cbn [admitted] in Hin.
      rewrite Ha1, Ha2 in Hin.
      destruct Hin as [<- | []].
      rewrite Hfiles. apply lookup_insert_eq.
Qed.

(** *** One index per worker *)

Local Abbreviation run :=
  (run isWordPressWebsite getHostname fingerprintsOf Serialize
       FindAllAnchorHREFs).
Local Abbreviation worker_step :=
  (worker_step isWordPressWebsite getHostname fingerprintsOf Serialize
               FindAllAnchorHREFs).

(** The index of each worker holds the pages this worker admitted. *)
Definition ownPages (sys : @System OracleState) : Prop :=
  forall i fp,
    indexes sys !! i = Some fp ->
    fp = indexOf (admittedBy (Z.of_nat i) (trace (world sys))).

Lemma indexOf_snoc pages page :
  indexOf (pages ++ [page])
  = InsertFingerprintsUsingWebpage (indexOf pages) page.
Proof. unfold indexOf. now rewrite fold_left_app. Qed.

Lemma worker_step_ownPages s sys turn sys' :
  ownPages sys -> worker_step s sys turn = Some sys' -> ownPages sys'.
Proof.
  intros Hinv. destruct turn as [i env]. unfold Spider.worker_step.
  destruct (indexes sys !! i) as [fp|] eqn:Hfp;
    [|intros [= <-]; exact Hinv].
  destruct (Crawl_iteration s env (Z.of_nat i) fp (world sys))
    as [[fp' w']|] eqn:Hrun; [|discriminate].
  intros [= <-]. intros j fpj. cbn [indexes world].
  apply Crawl_iteration_summary in Hrun as (evs & Htrace & Hcases).
  rewrite Htrace, admittedBy_app.
  destruct (decide (i = j)) as [<-|Hne].
  - rewrite list_lookup_insert_eq by (now apply lookup_lt_Some in Hfp).
    intros [= <-].
    destruct Hcases as [(-> & _ & Hnone) | Hadmit].
    + rewrite (admittedBy_none _ _ Hnone), app_nil_r.
      now apply Hinv.
    + destruct Hadmit
        as (page & evs1 & evs2 & -> & Ha1 & Ha2 & _ & _ & -> & _).
      rewrite admittedBy_app. cbn [admittedBy].
      rewrite bool_decide_eq_true_2 by reflexivity.
      rewrite (admittedBy_none _ _ Ha1), (admittedBy_none _ _ Ha2).
      cbn [app]. rewrite indexOf_snoc. f_equal. now apply Hinv.
  - rewrite list_lookup_insert_ne by assumption.
    intros Hj.
    destruct Hcases as [(_ & _ & Hnone) | Hadmit].
    + rewrite (admittedBy_none _ _ Hnone), app_nil_r.
      now apply Hinv.
    + destruct Hadmit
        as (page & evs1 & evs2 & -> & Ha1 & Ha2 & _).
      rewrite admittedBy_app. cbn [admittedBy].
      rewrite bool_decide_eq_false_2 by lia.
      rewrite (admittedBy_none _ _ Ha1), (admittedBy_none _ _ Ha2).
      rewrite app_nil_r. now apply Hinv.
Qed.

Lemma run_ownPages s schedule :
  forall sys sys',
    ownPages sys -> run s schedule sys = Some sys' -> ownPages sys'.
Proof.
  induction schedule as [|turn schedule IH]; intros sys sys' Hinv.
  - now intros [= <-].
  - cbn [Spider.run].
    destruct (worker_step s sys turn) as [sys1|] eqn:Hstep;
      [|discriminate].
    apply IH. now apply (worker_step_ownPages s sys turn).
Qed.

Lemma CrawlConcurrently_ownPages s (w : World) :
  admitted (trace w) = [] -> ownPages (CrawlConcurrently s w).
Proof.
  intros Hnone i fp. cbn [CrawlConcurrently indexes world].
  intros Hfp. apply lookup_replicate in Hfp as [-> _].
  now rewrite (admittedBy_none _ _ Hnone).
Qed.

(** C1, as the code has it: each worker builds an index of its own.
    After every schedule, the index of a worker is the index of the
    pages this worker has admitted, and its duplicate check compares a
    candidate with these pages only. *)
Theorem worker_index_own_pages s (w : World) schedule sys' i fp :
  admitted (trace w) = [] ->
  run s schedule (CrawlConcurrently s w) = Some sys' ->
  indexes sys' !! i = Some fp ->
  fp = indexOf (admittedBy (Z.of_nat i) (trace (world sys')))
  /\ forall wp,
       duplicateExists fp wp = true
       <-> exists page,
             In page (admittedBy (Z.of_nat i) (trace (world sys')))
             /\ Url page <> Url wp
             /\ IndexFacts.sharesFingerprint wp page
             /\ (9 # 10 < Similarity wp page)%Q.
Proof.
  intros Hnone Hrun Hfp.
  assert (Hown : ownPages sys').
  { apply (run_ownPages s schedule (CrawlConcurrently s w));
      [now apply CrawlConcurrently_ownPages | exact Hrun]. }
  pose proof (Hown i fp Hfp) as Heq.
  split; [exact Heq|]. intros wp. rewrite Heq at 1.
  apply IndexFacts.duplicateExists_of_listing.
  intros hash page. apply IndexFacts.indexOf_listed.
Qed.

End WithCollaborators.

End CrawlFacts.

(** ** A crawl with two workers *)

Module CrawlExamples.

Import Common Spider CrawlFacts.

Definition spider : SearchHouseSpider :=
  {| numRoutines := 2; workingDirectory := gostr "pages";
     maxLinksPerPage := 20 |}.

Definition siteUrl : gostring := gostr "https://site.test".
Definition mirrorUrl : gostring := gostr "https://mirror.test".

Definition htmlBody : gostring :=
  gostr "<!DOCTYPE html><html><body>the same text</body></html>".

(** Every page links to the mirror. *)
Definition FindAllAnchorHREFs (page : WebPage) (max : Z) : list gostring :=
  [mirrorUrl].

(** A network on which every URL serves [body]. *)
Definition serving (body : gostring) : @Env :=
  {| http_Get := fun _ => GetOk (gostr "200 OK") (Some body);
     time_Now_Unix := 1700000000 |}.

(** A network on which every request fails. *)
Definition offline : @Env :=
  {| http_Get := fun _ => GetError; time_Now_Unix := 1700000000 |}.

(** A first run: nothing queued, nothing fetched. *)
Definition fresh : @World unit :=
  {| frontier := ∅; files := ∅; wordpressSites := tt; trace := [] |}.

(** The state after [NewSpider] with the seed [siteUrl]. *)
Definition seeded : @World unit :=
  {| frontier := {[ 0 := [siteUrl] ]}; files := ∅;
     wordpressSites := tt; trace := [] |}.

Example NewSpider_seeded :
  NewSpider 2 (gostr "pages") [siteUrl] 20 fresh = Some (spider, seeded).
Proof. vm_compute. reflexivity. Qed.

Definition Crawl_iteration :=
  Crawl_iteration Sample.isWordPressWebsite Sample.getHostname
                  Sample.fingerprintsOf Sample.Serialize FindAllAnchorHREFs.

Definition run :=
  run Sample.isWordPressWebsite Sample.getHostname
      Sample.fingerprintsOf Sample.Serialize FindAllAnchorHREFs.

Definition pageAt (url : gostring) : WebPage :=
  NewWebPage Sample.fingerprintsOf 1700000000 url (gostr "200 OK") htmlBody.

(** The actions of an iteration, when it returns. *)
Definition actions (r : option (Index * @World unit)) : option (list Event) :=
  match r with
  | Some (_, w) => Some (trace w)
  | None => None
  end.

(** C5 fails on the code: the worker fetches a page whose body is not
    HTML, or a page that duplicates an admitted one, and starts its next
    iteration without the pause of 5 seconds; after a failed request it
    does pause. *)
Theorem Crawl_rejected_page_skips_sleep :
  actions (Crawl_iteration spider (serving (gostr "plain text")) 0
             NewFingerprints seeded)
  = Some [EvGet siteUrl]
  /\ actions (Crawl_iteration spider (serving htmlBody) 0
                (indexOf [pageAt mirrorUrl]) seeded)
     = Some [EvGet siteUrl]
  /\ actions (Crawl_iteration spider offline 0 NewFingerprints seeded)
     = Some [EvGet siteUrl; EvSleep 5].
Proof. vm_compute. repeat split; reflexivity. Qed.

(** The shards of the two hosts. *)
Example shards :
  calcWebsiteToRoutineNum 2 mirrorUrl = Some 1.
Proof. vm_compute. reflexivity. Qed.

(** Worker 0 fetches and admits the seed, and hands the mirror to worker
    1, which fetches the same body and admits it too. *)
Definition schedule : list (nat * @Env) :=
  [(0%nat, serving htmlBody); (1%nat, serving htmlBody)].

Example both_admitted :
  match run spider schedule (CrawlConcurrently spider seeded) with
  | Some sys =>
      map Url (admitted (trace (world sys))) = [siteUrl; mirrorUrl]
      /\ map Url (admittedBy 0 (trace (world sys))) = [siteUrl]
      /\ map Url (admittedBy 1 (trace (world sys))) = [mirrorUrl]
  | None => False
  end.
Proof. vm_compute. repeat split; reflexivity. Qed.

(** The state after the first turn, and after both. *)
Definition afterFirstTurn : @System unit :=
  Eval vm_compute in
    match run spider [(0%nat, serving htmlBody)]
              (CrawlConcurrently spider seeded) with
    | Some sys => sys
    | None => CrawlConcurrently spider seeded
    end.

Definition afterBothTurns : @System unit :=
  Eval vm_compute in
    match run spider schedule (CrawlConcurrently spider seeded) with
    | Some sys => sys
    | None => CrawlConcurrently spider seeded
    end.

Lemma run_first_turn :
  run spider [(0%nat, serving htmlBody)] (CrawlConcurrently spider seeded)
  = Some afterFirstTurn.
Proof. vm_compute. reflexivity. Qed.

Lemma run_both_turns :
  run spider schedule (CrawlConcurrently spider seeded)
  = Some afterBothTurns.
Proof. vm_compute. reflexivity. Defined.

(** C1 as stated fails: after worker 0 has admitted the seed, the index
    of worker 1 is still empty, and its check of the mirror page finds
    no duplicate, although the page has the fingerprints of a page that
    another worker admitted. *)
Lemma index_not_shared :
  ~ (forall s (w : @World unit) sched sys' i fp wp,
       admitted (trace w) = [] ->
       run s sched (CrawlConcurrently s w) = Some sys' ->
       indexes sys' !! i = Some fp ->
       duplicateExists fp wp
       = duplicateExists (indexOf (admitted (trace (world sys')))) wp).
Proof.
  intros H.
  assert (Hfp : indexes afterFirstTurn !! 1%nat = Some NewFingerprints)
    by (vm_compute; reflexivity).
  specialize (H spider seeded [(0%nat, serving htmlBody)] afterFirstTurn
                1%nat NewFingerprints (pageAt mirrorUrl)
                eq_refl run_first_turn Hfp).
  vm_compute in H. discriminate.
Qed.

Definition mirrorIndex : Index :=
  Eval vm_compute in
    match indexes afterBothTurns !! 1%nat with
    | Some fp => fp
    | None => NewFingerprints
    end.

Lemma mirrorIndex_lookup :
  indexes afterBothTurns !! 1%nat = Some mirrorIndex.
Proof. vm_compute. reflexivity. Defined.

Lemma worker_index_own_pages_witness :
  admitted (trace seeded) = []
  /\ run spider schedule (CrawlConcurrently spider seeded)
     = Some afterBothTurns
  /\ indexes afterBothTurns !! 1%nat = Some mirrorIndex
  /\ mirrorIndex
     = indexOf (admittedBy 1 (trace (world afterBothTurns)))
  /\ forall wp,
       duplicateExists mirrorIndex wp = true
       <-> exists page,
             In page (admittedBy 1 (trace (world afterBothTurns)))
             /\ Url page <> Url wp
             /\ IndexFacts.sharesFingerprint wp page
             /\ (9 # 10 < Similarity wp page)%Q.
Proof.
  split; [reflexivity|]. split; [exact run_both_turns|].
  split; [exact mirrorIndex_lookup|].
  exact (worker_index_own_pages
           Sample.isWordPressWebsite Sample.getHostname
           Sample.fingerprintsOf Sample.Serialize FindAllAnchorHREFs
           spider seeded schedule afterBothTurns 1%nat mirrorIndex
           eq_refl run_both_turns mirrorIndex_lookup).
Defined.

End CrawlExamples.

Module UrlExamples.

Import Common Spider UrlFacts.

Definition pdfUrl : gostring := gostr "https://site.test/doc.pdf".

Lemma disallowed_extension_never_discovered_witness :
  In (gostr "pdf") disallowedExtensions
  /\ endsWithExtension pdfUrl (gostr "pdf")
  /\ (forall o : unit,
        urlValid Sample.isWordPressWebsite Sample.getHostname pdfUrl o
        = (false, o))
  /\ (forall urls root (o : unit) set o',
        constructProperURLs Sample.isWordPressWebsite Sample.getHostname
          urls root o = Some (set, o') ->
        m set !! pdfUrl = None /\ Contains set pdfUrl = false).
Proof.
  assert (Hin : In (gostr "pdf") disallowedExtensions).
  { unfold disallowedExtensions. cbn [map].
    repeat (first [left; reflexivity | right]). }
  assert (Hext : endsWithExtension pdfUrl (gostr "pdf")).
  { exists (gostr "https://site.test/doc"). vm_compute. reflexivity. }
  split; [exact Hin|]. split; [exact Hext|].
  exact (disallowed_extension_never_discovered
           Sample.isWordPressWebsite Sample.getHostname
           pdfUrl (gostr "pdf") Hin Hext).
Defined.

End UrlExamples.

(** * Further properties of the code *)

(** ** [StringSet] *)

Module SetFacts.

Import Spider.

Lemma Contains_Add s str other :
  Contains (Add s str) other = bool_decide (other = str) || Contains s other.
Proof.
  unfold Contains, Add. cbn [m].
  destruct (decide (other = str)) as [->|Hne].
  - now rewrite lookup_insert_eq, bool_decide_eq_true_2.
  - rewrite lookup_insert_ne by congruence.
    now rewrite bool_decide_eq_false_2.
Qed.

Lemma Contains_fold_Add keys :
  forall s str,
    Contains (fold_left Add keys s) str
    = Contains s str || bool_decide (str ∈ keys).
Proof.
  induction keys as [|key keys IH]; intros s str; cbn [fold_left].
  - rewrite bool_decide_eq_false_2 by apply not_elem_of_nil.
    now rewrite orb_false_r.
  - rewrite IH, Contains_Add.
    destruct (decide (str = key)) as [->|Hne].
    + rewrite (bool_decide_eq_true_2 (key = key)) by reflexivity.
      rewrite (bool_decide_eq_true_2 (key ∈ key :: keys))
        by (rewrite elem_of_cons; now left).
      now rewrite !orb_true_r.
    + rewrite (bool_decide_eq_false_2 (str = key)) by assumption.
      cbn [orb]. f_equal. apply bool_decide_ext.
      rewrite elem_of_cons. tauto.
Qed.

(** X1: the zero value of [StringSet] holds no string, and [Remove] on
    it does nothing; after [Add(str)] the set holds [str] and what it
    held before; after [Remove(str)] it holds what it held before but
    [str]; [Remove] undoes [Add]. *)
Theorem StringSet_Add_Remove_Contains s str other :
  Contains emptyStringSet other = false
  /\ Remove emptyStringSet str = emptyStringSet
  /\ Contains (Add s str) other
     = bool_decide (other = str) || Contains s other
  /\ Contains (Remove s str) other
     = negb (bool_decide (other = str)) && Contains s other
  /\ Contains (Remove (Add s str) str) other
     = Contains (Remove s str) other.
Proof.
  split; [reflexivity|].
  split; [unfold Remove, emptyStringSet; cbn [m]; now rewrite delete_empty|].
  split; [apply Contains_Add|].
  assert (Hrem : forall t, Contains (Remove t str) other
                 = negb (bool_decide (other = str)) && Contains t other).
  { intros t. unfold Contains, Remove. cbn [m].
    destruct (decide (other = str)) as [->|Hne].
    - now rewrite lookup_delete_eq, bool_decide_eq_true_2.
    - rewrite lookup_delete_ne by congruence.
      now rewrite bool_decide_eq_false_2. }
  split; [apply Hrem|].
  rewrite !Hrem, Contains_Add.
  destruct (bool_decide (other = str)); reflexivity.
Qed.

(** X2: after [s.Merge(right)] the set holds a string exactly when it
    held it before or the string is a key of the map of [right],
    whatever value the map gives it. *)
Theorem Merge_Contains s right str :
  Contains (Merge s right) str
  = Contains s str || bool_decide (is_Some (m right !! str)).
Proof.
  unfold Merge. rewrite Contains_fold_Add. f_equal.
  apply bool_decide_ext.
  rewrite elem_of_elements, elem_of_dom. reflexivity.
Qed.

End SetFacts.

(** ** Hashing and the router *)

Module HashFacts.

Import Spider.

(** X3: on every [int] but the least one [abs] is the absolute value;
    the least [int] is returned as it is, a negative number.  The
    earlier copy, which multiplies by -1, computes the same. *)
Theorem abs_spec val :
  GoInt.MinInt <= val <= GoInt.MaxInt ->
  abs val = (if val =? GoInt.MinInt then GoInt.MinInt else Z.abs val)
  /\ Legacy.abs val = abs val.
Proof.
  unfold abs, Legacy.abs, GoInt.neg, GoInt.wrap, GoInt.MinInt, GoInt.MaxInt.
  intros H. split.
  - destruct (Z.eqb_spec val (- 2 ^ 63)) as [->|Hne]; [reflexivity|].
    destruct (Z.ltb_spec val 0) as [Hneg|Hpos].
    + rewrite Z.mod_small by lia. lia.
    + lia.
  - destruct (val <? 0); [|reflexivity]. f_equal; lia.
Qed.

Lemma abs_spec_witness :
  GoInt.MinInt <= -5 <= GoInt.MaxInt
  /\ abs (-5) = 5 /\ Legacy.abs (-5) = abs (-5).
Proof.
  assert (H : GoInt.MinInt <= -5 <= GoInt.MaxInt)
    by (unfold GoInt.MinInt, GoInt.MaxInt; lia).
  split; [exact H|]. exact (abs_spec (-5) H).
Defined.

(** X4: [calcWebsiteToRoutineNum] panics exactly when there is no
    routine; otherwise, unless the sum of the host name is 2^63, it
    returns the absolute value of the sum, read as an [int], modulo the
    number of routines: a number from 0 up to that number. *)
Theorem calcWebsiteToRoutineNum_spec numRoutines url :
  (calcWebsiteToRoutineNum numRoutines url = None <-> numRoutines = 0)
  /\ (numRoutines <> 0 ->
      hash (findHostName url) <> 2 ^ 63 ->
      exists r,
        calcWebsiteToRoutineNum numRoutines url = Some r
        /\ 0 <= r < Z.abs numRoutines
        /\ r = Z.abs (GoInt.of_uint64 (hash (findHostName url)))
               mod Z.abs numRoutines).
Proof.
  unfold calcWebsiteToRoutineNum, GoInt.rem. split.
  - destruct (Z.eqb_spec numRoutines 0) as [->|Hne]; split;
      try discriminate; try reflexivity; try contradiction.
  - intros Hn Hh.
    destruct (Z.eqb_spec numRoutines 0) as [->|_]; [contradiction|].
    eexists. split; [reflexivity|].
    pose proof (ShardFacts.Sum64a_range (findHostName url)) as Hr.
    fold (hash (findHostName url)) in Hr.
    pose proof (ShardFacts.of_uint64_range _ Hr) as Hi.
    set (v := GoInt.of_uint64 (hash (findHostName url))) in *.
    assert (Hne : v <> GoInt.MinInt).
    { unfold v, GoInt.of_uint64, GoInt.MinInt.
      destruct (Z.ltb_spec (hash (findHostName url)) (2 ^ 63)); lia. }
    assert (Ha : abs v = Z.abs v).
    { unfold abs, GoInt.neg, GoInt.wrap.
      unfold GoInt.MinInt, GoInt.MaxInt in *.
      destruct (Z.ltb_spec v 0); [|lia].
      rewrite Z.mod_small by lia. lia. }
    rewrite Ha.
    assert (Hrem : Z.rem (Z.abs v) numRoutines
                   = Z.abs v mod Z.abs numRoutines).
    { rewrite <- (Z.rem_abs_r (Z.abs v) numRoutines) by assumption.
      apply Z.rem_mod_nonneg; lia. }
    rewrite Hrem. split; [|reflexivity].
    apply Z.mod_pos_bound. lia.
Qed.

Lemma calcWebsiteToRoutineNum_spec_witness :
  4 <> 0
  /\ hash (findHostName (gostr "https://a.example/x")) <> 2 ^ 63
  /\ exists r,
       calcWebsiteToRoutineNum 4 (gostr "https://a.example/x") = Some r
       /\ 0 <= r < Z.abs 4
       /\ r = Z.abs (GoInt.of_uint64
                       (hash (findHostName (gostr "https://a.example/x"))))
              mod Z.abs 4.
Proof.
  assert (Hn : 4 <> 0) by lia.
  assert (Hh : hash (findHostName (gostr "https://a.example/x")) <> 2 ^ 63)
    by (vm_compute; discriminate).
  split; [exact Hn|]. split; [exact Hh|].
  exact (proj2 (calcWebsiteToRoutineNum_spec 4 (gostr "https://a.example/x"))
               Hn Hh).
Defined.

(** *** FNV-1a does not confuse neighbours *)

Lemma byteZ_range c : 0 <= byteZ c < 256.
Proof.
  unfold byteZ. pose proof (N_ascii_bounded c) as H. lia.
Qed.

Lemma byteZ_inj c1 c2 : byteZ c1 = byteZ c2 -> c1 = c2.
Proof.
  unfold byteZ. intros H. apply N2Z.inj in H.
  rewrite <- (ascii_N_embedding c1), <- (ascii_N_embedding c2).
  now rewrite H.
Qed.

Lemma lxor_range a b :
  0 <= a < 2 ^ 64 -> 0 <= b < 2 ^ 64 -> 0 <= Z.lxor a b < 2 ^ 64.
Proof.
  intros Ha Hb.
  assert (Hnn : 0 <= Z.lxor a b) by (apply Z.lxor_nonneg; lia).
  split; [exact Hnn|].
  destruct (Z.eq_dec (Z.lxor a b) 0) as [->|Hne]; [lia|].
  apply Z.log2_lt_pow2; [lia|].
  pose proof (Z.log2_lxor a b) as Hl.
  assert (Z.log2 a < 64).
  { destruct (Z.eq_dec a 0) as [->|]; [simpl; lia|].
    apply Z.log2_lt_pow2; lia. }
  assert (Z.log2 b < 64).
  { destruct (Z.eq_dec b 0) as [->|]; [simpl; lia|].
    apply Z.log2_lt_pow2; lia. }
  lia.
Qed.

(** The inverse of [prime64] modulo 2^64. *)
Definition prime64_inverse : Z := 14886173955864302971.

Lemma mul_prime64_inj x y :
  0 <= x < 2 ^ 64 -> 0 <= y < 2 ^ 64 ->
  (x * Fnv.prime64) mod 2 ^ 64 = (y * Fnv.prime64) mod 2 ^ 64 -> x = y.
Proof.
  intros Hx Hy H.
  assert (Hinv : forall z, 0 <= z < 2 ^ 64 ->
            ((z * Fnv.prime64) mod 2 ^ 64 * prime64_inverse) mod 2 ^ 64 = z).
  { intros z Hz. rewrite Z.mul_mod_idemp_l by lia.
    rewrite <- Z.mul_assoc, <- Z.mul_mod_idemp_r by lia.
    replace ((Fnv.prime64 * prime64_inverse) mod 2 ^ 64) with 1
      by (vm_compute; reflexivity).
    rewrite Z.mul_1_r. apply Z.mod_small. lia. }
  rewrite <- (Hinv x Hx), <- (Hinv y Hy). now rewrite H.
Qed.

Lemma step_inj h1 c1 h2 c2 :
  0 <= h1 < 2 ^ 64 -> 0 <= h2 < 2 ^ 64 ->
  Fnv.step h1 c1 = Fnv.step h2 c2 ->
  Z.lxor h1 (byteZ c1) = Z.lxor h2 (byteZ c2).
Proof.
  intros H1 H2. unfold Fnv.step. apply mul_prime64_inj.
  - apply lxor_range; [lia|]. pose proof (byteZ_range c1). lia.
  - apply lxor_range; [lia|]. pose proof (byteZ_range c2). lia.
Qed.

Lemma fold_step_range data :
  forall h, 0 <= h < 2 ^ 64 -> 0 <= fold_left Fnv.step data h < 2 ^ 64.
Proof.
  induction data as [|c data IH]; intros h Hh; simpl; [exact Hh|].
  apply IH, ShardFacts.step_range.
Qed.

Lemma fold_step_inj data :
  forall h1 h2,
    0 <= h1 < 2 ^ 64 -> 0 <= h2 < 2 ^ 64 ->
    fold_left Fnv.step data h1 = fold_left Fnv.step data h2 -> h1 = h2.
Proof.
  induction data as [|c data IH]; intros h1 h2 H1 H2 H; simpl in H;
    [exact H|].
  apply IH in H; try apply ShardFacts.step_range.
  apply step_inj in H; [|assumption..].
  apply (f_equal (fun z => Z.lxor z (byteZ c))) in H.
  now rewrite !Z.lxor_assoc, !Z.lxor_nilpotent, !Z.lxor_0_r in H.
Qed.

(** X5: two strings that differ in exactly one byte never have the same
    [hash]: each step of FNV-1a is a bijection of the 64-bit state, and
    distinct bytes lead from one state to distinct states. *)
Theorem hash_separates_one_byte pre a b post :
  hash (pre ++ a :: post) = hash (pre ++ b :: post) <-> a = b.
Proof.
  split; [|now intros ->].
  unfold hash, Fnv.Sum64a. rewrite !fold_left_app. cbn [fold_left].
  assert (Hoff : 0 <= Fnv.offset64 < 2 ^ 64) by (unfold Fnv.offset64; lia).
  pose proof (fold_step_range pre _ Hoff) as Hpre.
  set (h := fold_left Fnv.step pre Fnv.offset64) in *.
  intros H. apply fold_step_inj in H; try apply ShardFacts.step_range.
  apply step_inj in H; [|assumption..].
  apply byteZ_inj.
  apply (f_equal (Z.lxor h)) in H.
  now rewrite <- !Z.lxor_assoc, !Z.lxor_nilpotent, !Z.lxor_0_l in H.
Qed.

End HashFacts.
(** ** What the expressions match

    The matcher lists the ends of all matches; the lemmas below read
    this list for literals, classes and repetitions of classes. *)

Module MatchFacts.

Import Regexp RegexpFacts.

(** *** Positions and slices *)

Lemma slice_app text p q r :
  (p <= q <= r)%nat -> slice text p r = slice text p q ++ slice text q r.
Proof.
  intros H. unfold slice.
  replace (r - p)%nat with ((q - p) + (r - q))%nat by lia.
  rewrite <- (firstn_skipn (q - p) (firstn (q - p + (r - q)) (skipn p text))).
  rewrite firstn_firstn.
  replace (Nat.min (q - p) (q - p + (r - q))) with (q - p)%nat by lia.
  f_equal. rewrite skipn_firstn_comm.
  replace (q - p + (r - q) - (q - p))%nat with (r - q)%nat by lia.
  rewrite skipn_skipn.
  now replace (q - p + p)%nat with q by lia.
Qed.

Lemma slice_all text : slice text 0 (length text) = text.
Proof. unfold slice. now rewrite skipn_O, Nat.sub_0_r, firstn_all. Qed.

Lemma slice_nil text p : slice text p p = [].
Proof. unfold slice. now rewrite Nat.sub_diag. Qed.

Lemma slice_one text p c :
  nth_error text p = Some c -> slice text p (S p) = [c].
Proof.
  intros H. unfold slice. replace (S p - p)%nat with 1%nat by lia.
  revert p H. induction text as [|d text IH]; intros [|p] H;
    try discriminate.
  - now injection H as ->.
  - now apply IH.
Qed.

Lemma slice_split text p q :
  (p <= q <= length text)%nat ->
  text = firstn p text ++ slice text p q ++ skipn q text
  /\ length (slice text p q) = (q - p)%nat.
Proof.
  intros H. split.
  - rewrite <- (firstn_skipn p text) at 1. f_equal.
    unfold slice.
    rewrite <- (firstn_skipn (q - p) (skipn p text)) at 1. f_equal.
    rewrite skipn_skipn. now replace (q - p + p)%nat with q by lia.
  - unfold slice. rewrite length_firstn, length_skipn. lia.
Qed.

(** The slice of a text that is written as three parts. *)
Lemma slice_middle pre mid post :
  slice (pre ++ mid ++ post) (length pre) (length pre + length mid) = mid.
Proof.
  unfold slice. rewrite skipn_app, Nat.sub_diag, skipn_all, skipn_O.
  cbn [app].
  replace (length pre + length mid - length pre)%nat with (length mid) by lia.
  now rewrite firstn_app, Nat.sub_diag, firstn_O, app_nil_r, firstn_all.
Qed.

(** The bytes from [p] up to [q] exist and pass [f]. *)
Definition passes (f : ascii -> bool) (text : gostring) (p q : nat) : Prop :=
  forall i, (p <= i < q)%nat ->
            exists c, nth_error text i = Some c /\ f c = true.

Lemma passes_slice f text p q :
  (p <= q)%nat -> passes f text p q ->
  (q <= length text \/ q = p)%nat /\ forallb f (slice text p q) = true.
Proof.
  intros Hpq. remember (q - p)%nat as n eqn:Hn.
  revert p q Hpq Hn. induction n as [|n IH]; intros p q Hpq Hn Hpass.
  - assert (q = p) by lia. subst q. rewrite slice_nil. split; [now right|].
    reflexivity.
  - destruct (Hpass p) as (c & Hc & Hf); [lia|].
    destruct (IH (S p) q) as [Hlen Hall]; [lia | lia | |].
    { intros i Hi. apply Hpass. lia. }
    split.
    + left. destruct Hlen as [Hlen | ->]; [exact Hlen|].
      apply nth_error_Some. now rewrite Hc.
    + rewrite (slice_app text p (S p) q) by lia.
      rewrite (slice_one text p c Hc). cbn [app forallb].
      now rewrite Hf, Hall.
Qed.

Lemma slice_passes f pre mid post :
  forallb f mid = true ->
  passes f (pre ++ mid ++ post) (length pre) (length pre + length mid).
Proof.
  intros Hall i Hi.
  rewrite nth_error_app2 by lia. rewrite nth_error_app1 by lia.
  destruct (nth_error mid (i - length pre)) as [c|] eqn:Hc.
  - exists c. split; [reflexivity|].
    rewrite forallb_forall in Hall. apply Hall.
    now apply nth_error_In in Hc.
  - apply nth_error_None in Hc. lia.
Qed.

(** *** What the matcher enumerates *)

Lemma In_one f text p q :
  In q (one f text p)
  <-> q = S p /\ exists c, nth_error text p = Some c /\ f c = true.
Proof.
  unfold one. destruct (nth_error text p) as [c|].
  - destruct (f c) eqn:Hf.
    + split.
      * intros [<- | []]. split; [reflexivity|]. now exists c.
      * intros [-> _]. now left.
    + split; [intros []|]. intros [_ (c' & [= <-] & Hf')]. congruence.
  - split; [intros []|]. intros [_ (c' & H & _)]. discriminate.
Qed.

(** A greedy repetition of a one-byte test ends after every number of
    bytes between [min] and [fuel] that pass the test. *)
Lemma In_rep f text :
  forall fuel min p q,
    In q (rep (one f text) min fuel p)
    <-> (p <= q)%nat /\ (min <= q - p <= fuel)%nat /\ passes f text p q.
Proof.
  induction fuel as [|fuel IH]; intros min p q; cbn [rep].
  - destruct min.
    + split.
      * intros [<- | []]. split; [lia|]. split; [lia|]. intros i Hi. lia.
      * intros (H1 & H2 & _). left. lia.
    + split; [intros []|]. intros (_ & H & _). lia.
  - rewrite in_app_iff, in_flat_map. split.
    + intros [(q1 & Hq1 & Hq) | Hstop].
      * apply In_one in Hq1 as (-> & c & Hc & Hf).
        apply IH in Hq as (Hle & Hcount & Hpass).
        split; [lia|]. split; [lia|].
        intros i Hi. destruct (Nat.eq_dec i p) as [->|Hne].
        -- now exists c.
        -- apply Hpass. lia.
      * destruct min; [|destruct Hstop]. destruct Hstop as [<- | []].
        split; [lia|]. split; [lia|]. intros i Hi. lia.
    + intros (Hle & Hcount & Hpass).
      destruct (Nat.eq_dec q p) as [->|Hne].
      * right. destruct min; [now left | lia].
      * left. exists (S p). split.
        -- apply In_one. split; [reflexivity|]. apply Hpass. lia.
        -- apply IH. split; [lia|]. split; [lia|].
           intros i Hi. apply Hpass. lia.
Qed.

Lemma nth_error_skipn_cons (text : gostring) p c :
  nth_error text p = Some c <-> exists rest, skipn p text = c :: rest.
Proof.
  revert p. induction text as [|d text IH]; intros [|p]; cbn [nth_error skipn].
  - split; [discriminate | intros [rest H]; discriminate].
  - split; [discriminate | intros [rest H]; discriminate].
  - split.
    + intros [= ->]. now exists text.
    + intros [rest [= -> _]]. reflexivity.
  - apply IH.
Qed.

Lemma In_Lit c text p q :
  In q (ends (Lit c) text p)
  <-> q = S p /\ exists rest, skipn p text = c :: rest.
Proof.
  cbn [ends]. rewrite In_one, <- nth_error_skipn_cons. split.
  - intros (-> & c' & Hc' & Heq). apply Ascii.eqb_eq in Heq. now subst c'.
  - intros (-> & H). split; [reflexivity|]. exists c.
    split; [exact H | apply Ascii.eqb_refl].
Qed.

(** A literal string matches where the text continues with it. *)
Lemma In_Str s :
  forall text p q,
    In q (ends (Str s) text p)
    <-> q = (p + length s)%nat /\ exists rest, skipn p text = s ++ rest.
Proof.
  induction s as [|c s IH]; intros text p q.
  - cbn [Str ends length app]. split.
    + intros [<- | []]. split; [lia | eauto].
    + intros [-> _]. left. lia.
  - destruct s as [|c' s'].
    + cbn [Str]. rewrite In_Lit. cbn [length app].
      replace (p + 1)%nat with (S p) by lia. reflexivity.
    + change (Str (c :: c' :: s')) with (Cat (Lit c) (Str (c' :: s'))).
      cbn [ends]. rewrite in_flat_map. split.
      * intros (q1 & Hq1 & Hq). apply In_Lit in Hq1 as (-> & rest1 & H1).
        apply IH in Hq as (-> & rest & H).
        split; [cbn [length]; lia|]. exists rest.
        change (S p) with (1 + p)%nat in H.
        rewrite <- (skipn_skipn 1 p text), H1 in H. cbn [skipn] in H. rewrite skipn_O in H.
        rewrite H1. cbn [app]. now rewrite H.
      * intros (-> & rest & H).
        exists (S p). split; [apply In_Lit; split; [reflexivity|]; eauto|].
        apply IH. split; [cbn [length]; lia|]. exists rest.
        change (S p) with (1 + p)%nat.
        rewrite <- (skipn_skipn 1 p text), H. reflexivity.
Qed.

End MatchFacts.

(** ** The shape of a valid URL *)

Module UrlShape.

Import Regexp RegexpFacts MatchFacts Spider ShardFacts.

Lemma In_Cat r1 r2 text p q :
  In q (ends (Cat r1 r2) text p)
  <-> exists q1, In q1 (ends r1 text p) /\ In q (ends r2 text q1).
Proof. cbn [ends]. apply in_flat_map. Qed.

Lemma In_Repeat_Class min max negated ranges text p q :
  In q (ends (Repeat min max (Class negated ranges)) text p)
  <-> (p <= q)%nat
      /\ (min <= q - p <= match max with
                          | Some n => n
                          | None => min + (length text - p)
                          end)%nat
      /\ passes (class_matches negated ranges) text p q.
Proof. apply (In_rep (class_matches negated ranges) text). Qed.

(** [^r$] matches a text when [r] matches all of it. *)
Lemma MatchString_anchored r text :
  MatchString (Cat BeginText (Cat r EndText)) text = true
  <-> In (length text) (ends r text 0).
Proof.
  split.
  - intros Hm. unfold MatchString in Hm.
    apply existsb_exists in Hm as (p & _ & Hp). unfold matches_at in Hp.
    destruct (ends (Cat BeginText (Cat r EndText)) text p) as [|q l] eqn:He;
      [discriminate|].
    assert (Hin : In q (ends (Cat BeginText (Cat r EndText)) text p))
      by (rewrite He; now left).
    now apply ends_anchored in Hin.
  - intros Hin. unfold MatchString. apply existsb_exists.
    exists 0%nat. split; [apply in_seq; lia|]. unfold matches_at.
    assert (H : In (length text)
                   (ends (Cat BeginText (Cat r EndText)) text 0)).
    { apply In_Cat. exists 0%nat. split; [now left|].
      apply In_Cat. exists (length text). split; [exact Hin|].
      cbn [ends]. rewrite Nat.eqb_refl. now left. }
    destruct (ends (Cat BeginText (Cat r EndText)) text 0);
      [destruct H | reflexivity].
Qed.

(** The bytes of the three classes of [urlRe]. *)
Definition classOf (r : regex) (c : ascii) : bool :=
  match r with
  | Class negated ranges => class_matches negated ranges c
  | _ => false
  end.

Definition hostChar : ascii -> bool := classOf hostChars.
Definition tldChar : ascii -> bool := classOf tldChars.
Definition resourceChar : ascii -> bool := classOf resourceChars.

(** A URL as [urlRe] describes it: the scheme, 1 to 256 bytes of the
    host class, a dot, 1 to 6 bytes of the class of top-level domains,
    and any number of bytes of the resource class. *)
Definition urlShaped (url : gostring) : Prop :=
  exists host tld resource,
    url = ShardFacts.scheme ++ host ++ "."%char :: tld ++ resource
    /\ (1 <= length host <= 256)%nat /\ forallb hostChar host = true
    /\ (1 <= length tld <= 6)%nat /\ forallb tldChar tld = true
    /\ forallb resourceChar resource = true.

Lemma urlRe_shape url : MatchString urlRe url = true <-> urlShaped url.
Proof.
  unfold urlRe. cbv beta iota delta [Seq].
  rewrite MatchString_anchored.
  change (ends (Group None ?r) url 0) with (ends r url 0).
  split.
  - intros H.
    apply In_Cat in H as (q1 & H0 & H).
    apply In_Cat in H as (q2 & H1 & H).
    apply In_Cat in H as (q3 & H2 & H).
    apply In_Cat in H as (q4 & H3 & H4).
    apply In_Str in H0 as (-> & rest0 & H0).
    apply In_Repeat_Class in H1 as (Hle1 & Hn1 & Hp1).
    apply In_Lit in H2 as (-> & rest2 & H2).
    apply In_Repeat_Class in H3 as (Hle3 & Hn3 & Hp3).
    apply In_Repeat_Class in H4 as (Hle4 & Hn4 & Hp4).
    cbn [length gostr list_ascii_of_string Nat.add] in *.
    assert (Hdot : nth_error url q2 = Some "."%char)
      by (apply nth_error_skipn_cons; eauto).
    clear H2. rename Hdot into H2.
    assert (Hq2 : (q2 < length url)%nat)
      by (apply nth_error_Some; now rewrite H2).
    apply passes_slice in Hp1 as [_ Hall1]; [|lia].
    apply passes_slice in Hp3 as [_ Hall3]; [|lia].
    apply passes_slice in Hp4 as [_ Hall4]; [|lia].
    exists (slice url 8 q2), (slice url (S q2) q4),
           (slice url q4 (length url)).
    split; [|split; [|split; [|split; [|split]]]];
      try assumption.
    + rewrite <- (slice_all url) at 1.
      rewrite (slice_app url 0 8 (length url)) by lia.
      rewrite (slice_app url 8 q2 (length url)) by lia.
      rewrite (slice_app url q2 (S q2) (length url)) by lia.
      rewrite (slice_app url (S q2) q4 (length url)) by lia.
      rewrite (slice_one url q2 _ H2).
      rewrite skipn_O in H0.
      unfold slice at 1. rewrite skipn_O, H0. reflexivity.
    + destruct (slice_split url 8 q2) as [_ Hlen]; lia.
    + destruct (slice_split url (S q2) q4) as [_ Hlen]; lia.
  - intros (host & tld & resource & -> & Hh & Hhost & Ht & Htld & Hres).
    set (url := ShardFacts.scheme ++ host ++ "."%char :: tld ++ resource).
    assert (Hlen : length url
                   = (8 + length host + 1 + length tld + length resource)%nat).
    { unfold url. rewrite !length_app. cbn [length]. rewrite length_app.
      cbn. lia. }
    apply In_Cat. exists 8%nat. split.
    { apply In_Str. split; [reflexivity|]. rewrite skipn_O. eauto. }
    apply In_Cat. exists (8 + length host)%nat. split.
    { apply In_Repeat_Class. split; [lia|]. split; [lia|].
      apply (slice_passes hostChar ShardFacts.scheme host). exact Hhost. }
    apply In_Cat. exists (S (8 + length host)). split.
    { apply In_Lit. split; [reflexivity|]. exists (tld ++ resource).
      unfold url. rewrite app_assoc.
      replace (8 + length host)%nat
        with (length (ShardFacts.scheme ++ host))
        by (rewrite length_app; reflexivity).
      now rewrite skipn_app, Nat.sub_diag, skipn_all, skipn_O. }
    apply In_Cat. exists (S (8 + length host) + length tld)%nat. split.
    { apply In_Repeat_Class. split; [lia|]. split; [lia|].
      replace url
        with ((ShardFacts.scheme ++ host ++ ["."%char]) ++ tld ++ resource)
        by (unfold url; now rewrite <- !app_assoc).
      replace (S (8 + length host))
        with (length (ShardFacts.scheme ++ host ++ ["."%char]))
        by (rewrite !length_app; cbn; lia).
      apply slice_passes. exact Htld. }
    apply In_Repeat_Class. split; [lia|]. split; [cbn [Nat.add]; lia|].
    replace url
      with ((ShardFacts.scheme ++ host ++ "."%char :: tld) ++ resource ++ [])
      by (unfold url; rewrite app_nil_r, <- !app_assoc; reflexivity).
    replace (S (8 + length host) + length tld)%nat
      with (length (ShardFacts.scheme ++ host ++ "."%char :: tld))
      by (rewrite !length_app; cbn [length]; rewrite ?length_app; cbn; lia).
    replace (length ((ShardFacts.scheme ++ host ++ "."%char :: tld)
                     ++ resource ++ []))
      with (length (ShardFacts.scheme ++ host ++ "."%char :: tld)
            + length resource)%nat
      by (rewrite !length_app; cbn [length]; lia).
    apply slice_passes. exact Hres.
Qed.

(** What follows a byte that the first part of a text does not hold
    lies in the second part. *)
Lemma app_after_absent (c : ascii) (x res a path : gostring) :
  x ++ res = a ++ c :: path -> ~ In c x ->
  exists k, res = k ++ c :: path.
Proof.
  revert a. induction x as [|d x IH]; intros a H Hnin.
  - now exists a.
  - destruct a as [|d' a].
    + injection H as -> _. exfalso. apply Hnin. now left.
    + injection H as _ H. apply (IH a H). intros Hin. apply Hnin. now right.
Qed.

Lemma forallb_absent (f : ascii -> bool) c l :
  forallb f l = true -> f c = false -> ~ In c l.
Proof.
  intros Hall Hc Hin. rewrite forallb_forall in Hall.
  apply Hall in Hin. congruence.
Qed.

(** In a URL that [urlRe] accepts, what follows a slash after the
    scheme is made of bytes of the resource class. *)
Lemma urlRe_path_bytes authority path :
  MatchString urlRe (scheme ++ authority ++ "/"%char :: path) = true ->
  forallb resourceChar path = true.
Proof.
  intros Hm.
  apply urlRe_shape in Hm
    as (host & tld & resource & Heq & _ & Hhost & _ & Htld & Hres).
  apply app_inv_head in Heq.
  change (host ++ "."%char :: tld ++ resource)
    with (host ++ ("."%char :: tld) ++ resource) in Heq.
  rewrite app_assoc in Heq. symmetry in Heq.
  apply app_after_absent in Heq as [k ->].
  - rewrite forallb_app in Hres. apply andb_prop in Hres as [_ Hres].
    cbn [forallb] in Hres. now apply andb_prop in Hres as [_ Hres].
  - intros Hslash. apply in_app_or in Hslash as [Hslash | Hslash].
    + now apply (forallb_absent hostChar "/"%char host).
    + destruct Hslash as [Hslash | Hslash]; [discriminate|].
      now apply (forallb_absent tldChar "/"%char tld).
Qed.

(** *** The extensions *)

(** Expressions whose every byte is a literal that passes [P]. *)
Fixpoint literals (P : ascii -> bool) (r : regex) : bool :=
  match r with
  | Lit c => P c
  | Class _ _ | AnyCharNotNL => false
  | Cat r1 r2 | Alt r1 r2 => literals P r1 && literals P r2
  | Repeat _ _ r | Group _ r => literals P r
  | Empty | BeginText | EndText => true
  end.

Lemma passes_trans f text p q r :
  passes f text p q -> passes f text q r -> passes f text p r.
Proof.
  intros H1 H2 i Hi. destruct (Nat.lt_ge_cases i q).
  - apply H1. lia.
  - apply H2. lia.
Qed.

Lemma rep_passes f step text :
  (forall p q, In q (step p) -> (p <= q)%nat /\ passes f text p q) ->
  forall fuel min p q,
    In q (rep step min fuel p) -> (p <= q)%nat /\ passes f text p q.
Proof.
  intros Hstep. induction fuel as [|fuel IH]; intros min p q; cbn [rep].
  - destruct min; [|intros []]. intros [<- | []].
    split; [lia|]. intros i Hi. lia.
  - intros Hin. apply in_app_or in Hin as [Hin | Hin].
    + apply in_flat_map in Hin as (q1 & Hq1 & Hq).
      apply Hstep in Hq1 as [Hle1 Hp1]. apply IH in Hq as [Hle2 Hp2].
      split; [lia|]. now apply passes_trans with q1.
    + destruct min; [|destruct Hin]. destruct Hin as [<- | []].
      split; [lia|]. intros i Hi. lia.
Qed.

Lemma ends_literals P r text :
  literals P r = true ->
  forall p q, In q (ends r text p) -> (p <= q)%nat /\ passes P text p q.
Proof.
  assert (Hnil : forall p, (p <= p)%nat /\ passes P text p p)
    by (intros p; split; [lia|]; intros i Hi; lia).
  induction r as [ | c | neg rs | | r1 IH1 r2 IH2 | r1 IH1 r2 IH2
                 | min max r IH | name r IH | | ]; cbn [literals ends];
    intros Hr p q; try discriminate.
  - intros [<- | []]. apply Hnil.
  - intros Hin. apply In_one in Hin as (-> & c' & Hc' & Heq).
    apply Ascii.eqb_eq in Heq. subst c'. split; [lia|].
    intros i Hi. replace i with p by lia. now exists c.
  - apply andb_prop in Hr as [H1 H2]. intros Hin.
    apply in_flat_map in Hin as (q1 & Hq1 & Hq).
    apply (IH1 H1) in Hq1 as [Hle1 Hp1]. apply (IH2 H2) in Hq as [Hle2 Hp2].
    split; [lia|]. now apply passes_trans with q1.
  - apply andb_prop in Hr as [H1 H2]. intros Hin.
    apply in_app_or in Hin as [Hin | Hin]; [now apply IH1 | now apply IH2].
  - apply rep_passes. now apply IH.
  - now apply IH.
  - destruct (p =? 0)%nat; [|intros []]. intros [<- | []]. apply Hnil.
  - destruct (p =? length text)%nat; [|intros []]. intros [<- | []].
    apply Hnil.
Qed.

(** The bytes of the extensions: lower-case letters and digits. *)
Definition extensionByte (c : ascii) : bool :=
  class_matches false [rg "a" "z"; rg "0" "9"]%char c.

Lemma extAlternatives_literals :
  literals extensionByte (Alts extAlternatives) = true.
Proof. vm_compute. reflexivity. Qed.

(** A match of [extRe] ends the text with a dot and bytes of the
    extensions. *)
Lemma extRe_sound text :
  MatchString extRe text = true ->
  exists q,
    nth_error text q = Some "."%char
    /\ passes extensionByte text (S q) (length text).
Proof.
  unfold MatchString. intros Hm.
  apply existsb_exists in Hm as (p & _ & Hp). unfold matches_at in Hp.
  destruct (ends extRe text p) as [|e l] eqn:He; [discriminate|].
  assert (Hin : In e (ends extRe text p)) by (rewrite He; now left).
  clear He Hp. unfold extRe in Hin. cbv beta iota delta [Seq] in Hin.
  apply In_Cat in Hin as (q1 & _ & Hin).
  apply In_Cat in Hin as (q2 & Hdot & Hin).
  apply In_Cat in Hin as (q3 & Hext & Hend).
  apply In_Lit in Hdot as (-> & rest & Hdot).
  apply (ends_literals _ _ _ extAlternatives_literals) in Hext as [_ Hext].
  cbn [ends] in Hend.
  destruct (Nat.eqb_spec q3 (length text)) as [->|_]; [|destruct Hend].
  exists q1. split; [|exact Hext].
  apply nth_error_skipn_cons. eauto.
Qed.

Lemma lower_byte_dot c : GoStrings.lower_byte c = "."%char -> c = "."%char.
Proof.
  unfold GoStrings.lower_byte.
  destruct ((65 <=? byteZ c) && (byteZ c <=? 90)) eqn:Hup; [|auto].
  apply andb_prop in Hup as [H1 H2].
  apply Z.leb_le in H1, H2. intros H.
  apply (f_equal byteZ) in H. unfold byteZ at 1 in H.
  rewrite N_ascii_embedding in H by lia.
  rewrite Z2N.id in H by lia. vm_compute (byteZ ".") in H. lia.
Qed.

(** [extRe] matches no URL that [urlRe] accepts and that has a slash
    after the scheme. *)
Lemma extRe_no_match_with_path authority path :
  MatchString urlRe (scheme ++ authority ++ "/"%char :: path) = true ->
  MatchString extRe
    (GoStrings.ToLower (scheme ++ authority ++ "/"%char :: path)) = false.
Proof.
  intros Hurl.
  destruct (MatchString extRe _) eqn:Hm; [|reflexivity]. exfalso.
  apply extRe_sound in Hm as (q & Hdot & Hafter).
  unfold GoStrings.ToLower in Hdot, Hafter.
  rewrite length_map in Hafter.
  apply urlRe_path_bytes in Hurl.
  set (url := scheme ++ authority ++ "/"%char :: path) in *.
  set (k := (8 + length authority)%nat).
  assert (Hk : nth_error url k = Some "/"%char).
  { unfold url, k. rewrite nth_error_app2 by (cbn; lia).
    rewrite nth_error_app2 by (cbn; lia).
    replace (8 + length authority - length scheme - length authority)%nat
      with 0%nat by (cbn; lia).
    reflexivity. }
  assert (Hlen : (k < length url)%nat)
    by (apply nth_error_Some; now rewrite Hk).
  destruct (Nat.lt_trichotomy q k) as [Hlt | [-> | Hgt]].
  - destruct (Hafter k) as (c & Hc & Hp); [lia|].
    rewrite nth_error_map, Hk in Hc. cbn in Hc. injection Hc as <-.
    discriminate.
  - rewrite nth_error_map, Hk in Hdot. discriminate.
  - rewrite nth_error_map in Hdot.
    destruct (nth_error url q) as [c|] eqn:Hq; [|discriminate].
    cbn [option_map] in Hdot. injection Hdot as Hdot.
    apply lower_byte_dot in Hdot. subst c.
    assert (Hin : In "."%char path).
    { unfold url in Hq. rewrite app_assoc in Hq.
      rewrite nth_error_app2 in Hq by (rewrite length_app; cbn; lia).
      rewrite length_app in Hq.
      replace (q - (length scheme + length authority))%nat
        with (S (q - k - 1)) in Hq by (unfold k; cbn; lia).
      cbn [nth_error] in Hq. now apply nth_error_In in Hq. }
    now apply (forallb_absent resourceChar "."%char path).
Qed.

Section WithOracle.

Context {OracleState : Type}.
Variable isWordPressWebsite : gostring -> OracleState -> bool * OracleState.
Variable getHostname : gostring -> gostring.

(** X8: [urlRe] accepts exactly the URLs of the shape [urlShaped]: the
    scheme [https://], 1 to 256 bytes of the host class, a dot, 1 to 6
    bytes of the class of top-level domains, then bytes of the resource
    class.  So [urlValid] answers [true] only for URLs of this shape,
    and answers [false] without asking the oracle for every other
    string. *)
Theorem urlValid_shape url o :
  (MatchString urlRe url = true <-> urlShaped url)
  /\ (fst (urlValid isWordPressWebsite getHostname url o) = true ->
      urlShaped url)
  /\ (~ urlShaped url ->
      urlValid isWordPressWebsite getHostname url o = (false, o)).
Proof.
  split; [apply urlRe_shape|]. unfold urlValid.
  destruct (MatchString urlRe url) eqn:Hm; cbn [andb].
  - apply urlRe_shape in Hm. split; [now intros _|]. now intros H.
  - split; [discriminate | reflexivity].
Qed.

(** X9: a URL in which a slash after the scheme is followed, anywhere,
    by a byte outside the resource class (a dot, a percent sign, an
    ampersand, ...) fails [urlRe], and [urlValid] rejects it without
    asking the oracle. *)
Theorem urlValid_rejects_path_byte authority path c o :
  In c path -> resourceChar c = false ->
  MatchString urlRe (scheme ++ authority ++ "/"%char :: path) = false
  /\ urlValid isWordPressWebsite getHostname
       (scheme ++ authority ++ "/"%char :: path) o = (false, o).
Proof.
  intros Hin Hc.
  assert (Hm : MatchString urlRe (scheme ++ authority ++ "/"%char :: path)
               = false).
  { destruct (MatchString urlRe _) eqn:Hm; [|reflexivity]. exfalso.
    apply urlRe_path_bytes in Hm.
    now apply (forallb_absent resourceChar c path). }
  split; [exact Hm|]. unfold urlValid. now rewrite Hm.
Qed.

(** X10: the extension filter never fires on a URL with a path.  When
    [urlRe] accepts a URL with a slash after the scheme, [extRe] does
    not match it, and the answer of [urlValid] is the answer of the
    oracle. *)
Theorem extRe_idle_on_paths authority path o :
  let url := scheme ++ authority ++ "/"%char :: path in
  MatchString urlRe url = true ->
  MatchString extRe (GoStrings.ToLower url) = false
  /\ urlValid isWordPressWebsite getHostname url o
     = isWordPressWebsite (getHostname url) o.
Proof.
  cbv zeta. intros Hurl.
  pose proof (extRe_no_match_with_path authority path Hurl) as Hext.
  split; [exact Hext|]. unfold urlValid. now rewrite Hurl, Hext.
Qed.

End WithOracle.

End UrlShape.

(** ** Host names *)

Module HostFacts.

Import Regexp RegexpFacts MatchFacts UrlShape Spider ShardFacts.

Lemma find_from_Some r text :
  forall fuel p a b,
    find_from r text fuel p = Some (a, b) ->
    (p <= a <= p + fuel)%nat /\ exists l, ends r text a = b :: l.
Proof.
  induction fuel as [|fuel IH]; intros p a b; cbn [find_from];
    destruct (ends r text p) as [|q l] eqn:He.
  - discriminate.
  - intros [= <- <-]. split; [lia|]. eauto.
  - intros H. apply IH in H as [Hle Hl]. split; [lia | exact Hl].
  - intros [= <- <-]. split; [lia|]. eauto.
Qed.

Lemma find_from_None r text :
  forall fuel p,
    find_from r text fuel p = None ->
    forall i, (p <= i <= p + fuel)%nat -> ends r text i = [].
Proof.
  induction fuel as [|fuel IH]; intros p; cbn [find_from];
    destruct (ends r text p) as [|q l] eqn:He; try discriminate.
  - intros _ i Hi. now replace i with p by lia.
  - intros H i Hi. destruct (Nat.eq_dec i p) as [->|Hne]; [exact He|].
    apply (IH (S p)); [exact H | lia].
Qed.

(** [findHostName] returns the leftmost match of [domainRe]. *)
Lemma findHostName_find url :
  findHostName url
  = match find_from domainRe url (length url) 0 with
    | Some (a, b) => slice url a b
    | None => []
    end.
Proof.
  unfold findHostName, FindAllStringSubmatch, FindAllString.
  cbn [find_all]. rewrite Nat.sub_0_r.
  now destruct (find_from domainRe url (length url) 0) as [[a b]|].
Qed.

Lemma domainChar_dot : domainChar "."%char = true.
Proof. reflexivity. Qed.

(** Every match of [domainRe] is the scheme followed by a host. *)
Lemma domainRe_sound text p e :
  In e (ends domainRe text p) ->
  exists host,
    hostShaped host /\ slice text p e = scheme ++ host
    /\ (p <= e <= length text)%nat /\ e = (p + 8 + length host)%nat.
Proof.
  unfold domainRe, Plus, domainChars. cbv beta iota delta [Seq].
  intros H.
  apply In_Cat in H as (q1 & H0 & H).
  apply In_Cat in H as (q2 & H1 & H).
  apply In_Cat in H as (q3 & H2 & H3).
  apply In_Str in H0 as (-> & rest0 & H0).
  apply In_Repeat_Class in H1 as (Hle1 & Hn1 & Hp1).
  apply In_Lit in H2 as (-> & rest2 & H2).
  apply In_Repeat_Class in H3 as (Hle3 & Hn3 & Hp3).
  cbn [length gostr list_ascii_of_string] in *.
  assert (Hdot : nth_error text q2 = Some "."%char)
    by (apply nth_error_skipn_cons; eauto).
  apply passes_slice in Hp1 as [_ Hall1]; [|lia].
  apply passes_slice in Hp3 as [Hlen3 Hall3]; [|lia].
  change (forallb domainChar (slice text (p + 8) q2) = true) in Hall1.
  change (forallb domainChar (slice text (S q2) e) = true) in Hall3.
  assert (He : (e <= length text)%nat) by lia.
  destruct (slice_split text (p + 8) q2) as [_ Hlen1]; [lia|].
  destruct (slice_split text (S q2) e) as [_ Hlen2]; [lia|].
  exists (slice text (p + 8) q2 ++ "."%char :: slice text (S q2) e).
  split; [split|split; [|split]].
  - rewrite forallb_app. cbn [forallb].
    now rewrite Hall1, Hall3, domainChar_dot.
  - exists (slice text (p + 8) q2), (slice text (S q2) e).
    split; [reflexivity|].
    split; intros Hnil; rewrite Hnil in *; cbn [length] in *; lia.
  - rewrite (slice_app text p (p + 8) e) by lia.
    rewrite (slice_app text (p + 8) q2 e) by lia.
    rewrite (slice_app text q2 (S q2) e) by lia.
    rewrite (slice_one text q2 _ Hdot).
    f_equal. unfold slice.
    replace (p + 8 - p)%nat with 8%nat by lia. now rewrite H0.
  - lia.
  - rewrite length_app. cbn [length]. lia.
Qed.

(** A text splits into its longest prefix that passes [f] and the
    rest. *)
Lemma run_split (f : ascii -> bool) (l : gostring) :
  exists run rest,
    l = run ++ rest /\ forallb f run = true
    /\ match rest with [] => True | c :: _ => f c = false end.
Proof.
  induction l as [|c l (run & rest & -> & Hrun & Hrest)].
  - now exists [], [].
  - destruct (f c) eqn:Hc.
    + exists (c :: run), rest. cbn [forallb app]. now rewrite Hc, Hrun.
    + now exists [], (c :: run ++ rest).
Qed.

Lemma domainRe_unanchored : unanchored domainRe = true.
Proof. reflexivity. Qed.

(** A host that is written in [url] after the scheme is found, with the
    bytes of the host class that follow it. *)
Lemma domainRe_complete pre host post :
  hostShaped host ->
  exists run rest l,
    post = run ++ rest /\ hostShaped (host ++ run) /\ endsHost rest
    /\ ends domainRe (pre ++ scheme ++ host ++ post) (length pre)
       = (length pre + (8 + length (host ++ run)))%nat :: l.
Proof.
  intros (Hall & a & b & -> & Ha & Hb).
  destruct (run_split domainChar post) as (run & rest & -> & Hrun & Hrest).
  exists run, rest.
  assert (Hshape : hostShaped ((a ++ "."%char :: b) ++ run)).
  { split; [now rewrite forallb_app, Hall, Hrun|].
    exists a, (b ++ run). rewrite <- app_assoc. split; [reflexivity|].
    split; [exact Ha|]. destruct b; [contradiction | discriminate]. }
  destruct (ends_domainRe_host _ rest Hshape Hrest) as [l Hl].
  exists (map (Nat.add (length pre)) l).
  split; [reflexivity|]. split; [exact Hshape|]. split; [exact Hrest|].
  replace (length pre) with (length pre + 0)%nat at 1 by lia.
  replace (scheme ++ (a ++ "."%char :: b) ++ run ++ rest)
    with (scheme ++ ((a ++ "."%char :: b) ++ run) ++ rest)
    by now rewrite <- !app_assoc.
  rewrite (ends_shift domainRe pre _ domainRe_unanchored), Hl.
  reflexivity.
Qed.

Lemma findHostName_cases url :
  findHostName url = []
  \/ exists pre host post,
       url = pre ++ scheme ++ host ++ post
       /\ hostShaped host /\ endsHost post
       /\ findHostName url = scheme ++ host.
Proof.
  rewrite findHostName_find.
  destruct (find_from domainRe url (length url) 0) as [[a b]|] eqn:Hfind;
    [right | now left].
  apply find_from_Some in Hfind as [_ [l Hl]].
  assert (Hin : In b (ends domainRe url a)) by (rewrite Hl; now left).
  apply domainRe_sound in Hin as (host0 & Hshape0 & Hslice & Hle & Hb).
  destruct (slice_split url a b Hle) as [Hurl _].
  rewrite Hslice in Hurl.
  destruct (domainRe_complete (firstn a url) host0 (skipn b url) Hshape0)
    as (run & rest & l' & Hpost & Hshape & Hrest & Hends).
  rewrite <- app_assoc in Hurl. rewrite <- Hurl in Hends.
  rewrite length_firstn in Hends.
  replace (Nat.min a (length url)) with a in Hends by lia.
  rewrite Hl in Hends. injection Hends as Hb' _.
  rewrite length_app in Hb'.
  assert (Hrun : run = []) by (destruct run; [reflexivity | cbn in Hb'; lia]).
  subst run. cbn [app] in Hpost. rewrite app_nil_r in Hshape.
  exists (firstn a url), host0, (skipn b url).
  split; [exact Hurl|]. split; [exact Hshape0|].
  split; [now rewrite Hpost | exact Hslice].
Qed.

Lemma findHostName_found pre host post :
  hostShaped host -> findHostName (pre ++ scheme ++ host ++ post) <> [].
Proof.
  intros Hshape.
  destruct (domainRe_complete pre host post Hshape)
    as (run & rest & l & _ & _ & _ & Hends).
  set (url := pre ++ scheme ++ host ++ post) in *.
  rewrite findHostName_find.
  destruct (find_from domainRe url (length url) 0) as [[a b]|] eqn:Hfind.
  - apply find_from_Some in Hfind as [_ [l' Hl]].
    assert (Hin : In b (ends domainRe url a)) by (rewrite Hl; now left).
    apply domainRe_sound in Hin as (host0 & _ & -> & _).
    discriminate.
  - rewrite (find_from_None _ _ _ _ Hfind (length pre)) in Hends;
      [discriminate|].
    unfold url. rewrite length_app. lia.
Qed.

(** X6: [findHostName] finds a host name exactly in the URLs in which
    the scheme [https://] is somewhere followed by a host (bytes other
    than white space, [:], [/] and [@], with a dot that is neither the
    first nor the last of them); what it returns is then the scheme and
    such a host as they stand in the URL, and the host ends where the
    URL ends or a byte that cannot be part of a host follows. *)
Theorem findHostName_spec url :
  (findHostName url <> []
   <-> exists pre host post,
         url = pre ++ scheme ++ host ++ post /\ hostShaped host)
  /\ (findHostName url <> [] ->
      exists pre host post,
        url = pre ++ scheme ++ host ++ post
        /\ hostShaped host /\ endsHost post
        /\ findHostName url = scheme ++ host).
Proof.
  assert (Hcases : findHostName url <> [] ->
            exists pre host post,
              url = pre ++ scheme ++ host ++ post
              /\ hostShaped host /\ endsHost post
              /\ findHostName url = scheme ++ host).
  { intros Hne. destruct (findHostName_cases url) as [Hnil | H];
      [contradiction | exact H]. }
  split; [|exact Hcases]. split.
  - intros Hne.
    destruct (Hcases Hne) as (pre & host & post & Hurl & Hshape & _).
    now exists pre, host, post.
  - intros (pre & host & post & -> & Hshape).
    now apply findHostName_found.
Qed.

(** X7: [findHostName] is idempotent, hence a URL and its host name go
    to the same shard (or both calls of the router panic). *)
Theorem findHostName_idempotent numRoutines url :
  findHostName (findHostName url) = findHostName url
  /\ calcWebsiteToRoutineNum numRoutines (findHostName url)
     = calcWebsiteToRoutineNum numRoutines url.
Proof.
  assert (H : findHostName (findHostName url) = findHostName url).
  { destruct (findHostName_cases url)
      as [-> | (pre & host & post & _ & Hshape & _ & ->)];
      [reflexivity|].
    rewrite <- (app_nil_r host) at 1.
    now apply findHostName_host. }
  split; [exact H|]. unfold calcWebsiteToRoutineNum. now rewrite H.
Qed.

End HostFacts.

(** ** Discovered links *)

Module DiscoveryFacts.

Import Regexp Common Spider.

(** The URL that [constructProperURLs] makes of a link: a link that
    starts with a slash is put behind the host name of the root, any
    other link loses one trailing slash. *)
Definition resolve (hostName urlStr : gostring) : gostring :=
  match urlStr with
  | c :: _ =>
      if Ascii.eqb c "/" then hostName ++ urlStr
      else GoStrings.TrimSuffix urlStr (gostr "/")
  | [] => []
  end.

Lemma HasSuffix_slash (s : gostring) :
  GoStrings.HasSuffix s (gostr "/") = Legacy.lastIsSlash s.
Proof.
  unfold GoStrings.HasSuffix, Legacy.lastIsSlash.
  destruct (rev s) as [|c r] eqn:Hrev.
  - apply (f_equal (@rev ascii)) in Hrev. rewrite rev_involutive in Hrev.
    now subst s.
  - apply (f_equal (@rev ascii)) in Hrev. rewrite rev_involutive in Hrev.
    subst s. cbn [rev]. rewrite length_app. cbn [length].
    replace (length (rev r) + 1 - 1)%nat with (length (rev r)) by lia.
    rewrite nth_error_app2, Nat.sub_diag by lia. cbn.
    destruct (Ascii.eqb c "/"), r; reflexivity.
Qed.

Section WithOracle.

Context {OracleState : Type}.
Variable isWordPressWebsite : gostring -> OracleState -> bool * OracleState.
Variable getHostname : gostring -> gostring.

Local Abbreviation urlValid := (urlValid isWordPressWebsite getHostname).
Local Abbreviation constructProperURLs :=
  (constructProperURLs isWordPressWebsite getHostname).

(** Every member of the set the loop builds was in the set before, or
    is what [resolve] makes of a link, and passed [urlValid] when the
    loop came to it. *)
Lemma loop_members hostName urls :
  forall properURLs o set o' url,
    constructProperURLs_loop isWordPressWebsite getHostname
      hostName urls properURLs o = Some (set, o') ->
    Contains set url = true ->
    Contains properURLs url = true
    \/ exists urlStr o1,
         In urlStr urls /\ url = resolve hostName urlStr
         /\ fst (urlValid url o1) = true.
Proof.
  induction urls as [|urlStr urls IH];
    intros properURLs o set o' url Hrun Hin.
  - injection Hrun as <- <-. now left.
  - cbn [constructProperURLs_loop] in Hrun.
    destruct urlStr as [|c rest]; [discriminate|].
    change (if Ascii.eqb c "/" then hostName ++ c :: rest
            else GoStrings.TrimSuffix (c :: rest) (gostr "/"))
      with (resolve hostName (c :: rest)) in Hrun.
    destruct (urlValid (resolve hostName (c :: rest)) o)
      as [valid o1] eqn:Hvalid.
    destruct (IH _ _ _ _ _ Hrun Hin) as [Hold | (u & o2 & Hu & Hr & Hv)].
    + destruct valid; [|now left].
      unfold Contains, Add in Hold. cbn [m] in Hold.
      destruct (decide (resolve hostName (c :: rest) = url)) as [<-|Hne].
      * right. exists (c :: rest), o. split; [now left|].
        split; [reflexivity | now rewrite Hvalid].
      * left. now rewrite lookup_insert_ne in Hold.
    + right. exists u, o2. split; [now right | now split].
Qed.

(** X11: every URL in the set that [constructProperURLs] returns comes
    from one of the links: it is the host name of the root followed by a
    link that starts with a slash, or another link without one trailing
    slash; the root has a host name, and the URL passed [urlValid] when
    the loop came to it. *)
Theorem constructProperURLs_members urls root o set o' url :
  constructProperURLs urls root o = Some (set, o') ->
  Contains set url = true ->
  exists urlStr o1,
    In urlStr urls
    /\ url = resolve (findHostName root) urlStr
    /\ findHostName root <> []
    /\ fst (urlValid url o1) = true.
Proof.
  unfold Spider.constructProperURLs. intros Hrun Hin.
  destruct (findHostName root) as [|c hostName] eqn:Hhost.
  - injection Hrun as <- <-. discriminate.
  - destruct (loop_members _ _ _ _ _ _ _ Hrun Hin)
      as [Hold | (u & o1 & Hu & Hr & Hv)]; [discriminate|].
    exists u, o1. repeat split; try assumption. discriminate.
Qed.

End WithOracle.

End DiscoveryFacts.

(** ** Page files *)

Module StoreFacts.

Import Common Spider FileFacts.

Lemma inDirectory_inj dir name1 name2 :
  inDirectory dir name1 = inDirectory dir name2 -> name1 = name2.
Proof.
  unfold inDirectory.
  destruct (bool_decide (dir = Filepath.dot)); [auto|].
  destruct (bool_decide (dir = [slash])).
  - now intros [= H].
  - intros H. apply app_inv_head in H. now injection H.
Qed.

Lemma fileNameOf_hash s url1 url2 :
  fileNameOf s url1 = fileNameOf s url2 <-> hash url1 = hash url2.
Proof.
  split.
  - rewrite !fileNameOf_spec. intros H.
    apply inDirectory_inj, app_inv_tail in H.
    apply (f_equal readDecimal) in H.
    rewrite !FormatUint_read in H
      by apply (ShardFacts.Sum64a_range _).
    now injection H.
  - unfold fileNameOf. now intros ->.
Qed.

(** X24: for a page directory that is not the empty string, the file
    name that the earlier copy builds by concatenation is, once cleaned,
    the name that the current copy builds with [filepath.Join]; for the
    empty page directory the earlier copy names a file in the root
    directory, and the current copy the same file name without the
    leading slash, in the working directory. *)
Theorem legacy_fileNameOf_agrees s url :
  (workingDirectory s <> [] ->
   Filepath.Clean (Legacy.fileNameOf s url) = fileNameOf s url)
  /\ (workingDirectory s = [] ->
      Legacy.fileNameOf s url = "/"%char :: fileNameOf s url
      /\ fileNameOf s url = Strconv.FormatUint (hash url) ++ gostr ".json").
Proof.
  unfold Legacy.fileNameOf, fileNameOf.
  pose proof (page_file_name_plain (hash url)) as Hplain.
  set (name := Strconv.FormatUint (hash url) ++ gostr ".json") in *.
  change (workingDirectory s ++ gostr "/"
          ++ Strconv.FormatUint (hash url) ++ gostr ".json")
    with (workingDirectory s ++ "/"%char :: name).
  split.
  - intros Hdir. destruct (workingDirectory s) as [|d dir];
      [contradiction|].
    destruct Hplain as (Hne & _).
    destruct name as [|c name]; [contradiction | reflexivity].
  - intros ->. cbn [app].
    assert (Hjoin : Filepath.Join [] name = name).
    { destruct Hplain as (Hne & Hrest).
      destruct name as [|c name]; [contradiction|]. cbn [Filepath.Join].
      apply Clean_plain. now split. }
    now rewrite Hjoin.
Qed.

Section WithCollaborators.

Context {OracleState : Type}.
Variable Serialize : WebPage -> gostring.

Local Abbreviation World := (@World OracleState).

(** The answer of [pageDownloaded] in a state. *)
Definition downloaded (s : SearchHouseSpider) (url : gostring) (w : World)
    : bool :=
  bool_decide (is_Some (files w !! fileNameOf s url)).

(** X13: two URLs have the same page file exactly when they have the
    same [hash]; [pageDownloaded] then gives the same answer for both,
    in every state. *)
Theorem page_file_shared_iff s url1 url2 :
  (fileNameOf s url1 = fileNameOf s url2 <-> hash url1 = hash url2)
  /\ (hash url1 = hash url2 ->
      forall w : World,
        pageDownloaded s url1 w = pageDownloaded s url2 w).
Proof.
  split; [apply fileNameOf_hash|].
  intros Heq w. unfold pageDownloaded.
  apply (fileNameOf_hash s) in Heq. now rewrite Heq.
Qed.

(** X14: once [writeToDisk] has written a page, [pageDownloaded]
    answers [true] for the URL of the page and for every URL with the
    same [hash], and answers for every other URL what it answered
    before. *)
Theorem writeToDisk_pageDownloaded s page (w w' : World) :
  writeToDisk Serialize s page w = Some (tt, w') ->
  forall url,
    pageDownloaded s url w'
    = Some (bool_decide (hash url = hash (Url page))
            || downloaded s url w, w').
Proof.
  intros [= <-] url.
  unfold pageDownloaded, downloaded. cbn [files]. f_equal. f_equal.
  destruct (decide (hash url = hash (Url page))) as [Heq|Hne].
  - rewrite (bool_decide_eq_true_2 _ Heq).
    apply fileNameOf_hash with (s := s) in Heq. rewrite Heq.
    rewrite lookup_insert_eq. apply bool_decide_eq_true_2. eauto.
  - rewrite (bool_decide_eq_false_2 _ Hne). cbn [orb].
    rewrite lookup_insert_ne; [reflexivity|].
    intros Heq. apply Hne. symmetry. now apply (fileNameOf_hash s).
Qed.

Lemma setSeed_effect s urls :
  forall w : World,
    exists w',
      setSeed s urls w = Some (tt, w')
      /\ files w' = files w /\ trace w' = trace w
      /\ wordpressSites w' = wordpressSites w
      /\ default [] (frontier w' !! 0)
         = default [] (frontier w !! 0)
           ++ List.filter (fun url => negb (downloaded s url w)) urls
      /\ forall k, k <> 0 -> frontier w' !! k = frontier w !! k.
Proof.
  induction urls as [|url urls IH]; intros w; cbn [setSeed].
  - exists w. cbn [List.filter]. rewrite app_nil_r. now repeat split.
  - unfold bind at 1. unfold pageDownloaded at 1.
    fold (downloaded s url w).
    destruct (downloaded s url w) eqn:Hd.
    + unfold bind at 1. unfold ret at 1.
      destruct (IH w) as (w' & Hrun & Hrest). exists w'.
      split; [exact Hrun|]. cbn [List.filter]. rewrite Hd. exact Hrest.
    + unfold bind at 1. unfold InsertPage at 1.
      match goal with
      | |- context [setSeed s urls ?w0] =>
          destruct (IH w0) as (w' & Hrun & Hf & Ht & Ho & H0 & Hk)
      end.
      exists w'. split; [exact Hrun|].
      cbn [files trace wordpressSites frontier] in *.
      split; [exact Hf|]. split; [exact Ht|]. split; [exact Ho|].
      split.
      * rewrite H0, lookup_insert_eq. cbn [from_option id List.filter].
        rewrite Hd. cbn [negb]. rewrite <- app_assoc. reflexivity.
      * intros k Hne. rewrite (Hk k Hne).
        now rewrite lookup_insert_ne by congruence.
Qed.

(** X15: [NewSpider] returns a spider with the given fields.  It
    appends to the queue of shard 0, in their order, the seed URLs that
    have no page file yet, whatever shard the router assigns to them
    and whether or not they are valid URLs; the other shards, the page
    files and the oracle stay as they are. *)
Theorem NewSpider_effect numRoutines workingDirectory seed maxLinks
    (w : World) cs w' :
  NewSpider numRoutines workingDirectory seed maxLinks w = Some (cs, w') ->
  cs = {| Spider.numRoutines := numRoutines;
          Spider.workingDirectory := workingDirectory;
          maxLinksPerPage := maxLinks |}
  /\ files w' = files w /\ trace w' = trace w
  /\ wordpressSites w' = wordpressSites w
  /\ default [] (frontier w' !! 0)
     = default [] (frontier w !! 0)
       ++ List.filter (fun url => negb (downloaded cs url w)) seed
  /\ forall k, k <> 0 -> frontier w' !! k = frontier w !! k.
Proof.
  unfold NewSpider.
  destruct (setSeed_effect
              {| Spider.numRoutines := numRoutines;
                 Spider.workingDirectory := workingDirectory;
                 maxLinksPerPage := maxLinks |} seed w)
    as (w1 & Hrun & Hrest).
  unfold bind. rewrite Hrun. unfold ret. intros [= <- <-].
  split; [reflexivity | exact Hrest].
Qed.

End WithCollaborators.

End StoreFacts.

(** ** The iterations of the crawl loop *)

Module IterationFacts.

Import Common Spider CrawlFacts.

Section WithCollaborators.

Context {OracleState : Type}.
Variable isWordPressWebsite : gostring -> OracleState -> bool * OracleState.
Variable getHostname : gostring -> gostring.
Variable fingerprintsOf : gostring -> gset Z.
Variable Serialize : WebPage -> gostring.
Variable FindAllAnchorHREFs : WebPage -> Z -> list gostring.

Local Abbreviation World := (@World OracleState).
Local Abbreviation M := (@M OracleState).
Local Abbreviation Crawl_iteration :=
  (Crawl_iteration isWordPressWebsite getHostname fingerprintsOf
                   Serialize FindAllAnchorHREFs).
Local Abbreviation run :=
  (run isWordPressWebsite getHostname fingerprintsOf Serialize
       FindAllAnchorHREFs).
Local Abbreviation urlValid := (urlValid isWordPressWebsite getHostname).

(** The URL that [PopURL] hands to the worker: the head of the queue of
    its shard, or the empty string. *)
Definition nextUrl (w : World) (routineNum : Z) : gostring :=
  match frontier w !! routineNum with
  | Some (url :: _) => url
  | _ => []
  end.

Lemma insertAnchors_frame s keys :
  forall (w w' : World),
    insertAnchors s keys w = Some (tt, w') ->
    files w' = files w /\ trace w' = trace w
    /\ wordpressSites w' = wordpressSites w.
Proof.
  induction keys as [|key keys IH]; intros w w'; cbn [insertAnchors].
  - intros [= <-]. now repeat split.
  - unfold bind at 1. unfold pageDownloaded at 1.
    destruct (bool_decide (is_Some (files w !! fileNameOf s key))).
    + unfold bind, ret. apply IH.
    + unfold bind at 1. unfold bind at 1. unfold orPanic.
      destruct (calcWebsiteToRoutineNum (numRoutines s) key) as [r|];
        [|discriminate].
      unfold InsertPage. intros H. apply IH in H. exact H.
Qed.

(** The page built from a response. *)
Definition fetchedPage (env : Env) (url body : gostring) : WebPage :=
  NewWebPage fingerprintsOf (time_Now_Unix env) url (gostr "200 OK") body.

(** The paths through one iteration of the loop of [Crawl]: the actions
    of [Crawl], the index, the page files and the state of the oracle
    at the end.  The oracle is asked once about the URL taken from the
    queue, and on the path of an admission again about the links; what
    it requests from the network on these occasions is part of its own
    step and not among the actions of [Crawl]. *)
Inductive Path (s : SearchHouseSpider) (env : Env) (routineNum : Z)
    (fp : Index) (w : World) (url : gostring)
    : list Event -> Index -> gmap gostring gostring -> OracleState -> Prop :=
| PathIdle :
    url = [] ->
    Path s env routineNum fp w url [EvSleep 1] fp (files w)
         (wordpressSites w)
| PathInvalid :
    url <> [] -> fst (urlValid url (wordpressSites w)) = false ->
    Path s env routineNum fp w url [] fp (files w)
         (snd (urlValid url (wordpressSites w)))
| PathDownloaded :
    url <> [] -> fst (urlValid url (wordpressSites w)) = true ->
    is_Some (files w !! fileNameOf s url) ->
    Path s env routineNum fp w url [] fp (files w)
         (snd (urlValid url (wordpressSites w)))
| PathFailed :
    url <> [] -> fst (urlValid url (wordpressSites w)) = true ->
    files w !! fileNameOf s url = None ->
    (forall body, http_Get env url <> GetOk (gostr "200 OK") (Some body)) ->
    Path s env routineNum fp w url [EvGet url; EvSleep 5] fp (files w)
         (snd (urlValid url (wordpressSites w)))
| PathRejected body :
    url <> [] -> fst (urlValid url (wordpressSites w)) = true ->
    files w !! fileNameOf s url = None ->
    http_Get env url = GetOk (gostr "200 OK") (Some body) ->
    validPage (fetchedPage env url body) = false
    \/ duplicateExists fp (fetchedPage env url body) = true ->
    Path s env routineNum fp w url [EvGet url] fp (files w)
         (snd (urlValid url (wordpressSites w)))
| PathAdmission body anchors o' :
    url <> [] -> fst (urlValid url (wordpressSites w)) = true ->
    files w !! fileNameOf s url = None ->
    http_Get env url = GetOk (gostr "200 OK") (Some body) ->
    validPage (fetchedPage env url body) = true ->
    duplicateExists fp (fetchedPage env url body) = false ->
    constructProperURLs isWordPressWebsite getHostname
      (FindAllAnchorHREFs (fetchedPage env url body) (maxLinksPerPage s))
      url (snd (urlValid url (wordpressSites w)))
    = Some (anchors, o') ->
    Path s env routineNum fp w url
      [EvGet url; EvAdmit routineNum (fetchedPage env url body); EvSleep 5]
      (InsertFingerprintsUsingWebpage fp (fetchedPage env url body))
      (<[fileNameOf s url := Serialize (fetchedPage env url body)]>
         (files w))
      o'.

Lemma Crawl_iteration_path s env routineNum fp w fp' w' :
  Crawl_iteration s env routineNum fp w = Some (fp', w') ->
  exists evs,
    trace w' = trace w ++ evs
    /\ Path s env routineNum fp w (nextUrl w routineNum) evs fp' (files w')
            (wordpressSites w').
Proof.
  unfold Spider.Crawl_iteration, nextUrl, bind at 1, PopURL.
  destruct (frontier w !! routineNum) as [[|url rest]|] eqn:Hpop.
  1,3: unfold bind, Sleep, emit, ret; intros [= <- <-];
       exists [EvSleep 1]; cbn [trace files wordpressSites];
       (split; [reflexivity | now apply PathIdle]).
  destruct url as [|c url].
  { unfold bind, Sleep, emit, ret; intros [= <- <-].
    exists [EvSleep 1]. cbn [trace files wordpressSites].
    split; [reflexivity | now apply PathIdle]. }
  set (u := c :: url) in *.
  assert (Hne : u <> []) by discriminate.
  unfold bind at 1, withOracle. cbn [wordpressSites].
  destruct (urlValid u (wordpressSites w)) as [valid o] eqn:Hvalid.
  assert (Ho : o = snd (urlValid u (wordpressSites w)))
    by now rewrite Hvalid.
  destruct valid; cbn [negb].
  2:{ unfold ret. intros [= <- <-]. exists [].
      cbn [trace files wordpressSites].
      rewrite app_nil_r. split; [reflexivity|]. rewrite Ho.
      apply PathInvalid; [exact Hne | now rewrite Hvalid]. }
  assert (Hv : fst (urlValid u (wordpressSites w)) = true)
    by now rewrite Hvalid.
  unfold bind at 1, pageDownloaded. cbn [files].
  destruct (files w !! fileNameOf s u) as [content|] eqn:Hfile.
  { rewrite bool_decide_eq_true_2 by eauto.
    unfold ret. intros [= <- <-]. exists [].
    cbn [trace files wordpressSites].
    rewrite app_nil_r. split; [reflexivity|]. rewrite Ho.
    apply PathDownloaded; [exact Hne | exact Hv | rewrite Hfile; eauto]. }
  rewrite bool_decide_eq_false_2 by (intros [x Hx]; discriminate).
  unfold bind at 1, emit. cbn [frontier files wordpressSites trace].
  assert (Hsleep :
            forall w0 : World,
              files w0 = files w -> trace w0 = trace w ++ [EvGet u] ->
              wordpressSites w0 = o ->
              (forall body,
                  http_Get env u <> GetOk (gostr "200 OK") (Some body)) ->
              bind (Sleep 5) (fun _ => ret fp) w0 = Some (fp', w') ->
              exists evs,
                trace w' = trace w ++ evs
                /\ Path s env routineNum fp w u evs fp' (files w')
                        (wordpressSites w')).
  { intros w0 Hf Ht Hw0 Hresp. unfold bind, Sleep, emit, ret.
    intros [= <- <-]. exists [EvGet u; EvSleep 5].
    cbn [trace files wordpressSites].
    rewrite Ht, <- app_assoc, Hf, Hw0, Ho. split; [reflexivity|].
    now apply PathFailed. }
  destruct (http_Get env u) as [|status [body|]] eqn:Hget.
  1,3: apply Hsleep;
       [reflexivity | reflexivity | reflexivity | intros body; discriminate].
  destruct (decide (status = gostr "200 OK")) as [->|Hstatus].
  2:{ rewrite bool_decide_eq_false_2 by assumption.
      apply Hsleep; [reflexivity | reflexivity | reflexivity |].
      intros body' [= Heq _]. contradiction. }
  rewrite bool_decide_eq_true_2 by reflexivity.
  fold (fetchedPage env u body).
  set (page := fetchedPage env u body) in *.
  destruct (validPage page) eqn:Hpage; cbn [negb orb].
  2:{ unfold ret. intros [= <- <-]. exists [EvGet u].
      cbn [trace files wordpressSites].
      split; [reflexivity|]. rewrite Ho.
      apply (PathRejected _ _ _ _ _ _ body); auto. }
  destruct (duplicateExists fp page) eqn:Hdup.
  { unfold ret. intros [= <- <-]. exists [EvGet u].
    cbn [trace files wordpressSites].
    split; [reflexivity|]. rewrite Ho.
    apply (PathRejected _ _ _ _ _ _ body); auto. }
  unfold bind at 1, emit. cbn [frontier files wordpressSites trace].
  unfold bind at 1, writeToDisk. cbn [frontier files wordpressSites trace].
  unfold bind at 1. cbn [wordpressSites].
  destruct (constructProperURLs _ _ _ _ _) as [[set o1]|] eqn:Hlinks;
    [|discriminate].
  cbn [frontier files wordpressSites trace].
  unfold bind at 1.
  match goal with
  | |- context [insertAnchors s ?keys ?w0] =>
      destruct (insertAnchors s keys w0) as [[[] w1]|] eqn:Hins;
        [|discriminate]
  end.
  apply insertAnchors_frame in Hins as (Hf & Ht & Hw1).
  cbn [files trace wordpressSites] in Hf, Ht, Hw1.
  unfold bind, Sleep, emit, ret. intros [= <- <-].
  exists [EvGet u; EvAdmit routineNum page; EvSleep 5].
  cbn [trace files wordpressSites]. rewrite Ht, Hf, Hw1, <- !app_assoc.
  split; [reflexivity|].
  change (Url page) with u.
  apply (PathAdmission _ _ _ _ _ _ body set o1); try assumption.
  now rewrite <- Ho.
Qed.

(** X16: an iteration of the loop of [Crawl] that returns has taken one
    of six paths.  With an empty queue [Crawl] sleeps one second and the
    oracle is not asked.  Otherwise [urlValid] is called once on the URL
    taken from the queue of the worker, and the oracle is left in the
    state this call leaves it in, unless a page is admitted.  When
    [urlValid] answers [false], or a page file exists, [Crawl] itself
    does nothing more: no request for the page, no pause.  Otherwise
    [Crawl] requests the page, once, and then does nothing (the page is
    rejected), pauses five seconds (no page came), or admits the page,
    has [constructProperURLs] ask the oracle about its links, and
    pauses.  The requests that the oracle sends inside [urlValid] are
    not among the actions listed. *)
Theorem Crawl_iteration_actions s env routineNum fp w fp' w' :
  Crawl_iteration s env routineNum fp w = Some (fp', w') ->
  let url := nextUrl w routineNum in
  let asked := urlValid url (wordpressSites w) in
  exists evs,
    trace w' = trace w ++ evs
    /\ (url = [] /\ evs = [EvSleep 1]
        /\ wordpressSites w' = wordpressSites w
        \/ url <> [] /\ evs = []
           /\ wordpressSites w' = snd asked
           /\ (fst asked = false
               \/ fst asked = true
                  /\ is_Some (files w !! fileNameOf s url))
        \/ url <> [] /\ fst asked = true
           /\ files w !! fileNameOf s url = None
           /\ ((evs = [EvGet url] \/ evs = [EvGet url; EvSleep 5])
               /\ wordpressSites w' = snd asked
               \/ exists page anchors,
                    evs = [EvGet url; EvAdmit routineNum page; EvSleep 5]
                    /\ Url page = url
                    /\ constructProperURLs isWordPressWebsite getHostname
                         (FindAllAnchorHREFs page (maxLinksPerPage s))
                         url (snd asked)
                       = Some (anchors, wordpressSites w'))).
Proof.
  intros Hrun. cbv zeta.
  apply Crawl_iteration_path in Hrun as (evs & Htrace & Hpath).
  exists evs. split; [exact Htrace|].
  destruct Hpath.
  - left. now repeat split.
  - right. left. repeat split; [assumption|]. now left.
  - right. left. repeat split; [assumption|]. right. now split.
  - right. right. repeat split; try assumption. left.
    split; [now right | reflexivity].
  - right. right. repeat split; try assumption. left.
    split; [now left | reflexivity].
  - right. right. repeat split; try assumption. right.
    eexists _, _. repeat split. eassumption.
Qed.

(** *** Page files *)

Lemma Crawl_iteration_files s env routineNum fp w fp' w' :
  Crawl_iteration s env routineNum fp w = Some (fp', w') ->
  files w ⊆ files w'.
Proof.
  intros Hrun.
  apply Crawl_iteration_path in Hrun as (evs & _ & Hpath).
  destruct Hpath; try reflexivity.
  now apply insert_subseteq.
Qed.

(** X17: workers that take turns, one iteration of the loop at a time,
    never change or remove a page file: a file that exists keeps its
    content, since a page is written only after [pageDownloaded] has
    found no file of its name. *)
Theorem run_keeps_files s schedule :
  forall sys sys',
    run s schedule sys = Some sys' ->
    forall fileName content,
      files (world sys) !! fileName = Some content ->
      files (world sys') !! fileName = Some content.
Proof.
  induction schedule as [|[i env] schedule IH]; intros sys sys';
    cbn [Spider.run].
  - now intros [= <-].
  - unfold Spider.worker_step.
    destruct (indexes sys !! i) as [fp|]; [|now apply IH].
    destruct (Crawl_iteration s env (Z.of_nat i) fp (world sys))
      as [[fp' w']|] eqn:Hrun; [|discriminate].
    intros Hrest fileName content Hfile.
    apply (IH _ _ Hrest). cbn [world].
    apply Crawl_iteration_files in Hrun.
    now apply (lookup_weaken (files (world sys))).
Qed.

(** *** Routing *)

(** Every queued URL waits in the shard that the router assigns to
    it. *)
Definition routed (s : SearchHouseSpider) (fr : gmap Z (list gostring))
    : Prop :=
  forall k urls url,
    fr !! k = Some urls -> In url urls ->
    calcWebsiteToRoutineNum (numRoutines s) url = Some k.

(** The same, as a test. *)
Definition routedb (s : SearchHouseSpider) (fr : gmap Z (list gostring))
    : bool :=
  forallb
    (fun kv : Z * list gostring =>
       forallb
         (fun url =>
            bool_decide
              (calcWebsiteToRoutineNum (numRoutines s) url = Some (fst kv)))
         (snd kv))
    (map_to_list fr).

Lemma routedb_sound s fr : routedb s fr = true -> routed s fr.
Proof.
  intros H k urls url Hk Hin. unfold routedb in H.
  rewrite forallb_forall in H.
  apply elem_of_map_to_list, list_elem_of_In in Hk.
  apply H in Hk. cbn [fst snd] in Hk. rewrite forallb_forall in Hk.
  apply Hk in Hin. now apply bool_decide_eq_true in Hin.
Qed.

Definition keeps {A} (I : World -> Prop) (c : M A) : Prop :=
  forall w a w', I w -> c w = Some (a, w') -> I w'.

Lemma keeps_ret {A} I (a : A) : keeps I (ret a).
Proof. intros w a' w' HI [= _ <-]. exact HI. Qed.

Lemma keeps_bind {A B} I (c : M A) (k : A -> M B) :
  keeps I c -> (forall a, keeps I (k a)) -> keeps I (bind c k).
Proof.
  intros Hc Hk w b w' HI H.
  apply bind_inv in H as (a & w1 & H1 & H2).
  exact (Hk a w1 b w' (Hc w a w1 HI H1) H2).
Qed.

(** A computation that leaves the frontier alone keeps what holds of
    the frontier. *)
Lemma keeps_frame {A} (P : gmap Z (list gostring) -> Prop) (c : M A) :
  (forall w a w', c w = Some (a, w') -> frontier w' = frontier w) ->
  keeps (fun w => P (frontier w)) c.
Proof. intros Hc w a w' HI H. now rewrite (Hc w a w' H). Qed.

Lemma routed_pop s fr k url rest :
  routed s fr -> fr !! k = Some (url :: rest) -> routed s (<[k := rest]> fr).
Proof.
  intros Hr Hk k' urls url' Hlook Hin.
  destruct (decide (k = k')) as [<-|Hne].
  - rewrite lookup_insert_eq in Hlook. injection Hlook as <-.
    apply (Hr k (url :: rest) url' Hk). now right.
  - rewrite lookup_insert_ne in Hlook by assumption.
    now apply (Hr k' urls url').
Qed.

Lemma routed_insert s fr k url :
  routed s fr -> calcWebsiteToRoutineNum (numRoutines s) url = Some k ->
  routed s (<[k := default [] (fr !! k) ++ [url]]> fr).
Proof.
  intros Hr Hk k' urls url' Hlook Hin.
  destruct (decide (k = k')) as [<-|Hne].
  - rewrite lookup_insert_eq in Hlook. injection Hlook as <-.
    apply in_app_or in Hin as [Hin | [<- | []]]; [|exact Hk].
    destruct (fr !! k) as [old|] eqn:Hold; [|destruct Hin].
    now apply (Hr k old url').
  - rewrite lookup_insert_ne in Hlook by assumption.
    now apply (Hr k' urls url').
Qed.

Lemma keeps_routed_PopURL s routineNum :
  keeps (fun w => routed s (frontier w)) (PopURL routineNum).
Proof.
  intros w a w' HI. unfold PopURL.
  destruct (frontier w !! routineNum) as [[|url rest]|] eqn:Hpop;
    intros [= _ <-]; try exact HI.
  cbn [frontier]. now apply (routed_pop s _ _ url).
Qed.

Lemma keeps_routed_insertAnchors s keys :
  keeps (fun w => routed s (frontier w)) (insertAnchors s keys).
Proof.
  induction keys as [|key keys IH]; cbn [insertAnchors];
    [apply keeps_ret|].
  apply keeps_bind; [now apply keeps_frame; intros w a w' [= _ <-]|].
  intros downloaded. apply keeps_bind; [|intros ?; exact IH].
  destruct downloaded; [apply keeps_ret|].
  intros w a w' HI. unfold bind, orPanic.
  destruct (calcWebsiteToRoutineNum (numRoutines s) key) as [r|] eqn:Hr;
    [|discriminate].
  intros [= _ <-]. cbn [frontier]. now apply routed_insert.
Qed.

Lemma keeps_routed_iteration s env routineNum fp :
  keeps (fun w => routed s (frontier w))
        (Crawl_iteration s env routineNum fp).
Proof.
  assert (Hemit : forall e : Event,
             keeps (fun w => routed s (frontier w)) (emit e))
    by (intros e; apply keeps_frame; now intros w a w' [= _ <-]).
  unfold Spider.Crawl_iteration.
  apply keeps_bind; [apply keeps_routed_PopURL|].
  intros [|c url].
  { apply keeps_bind; [apply Hemit | intros ?; apply keeps_ret]. }
  apply keeps_bind.
  { apply keeps_frame. intros w a w'. unfold withOracle.
    destruct (Spider.urlValid _ _ _ _) as [v o]. now intros [= _ <-]. }
  intros valid. destruct (negb valid); [apply keeps_ret|].
  apply keeps_bind; [now apply keeps_frame; intros w a w' [= _ <-]|].
  intros downloaded. destruct downloaded; [apply keeps_ret|].
  apply keeps_bind; [apply Hemit|]. intros _.
  assert (Hsleep : keeps (fun w => routed s (frontier w))
                         (bind (Sleep 5) (fun _ => ret fp)))
    by (apply keeps_bind; [apply Hemit | intros ?; apply keeps_ret]).
  destruct (http_Get env (c :: url)) as [|status [body|]];
    try exact Hsleep.
  destruct (bool_decide (status = gostr "200 OK")); [|exact Hsleep].
  destruct (negb (validPage _) || duplicateExists fp _);
    [apply keeps_ret|].
  apply keeps_bind; [apply Hemit|]. intros _.
  apply keeps_bind; [now apply keeps_frame; intros w a w' [= _ <-]|].
  intros _. apply keeps_bind.
  { apply keeps_frame. intros w a w'.
    destruct (constructProperURLs _ _ _ _ _) as [[set o]|];
      [|discriminate].
    unfold withOracle. now intros [= _ <-]. }
  intros anchors.
  apply keeps_bind; [apply keeps_routed_insertAnchors|]. intros _.
  apply keeps_bind; [apply Hemit | intros ?; apply keeps_ret].
Qed.

(** X18: the workers keep the queues routed: when every queued URL
    waits in the shard that [calcWebsiteToRoutineNum] assigns to it,
    this is so after every schedule of iterations, since each link is
    queued in the shard computed for it. *)
Theorem run_keeps_routing s schedule :
  forall sys sys',
    routed s (frontier (world sys)) ->
    run s schedule sys = Some sys' ->
    routed s (frontier (world sys')).
Proof.
  induction schedule as [|[i env] schedule IH]; intros sys sys' Hr;
    cbn [Spider.run].
  - now intros [= <-].
  - unfold Spider.worker_step.
    destruct (indexes sys !! i) as [fp|]; [|now apply IH].
    destruct (Crawl_iteration s env (Z.of_nat i) fp (world sys))
      as [[fp' w']|] eqn:Hrun; [|discriminate].
    apply IH. cbn [world].
    exact (keeps_routed_iteration s env (Z.of_nat i) fp _ _ _ Hr Hrun).
Qed.

(** *** Panics *)

Definition total {A} (c : M A) : Prop :=
  forall w, exists a w', c w = Some (a, w').

Lemma total_ret {A} (a : A) : total (ret a).
Proof. intros w. now exists a, w. Qed.

Lemma total_bind {A B} (c : M A) (k : A -> M B) :
  total c -> (forall a, total (k a)) -> total (bind c k).
Proof.
  intros Hc Hk w. destruct (Hc w) as (a & w1 & H1).
  destruct (Hk a w1) as (b & w2 & H2).
  exists b, w2. unfold bind. now rewrite H1.
Qed.

Lemma total_emit (e : Event) : total (emit e).
Proof. intros w. eexists _, _. reflexivity. Qed.

Lemma total_insertAnchors s keys :
  numRoutines s <> 0 -> total (insertAnchors s keys).
Proof.
  intros Hn. induction keys as [|key keys IH]; cbn [insertAnchors];
    [apply total_ret|].
  apply total_bind; [intros w; eexists _, _; reflexivity|].
  intros downloaded. apply total_bind; [|intros ?; exact IH].
  destruct downloaded; [apply total_ret|].
  intros w. unfold bind, orPanic, calcWebsiteToRoutineNum, GoInt.rem.
  destruct (Z.eqb_spec (numRoutines s) 0) as [H0|_]; [contradiction|].
  eexists _, _. reflexivity.
Qed.

Lemma total_iteration s env routineNum fp :
  numRoutines s <> 0 ->
  (forall page,
     Forall (fun href => href <> [])
            (FindAllAnchorHREFs page (maxLinksPerPage s))) ->
  total (Crawl_iteration s env routineNum fp).
Proof.
  intros Hn Hrefs. unfold Spider.Crawl_iteration.
  apply total_bind.
  { intros w. unfold PopURL.
    destruct (frontier w !! routineNum) as [[|url rest]|];
      eexists _, _; reflexivity. }
  intros [|c url].
  { apply total_bind; [apply total_emit | intros ?; apply total_ret]. }
  apply total_bind.
  { intros w. unfold withOracle.
    destruct (Spider.urlValid _ _ _ _) as [v o]. eexists _, _. reflexivity. }
  intros valid. destruct (negb valid); [apply total_ret|].
  apply total_bind; [intros w; eexists _, _; reflexivity|].
  intros downloaded. destruct downloaded; [apply total_ret|].
  apply total_bind; [apply total_emit|]. intros _.
  assert (Hsleep : total (bind (Sleep 5) (fun _ => ret fp)))
    by (apply total_bind; [apply total_emit | intros ?; apply total_ret]).
  destruct (http_Get env (c :: url)) as [|status [body|]];
    try exact Hsleep.
  destruct (bool_decide (status = gostr "200 OK")); [|exact Hsleep].
  destruct (negb (validPage _) || duplicateExists fp _);
    [apply total_ret|].
  apply total_bind; [apply total_emit|]. intros _.
  apply total_bind; [intros w; eexists _, _; reflexivity|].
  intros _. apply total_bind.
  { intros w.
    match goal with
    | |- context [constructProperURLs _ _ (FindAllAnchorHREFs ?page _) _ _] =>
        destruct (LinkFacts.constructProperURLs_total
                    isWordPressWebsite getHostname _ (c :: url)
                    (wordpressSites w) (Hrefs page)) as (set & o & ->)
    end.
    eexists _, _. reflexivity. }
  intros anchors.
  apply total_bind; [now apply total_insertAnchors|]. intros _.
  apply total_bind; [apply total_emit | intros ?; apply total_ret].
Qed.

(** X19: the code of the loop of [Crawl] can panic at two places only,
    the division by the number of routines and the first byte of a
    link.  When the number of routines is not zero and the pages yield
    no empty link, every iteration returns, and so does every schedule
    of iterations. *)
Theorem run_no_panic s :
  numRoutines s <> 0 ->
  (forall page,
     Forall (fun href => href <> [])
            (FindAllAnchorHREFs page (maxLinksPerPage s))) ->
  (forall env routineNum fp w,
     exists fp' w', Crawl_iteration s env routineNum fp w = Some (fp', w'))
  /\ (forall schedule sys, exists sys', run s schedule sys = Some sys').
Proof.
  intros Hn Hrefs.
  assert (Hit : forall env routineNum fp w,
             exists fp' w',
               Crawl_iteration s env routineNum fp w = Some (fp', w'))
    by (intros env routineNum fp w;
        apply (total_iteration s env routineNum fp Hn Hrefs w)).
  split; [exact Hit|].
  induction schedule as [|[i env] schedule IH]; intros sys;
    cbn [Spider.run].
  - now exists sys.
  - unfold Spider.worker_step.
    destruct (indexes sys !! i) as [fp|]; [|apply IH].
    destruct (Hit env (Z.of_nat i) fp (world sys)) as (fp' & w' & ->).
    apply IH.
Qed.

(** The pages admitted so far lie in files of their own, each with its
    serialized page. *)
Definition archived (s : SearchHouseSpider) (w : World) : Prop :=
  NoDup (map (fun page => fileNameOf s (Url page)) (admitted (trace w)))
  /\ forall page,
       In page (admitted (trace w)) ->
       files w !! fileNameOf s (Url page) = Some (Serialize page).

Lemma Crawl_iteration_archived s env routineNum fp w fp' w' :
  archived s w ->
  Crawl_iteration s env routineNum fp w = Some (fp', w') ->
  archived s w'.
Proof.
  intros [Hnodup Hfiles] Hrun.
  apply Crawl_iteration_path in Hrun as (evs & Htrace & Hpath).
  unfold archived. rewrite Htrace, admitted_app.
  destruct Hpath
    as [ | | | | |body anchors o' Hne Hvalid Hnone Hget Hpage Hdup Hlinks];
    cbn [admitted]; rewrite ?app_nil_r; try (now split).
  set (page := fetchedPage env (nextUrl w routineNum) body)
    in *.
  change (nextUrl w routineNum) with (Url page) in Hnone |- *.
  assert (Hfresh : forall p, In p (admitted (trace w)) ->
                             fileNameOf s (Url p) <> fileNameOf s (Url page)).
  { intros p Hp Heq. apply Hfiles in Hp. rewrite Heq, Hnone in Hp.
    discriminate. }
  split.
  - rewrite map_app. cbn [map]. apply NoDup_app.
    split; [exact Hnodup|]. split; [|apply NoDup_singleton].
    intros name Hname Hin. apply list_elem_of_singleton in Hin. subst name.
    apply list_elem_of_In, in_map_iff in Hname as (p & Heq & Hp).
    now apply (Hfresh p).
  - intros p Hp. apply in_app_or in Hp as [Hp | [<- | []]].
    + rewrite lookup_insert_ne by (intros Heq; now apply (Hfresh p)).
      now apply Hfiles.
    + apply lookup_insert_eq.
Qed.

(** X20: when the workers take turns, one iteration of the loop at a
    time, the pages admitted so far lie in files of their own: no two
    of them share a file, and the file of each holds its serialized
    page. *)
Theorem run_archives_admitted_pages s schedule :
  forall sys sys',
    admitted (trace (world sys)) = [] ->
    run s schedule sys = Some sys' ->
    archived s (world sys').
Proof.
  assert (Hinv : forall sys sys',
             archived s (world sys) ->
             run s schedule sys = Some sys' ->
             archived s (world sys')).
  { induction schedule as [|[i env] schedule IH]; intros sys sys' Ha;
      cbn [Spider.run].
    - now intros [= <-].
    - unfold Spider.worker_step.
      destruct (indexes sys !! i) as [fp|]; [|now apply IH].
      destruct (Crawl_iteration s env (Z.of_nat i) fp (world sys))
        as [[fp' w']|] eqn:Hrun; [|discriminate].
      apply IH. cbn [world].
      now apply (Crawl_iteration_archived s env (Z.of_nat i) fp (world sys) fp'). }
  intros sys sys' Hnone. apply Hinv.
  unfold archived. rewrite Hnone. split; [apply NoDup_nil_2 | intros p []].
Qed.

End WithCollaborators.

End IterationFacts.

(** ** The duplicate check inside the loop *)

Module DuplicateFacts.

Import Common Spider CrawlFacts IterationFacts.

Section WithCollaborators.

Context {OracleState : Type}.
Variable isWordPressWebsite : gostring -> OracleState -> bool * OracleState.
Variable getHostname : gostring -> gostring.
Variable fingerprintsOf : gostring -> gset Z.
Variable Serialize : WebPage -> gostring.
Variable FindAllAnchorHREFs : WebPage -> Z -> list gostring.

Local Abbreviation World := (@World OracleState).
Local Abbreviation Crawl_iteration :=
  (Crawl_iteration isWordPressWebsite getHostname fingerprintsOf
                   Serialize FindAllAnchorHREFs).
Local Abbreviation run :=
  (run isWordPressWebsite getHostname fingerprintsOf Serialize
       FindAllAnchorHREFs).

Lemma In_admittedBy routineNum (tr : list Event) page :
  In page (admittedBy routineNum tr) -> In page (admitted tr).
Proof.
  induction tr as [|[| |r p] tr IH]; cbn [admittedBy admitted]; auto.
  destruct (bool_decide (r = routineNum)).
  - intros [<- | Hin]; [now left | right; auto].
  - intros Hin. right. auto.
Qed.

Lemma run_archived s schedule :
  forall sys sys',
    archived Serialize s (world sys) ->
    run s schedule sys = Some sys' ->
    archived Serialize s (world sys').
Proof.
  induction schedule as [|[i env] schedule IH]; intros sys sys' Ha;
    cbn [Spider.run].
  - now intros [= <-].
  - unfold Spider.worker_step.
    destruct (indexes sys !! i) as [fp|]; [|now apply IH].
    destruct (Crawl_iteration s env (Z.of_nat i) fp (world sys))
      as [[fp' w']|] eqn:Hrun; [|discriminate].
    apply IH. cbn [world].
    exact (Crawl_iteration_archived
             isWordPressWebsite getHostname fingerprintsOf Serialize
             FindAllAnchorHREFs s env (Z.of_nat i) fp (world sys) fp' w'
             Ha Hrun).
Qed.

(** The pages a worker has admitted have page files, so none of them
    has the URL of a candidate that [pageDownloaded] did not find. *)
Lemma indexed_pages_other_urls s (w : World) schedule sys' i url :
  admitted (trace w) = [] ->
  run s schedule (CrawlConcurrently s w) = Some sys' ->
  files (world sys') !! fileNameOf s url = None ->
  forall page,
    In page (admittedBy (Z.of_nat i) (trace (world sys'))) ->
    Url page <> url.
Proof.
  intros Hnone Hrun Hfile page Hin Hurl.
  assert (Ha : archived Serialize s (world sys')).
  { apply (run_archived s schedule (CrawlConcurrently s w)); [|exact Hrun].
    unfold archived. cbn [CrawlConcurrently world]. rewrite Hnone.
    split; [apply NoDup_nil_2 | intros p []]. }
  destruct Ha as [_ Hfiles].
  apply In_admittedBy, Hfiles in Hin.
  rewrite Hurl, Hfile in Hin. discriminate.
Qed.

(** C2: in the loop of [Crawl] the check runs on the index [fp] of the
    worker and on a candidate for whose URL [pageDownloaded] has just
    found no page file.  On every such input, after every schedule of
    iterations, the candidate is declared a duplicate if and only if
    some page of the index shares a fingerprint with it and their
    Jaccard similarity exceeds 0.9.  The guard of the code on the URL
    of the indexed page is then always passed: every page of the index
    has a page file. *)
Theorem duplicateExists_in_loop s (w : World) schedule sys' i fp wp :
  admitted (trace w) = [] ->
  run s schedule (CrawlConcurrently s w) = Some sys' ->
  indexes sys' !! i = Some fp ->
  files (world sys') !! fileNameOf s (Url wp) = None ->
  fp = indexOf (admittedBy (Z.of_nat i) (trace (world sys')))
  /\ (duplicateExists fp wp = true
      <-> exists page,
            In page (admittedBy (Z.of_nat i) (trace (world sys')))
            /\ IndexFacts.sharesFingerprint wp page
            /\ (9 # 10 < Similarity wp page)%Q).
Proof.
  intros Hnone Hrun Hfp Hfile.
  assert (Hown : ownPages sys').
  { apply (run_ownPages isWordPressWebsite getHostname fingerprintsOf
             Serialize FindAllAnchorHREFs s schedule
             (CrawlConcurrently s w));
      [now apply CrawlConcurrently_ownPages | exact Hrun]. }
  pose proof (Hown i fp Hfp) as Heq.
  split; [exact Heq|]. rewrite Heq at 1.
  rewrite (IndexFacts.duplicateExists_of_listing _
             (admittedBy (Z.of_nat i) (trace (world sys'))))
    by (intros hash page; apply IndexFacts.indexOf_listed).
  split.
  - intros (page & Hin & _ & Hshare & Hsim). now exists page.
  - intros (page & Hin & Hshare & Hsim). exists page.
    split; [exact Hin|]. split; [|now split].
    now apply (indexed_pages_other_urls s w schedule sys' i (Url wp)).
Qed.

End WithCollaborators.

End DuplicateFacts.

(** ** The oracle *)

Module OracleFacts.

Import WordPress.

Lemma find_remove key es : Lru.find key (Lru.remove key es) = None.
Proof.
  unfold Lru.remove. induction es as [|[k v] es IH]; [reflexivity|].
  destruct (decide (k = key)) as [->|Hne].
  - now rewrite filter_cons_False by (cbn; tauto).
  - rewrite filter_cons_True by exact Hne. cbn [Lru.find].
    now rewrite bool_decide_eq_false_2.
Qed.

Lemma remove_absent key es :
  Lru.find key es = None -> Lru.remove key es = es.
Proof.
  unfold Lru.remove. induction es as [|[k v] es IH]; [reflexivity|].
  cbn [Lru.find]. destruct (decide (k = key)) as [->|Hne].
  - now rewrite bool_decide_eq_true_2.
  - rewrite bool_decide_eq_false_2 by assumption. intros H.
    rewrite filter_cons_True by exact Hne. now rewrite IH.
Qed.

Lemma find_removelast key es :
  Lru.find key es = None -> Lru.find key (removelast es) = None.
Proof.
  induction es as [|[k v] es IH]; [reflexivity|].
  cbn [Lru.find]. destruct (bool_decide (k = key)) eqn:Hk; [discriminate|].
  intros H. destruct es as [|e es]; [reflexivity|].
  change (removelast ((k, v) :: e :: es))
    with ((k, v) :: removelast (e :: es)).
  cbn [Lru.find]. rewrite Hk. now apply IH.
Qed.

(** A look-up of the entry at the front leaves the cache as it is. *)
Lemma Get_front size key v rest :
  Lru.find key rest = None ->
  Lru.Get {| Lru.size := size; Lru.entries := (key, v) :: rest |} key
  = (Some v, {| Lru.size := size; Lru.entries := (key, v) :: rest |}).
Proof.
  intros Hrest. unfold Lru.Get. cbn [Lru.entries Lru.find Lru.size].
  rewrite bool_decide_eq_true_2 by reflexivity.
  unfold Lru.remove. rewrite filter_cons_False by (cbn; tauto).
  fold (Lru.remove key rest). now rewrite remove_absent.
Qed.

Section WithNetwork.

Variable http_Get : gostring -> Probe.

(** After every call the answer is at the front of the cache. *)
Lemma isWordPressWebsite_front str cache isWp cache' :
  (1 <= Lru.size cache)%nat ->
  isWordPressWebsite http_Get str cache = (isWp, cache') ->
  exists rest,
    Lru.find str rest = None
    /\ cache' = {| Lru.size := Lru.size cache;
                   Lru.entries := (str, isWp) :: rest |}.
Proof.
  intros Hsize. unfold isWordPressWebsite, Lru.Get.
  destruct (Lru.find str (Lru.entries cache)) as [v|] eqn:Hfind.
  - intros [= <- <-]. exists (Lru.remove str (Lru.entries cache)).
    split; [apply find_remove | reflexivity].
  - intros [= <- <-]. unfold Lru.Add. rewrite Hfind.
    destruct (Lru.entries cache) as [|e es] eqn:Hes.
    + exists []. split; [reflexivity|]. cbn [length].
      destruct (Nat.ltb_spec (Lru.size cache) 1); [lia | reflexivity].
    + destruct (Lru.size cache <? length (_ :: e :: es))%nat.
      * exists (removelast (e :: es)).
        split; [now apply find_removelast | reflexivity].
      * exists (e :: es). split; [exact Hfind | reflexivity].
Qed.

End WithNetwork.

(** X21: the answer of [isWordPressWebsite] is cached.  A second call
    for the same host, right after the first, returns the same answer
    whatever the network would say, and leaves the cache as it is. *)
Theorem isWordPressWebsite_cached http_Get http_Get' str cache isWp cache' :
  (1 <= Lru.size cache)%nat ->
  isWordPressWebsite http_Get str cache = (isWp, cache') ->
  isWordPressWebsite http_Get' str cache' = (isWp, cache').
Proof.
  intros Hsize Hcall.
  destruct (isWordPressWebsite_front http_Get str cache isWp cache'
              Hsize Hcall) as (rest & Hrest & ->).
  unfold isWordPressWebsite. now rewrite Get_front.
Qed.

(** A response whose body was read and closed without error, or no
    response at all. *)
Definition readable (p : Probe) : Prop :=
  match p with
  | ProbeError => True
  | ProbeResponse _ _ readErr closeErr => readErr = false /\ closeErr = false
  end.

(** X22: the earlier copy of [isWordPressWebsite] agrees with the
    current one when the answer is in the cache, when the request fails,
    and when the body is read and closed without error.  They differ
    when reading the body fails: with status 403 the earlier copy
    answers and caches [true], the current one [false].  The earlier
    copy panics when closing the body fails. *)
Theorem legacy_isWordPressWebsite_agrees http_Get str cache :
  (Lru.Contains cache str = true \/ readable (http_Get (probeUrl str)) ->
   legacy_isWordPressWebsite http_Get str cache
   = Some (isWordPressWebsite http_Get str cache))
  /\ (forall content,
        Lru.Contains cache str = false ->
        http_Get (probeUrl str) = ProbeResponse 403 content true false ->
        legacy_isWordPressWebsite http_Get str cache
        = Some (true, Lru.Add cache str true)
        /\ isWordPressWebsite http_Get str cache
           = (false, Lru.Add cache str false))
  /\ (forall StatusCode content readErr,
        Lru.Contains cache str = false ->
        http_Get (probeUrl str)
        = ProbeResponse StatusCode content readErr true ->
        legacy_isWordPressWebsite http_Get str cache = None).
Proof.
  unfold legacy_isWordPressWebsite, isWordPressWebsite, Lru.Contains,
    Lru.Get.
  destruct (Lru.find str (Lru.entries cache)) as [v|] eqn:Hfind.
  - rewrite bool_decide_eq_true_2 by eauto.
    split; [reflexivity|]. split; intros; discriminate.
  - rewrite bool_decide_eq_false_2 by (intros [x Hx]; discriminate).
    split; [|split].
    + intros [Hhit | Hread]; [discriminate|].
      destruct (http_Get (probeUrl str))
        as [|StatusCode content readErr closeErr]; [reflexivity|].
      destruct Hread as [-> ->].
      destruct (StatusCode =? 403); [reflexivity|].
      destruct (StatusCode =? 200); [reflexivity|].
      destruct (StatusCode =? 404); reflexivity.
    + intros content _ ->. split; reflexivity.
    + intros StatusCode content readErr _ ->. reflexivity.
Qed.

Lemma Contains_spec s substr :
  GoStrings.Contains s substr = true
  <-> exists pre post, s = pre ++ substr ++ post.
Proof.
  induction s as [|c s IH]; cbn [GoStrings.Contains].
  - rewrite orb_false_r, PageFacts.HasPrefix_spec. split.
    + intros [rest H]. now exists [], rest.
    + intros (pre & post & H). symmetry in H.
      apply app_eq_nil in H as [-> H]. exists post. now rewrite H.
  - rewrite orb_true_iff, PageFacts.HasPrefix_spec, IH. split.
    + intros [[rest H] | (pre & post & H)].
      * now exists [], rest.
      * exists (c :: pre), post. now rewrite H.
    + intros ([|d pre] & post & H).
      * left. now exists post.
      * right. injection H as _ H. now exists pre, post.
Qed.

(** The word "wordpress" in any casing of its letters. *)
Definition spellsWordPress (word : gostring) : Prop :=
  GoStrings.ToLower word = gostr "wordpress".

Lemma mentionsWordPress_spec content :
  mentionsWordPress content = true
  <-> exists pre word post,
        content = pre ++ word ++ post /\ spellsWordPress word.
Proof.
  unfold mentionsWordPress, spellsWordPress, GoStrings.ToLower.
  rewrite Contains_spec. split.
  - intros (pre' & post' & H).
    apply map_eq_app in H as (pre & rest & -> & Hpre & H).
    apply map_eq_app in H as (word & post & -> & Hword & Hpost).
    now exists pre, word, post.
  - intros (pre & word & post & -> & Hword).
    exists (map GoStrings.lower_byte pre), (map GoStrings.lower_byte post).
    now rewrite !map_app, Hword.
Qed.

(** X23: for a host that is not in the cache, [isWordPressWebsite]
    answers [true] exactly when the request for [/wp-admin] brings a
    response whose body is read without error and whose status is 403,
    or is 200 with the word "wordpress", in any casing of its letters,
    in the body; the answer is put into the cache. *)
Theorem isWordPressWebsite_classifies http_Get str cache :
  Lru.Contains cache str = false ->
  let answer := fst (isWordPressWebsite http_Get str cache) in
  snd (isWordPressWebsite http_Get str cache) = Lru.Add cache str answer
  /\ (answer = true
      <-> exists StatusCode content closeErr,
            http_Get (probeUrl str)
            = ProbeResponse StatusCode content false closeErr
            /\ (StatusCode = 403
                \/ StatusCode = 200
                   /\ exists pre word post,
                        content = pre ++ word ++ post
                        /\ spellsWordPress word)).
Proof.
  unfold Lru.Contains, isWordPressWebsite, Lru.Get.
  destruct (Lru.find str (Lru.entries cache)) as [v|] eqn:Hfind.
  { rewrite bool_decide_eq_true_2 by eauto. discriminate. }
  intros _. cbv zeta. cbn [fst snd]. split; [reflexivity|].
  destruct (http_Get (probeUrl str))
    as [|StatusCode content [|] closeErr].
  - split; [discriminate|]. intros (? & ? & ? & H & _). discriminate.
  - split; [discriminate|]. intros (? & ? & ? & H & _). discriminate.
  - rewrite orb_true_iff, andb_true_iff, !Z.eqb_eq, mentionsWordPress_spec.
    split.
    + intros H. exists StatusCode, content, closeErr. now split.
    + intros (? & ? & ? & [= <- <- <-] & H). exact H.
Qed.

End OracleFacts.

(** ** The two copies of the URL test *)

Module LegacyFacts.

Import Regexp Common Spider WordPress.

Section WithNetwork.

Variable http_Get : gostring -> Probe.
Variable getHostname : gostring -> gostring.

Local Abbreviation current_urlValid :=
  (Spider.urlValid (isWordPressWebsite http_Get) getHostname).
Local Abbreviation current_constructProperURLs :=
  (Spider.constructProperURLs (isWordPressWebsite http_Get) getHostname).

(** The oracles of the two copies agree on an answer from the cache,
    on a failed request and on a response that is read and closed
    without error. *)
Lemma legacy_oracle_agrees str cache :
  Lru.Contains cache str = true
  \/ OracleFacts.readable (http_Get (probeUrl str)) ->
  legacy_isWordPressWebsite http_Get str cache
  = Some (isWordPressWebsite http_Get str cache).
Proof.
  unfold legacy_isWordPressWebsite, isWordPressWebsite, Lru.Contains,
    Lru.Get.
  destruct (Lru.find str (Lru.entries cache)) as [v|] eqn:Hfind.
  - now rewrite bool_decide_eq_true_2 by eauto.
  - rewrite bool_decide_eq_false_2 by (intros [x Hx]; discriminate).
    intros [Hhit | Hread]; [discriminate|].
    destruct (http_Get (probeUrl str))
      as [|StatusCode content readErr closeErr]; [reflexivity|].
    destruct Hread as [-> ->].
    destruct (StatusCode =? 403); [reflexivity|].
    destruct (StatusCode =? 200); [reflexivity|].
    destruct (StatusCode =? 404); reflexivity.
Qed.


Lemma legacy_urlValid_readable url cache :
  Lru.Contains cache (getHostname url) = true
  \/ OracleFacts.readable (http_Get (probeUrl (getHostname url))) ->
  Legacy.urlValid http_Get getHostname url cache
  = Some (current_urlValid url cache).
Proof.
  intros H. unfold Legacy.urlValid, Spider.urlValid.
  rewrite UrlFacts.MatchString_legacyUrlRe.
  destruct (MatchString urlRe url
            && negb (MatchString extRe (GoStrings.ToLower url)));
    [|reflexivity].
  rewrite (legacy_oracle_agrees _ _ H).
  now destruct (isWordPressWebsite http_Get (getHostname url) cache)
    as [[|] cache'].
Qed.


Lemma legacy_loop_readable hostName urls :
  (forall u, OracleFacts.readable (http_Get u)) ->
  forall properURLs cache,
    Legacy.constructProperURLs_loop http_Get getHostname
      hostName urls properURLs cache
    = constructProperURLs_loop (isWordPressWebsite http_Get) getHostname
        hostName urls properURLs cache.
Proof.
  intros Hnet.
  induction urls as [|urlStr urls IH]; intros properURLs cache;
    [reflexivity|].
  cbn [Legacy.constructProperURLs_loop constructProperURLs_loop].
  destruct urlStr as [|c rest]; [reflexivity|].
  unfold GoStrings.TrimSuffix.
  rewrite DiscoveryFacts.HasSuffix_slash.
  cbn [length gostr list_ascii_of_string].
  destruct (Ascii.eqb c "/");
    [|destruct (Legacy.lastIsSlash (c :: rest))];
    (rewrite legacy_urlValid_readable by (right; apply Hnet));
    match goal with
    | |- context [Spider.urlValid ?f ?g ?u ?o] =>
        destruct (Spider.urlValid f g u o) as [valid cache']
    end; apply IH.
Qed.

(** X12: on a network whose responses are read and closed without
    error, the earlier copy of [constructProperURLs], which cuts a
    trailing slash off by slicing and calls the earlier copy of
    [urlValid], returns the same set and leaves the cache in the same
    state as the current one, and panics on the same inputs. *)
Theorem legacy_constructProperURLs_equiv urls root cache :
  (forall u, OracleFacts.readable (http_Get u)) ->
  Legacy.constructProperURLs http_Get getHostname urls root cache
  = current_constructProperURLs urls root cache.
Proof.
  intros Hnet.
  unfold Legacy.constructProperURLs, Spider.constructProperURLs.
  destruct (findHostName root); [reflexivity|].
  now apply legacy_loop_readable.
Qed.

End WithNetwork.


(** A stand-in for [url.Parse(u).Host] on [https] URLs that are a
    scheme, a host and a path: the text between the scheme and the next
    slash. *)
Fixpoint upToSlash (rest : gostring) : gostring :=
  match rest with
  | [] => []
  | c :: rest' => if Ascii.eqb c "/" then [] else c :: upToSlash rest'
  end.

Definition hostAfterScheme (u : gostring) : gostring :=
  upToSlash (skipn 8 u).


End LegacyFacts.

(** ** The properties at work *)

Module MoreExamples.

Import Common Spider CrawlFacts CrawlExamples.

Definition aboutUrl : gostring := gostr "https://site.test/about".

Lemma findHostName_spec_witness :
  findHostName aboutUrl <> []
  /\ exists pre host post,
       aboutUrl = pre ++ ShardFacts.scheme ++ host ++ post
       /\ ShardFacts.hostShaped host /\ ShardFacts.endsHost post
       /\ findHostName aboutUrl = ShardFacts.scheme ++ host.
Proof.
  assert (H : findHostName aboutUrl <> []) by (vm_compute; discriminate).
  split; [exact H|].
  exact (proj2 (HostFacts.findHostName_spec aboutUrl) H).
Defined.

Lemma urlValid_shape_witness :
  fst (urlValid Sample.isWordPressWebsite Sample.getHostname aboutUrl tt)
  = true
  /\ UrlShape.urlShaped aboutUrl.
Proof.
  assert (H : fst (urlValid Sample.isWordPressWebsite Sample.getHostname
                     aboutUrl tt) = true) by (vm_compute; reflexivity).
  split; [exact H|].
  exact (proj1 (proj2 (UrlShape.urlValid_shape
                         Sample.isWordPressWebsite Sample.getHostname
                         aboutUrl tt)) H).
Defined.

Lemma urlValid_rejects_path_byte_witness :
  In "."%char (gostr "index.html")
  /\ UrlShape.resourceChar "."%char = false
  /\ Regexp.MatchString urlRe (gostr "https://site.test/index.html") = false
  /\ urlValid Sample.isWordPressWebsite Sample.getHostname
       (gostr "https://site.test/index.html") tt = (false, tt).
Proof.
  assert (Hin : In "."%char (gostr "index.html")) by (cbn; tauto).
  assert (Hc : UrlShape.resourceChar "."%char = false) by reflexivity.
  split; [exact Hin|]. split; [exact Hc|].
  exact (UrlShape.urlValid_rejects_path_byte
           Sample.isWordPressWebsite Sample.getHostname
           (gostr "site.test") (gostr "index.html") "."%char tt Hin Hc).
Defined.

Lemma extRe_idle_on_paths_witness :
  Regexp.MatchString urlRe aboutUrl = true
  /\ Regexp.MatchString extRe (GoStrings.ToLower aboutUrl) = false
  /\ urlValid Sample.isWordPressWebsite Sample.getHostname aboutUrl tt
     = Sample.isWordPressWebsite (Sample.getHostname aboutUrl) tt.
Proof.
  assert (H : Regexp.MatchString urlRe aboutUrl = true)
    by (vm_compute; reflexivity).
  split; [exact H|].
  exact (UrlShape.extRe_idle_on_paths
           Sample.isWordPressWebsite Sample.getHostname
           (gostr "site.test") (gostr "about") tt H).
Defined.

(** The links of a page of the site: a path, the mirror with a trailing
    slash, and a style sheet. *)
Definition links : list gostring :=
  [gostr "/about"; gostr "https://mirror.test/"; gostr "/style.css"].

Definition discovered : StringSet :=
  Eval vm_compute in
    match constructProperURLs Sample.isWordPressWebsite Sample.getHostname
            links siteUrl tt with
    | Some (set, _) => set
    | None => emptyStringSet
    end.

Lemma links_discovered :
  constructProperURLs Sample.isWordPressWebsite Sample.getHostname
    links siteUrl tt = Some (discovered, tt).
Proof. vm_compute. reflexivity. Defined.

Lemma constructProperURLs_members_witness :
  constructProperURLs Sample.isWordPressWebsite Sample.getHostname
    links siteUrl tt = Some (discovered, tt)
  /\ Contains discovered aboutUrl = true
  /\ exists urlStr o1,
       In urlStr links
       /\ aboutUrl = DiscoveryFacts.resolve (findHostName siteUrl) urlStr
       /\ findHostName siteUrl <> []
       /\ fst (urlValid Sample.isWordPressWebsite Sample.getHostname
                 aboutUrl o1) = true.
Proof.
  assert (Hin : Contains discovered aboutUrl = true)
    by (vm_compute; reflexivity).
  split; [exact links_discovered|]. split; [exact Hin|].
  exact (DiscoveryFacts.constructProperURLs_members
           Sample.isWordPressWebsite Sample.getHostname
           links siteUrl tt discovered tt aboutUrl links_discovered Hin).
Defined.

(** The first iteration of worker 0 on the seeded frontier. *)
Definition firstIndex : Index :=
  Eval vm_compute in
    match indexes afterFirstTurn !! 0%nat with
    | Some fp => fp
    | None => NewFingerprints
    end.

Lemma first_iteration :
  CrawlExamples.Crawl_iteration spider (serving htmlBody) 0
    NewFingerprints seeded
  = Some (firstIndex, world afterFirstTurn).
Proof. vm_compute. reflexivity. Defined.

Lemma Crawl_iteration_actions_witness :
  CrawlExamples.Crawl_iteration spider (serving htmlBody) 0
    NewFingerprints seeded
  = Some (firstIndex, world afterFirstTurn)
  /\ let url := IterationFacts.nextUrl seeded 0 in
     let asked :=
       urlValid Sample.isWordPressWebsite Sample.getHostname url
         (wordpressSites seeded) in
     exists evs,
       trace (world afterFirstTurn) = trace seeded ++ evs
       /\ (url = [] /\ evs = [EvSleep 1]
           /\ wordpressSites (world afterFirstTurn) = wordpressSites seeded
           \/ url <> [] /\ evs = []
              /\ wordpressSites (world afterFirstTurn) = snd asked
              /\ (fst asked = false
                  \/ fst asked = true
                     /\ is_Some (files seeded !! fileNameOf spider url))
           \/ url <> [] /\ fst asked = true
              /\ files seeded !! fileNameOf spider url = None
              /\ ((evs = [EvGet url] \/ evs = [EvGet url; EvSleep 5])
                  /\ wordpressSites (world afterFirstTurn) = snd asked
                  \/ exists page anchors,
                       evs = [EvGet url; EvAdmit 0 page; EvSleep 5]
                       /\ Url page = url
                       /\ constructProperURLs Sample.isWordPressWebsite
                            Sample.getHostname
                            (CrawlExamples.FindAllAnchorHREFs page
                               (maxLinksPerPage spider))
                            url (snd asked)
                          = Some (anchors,
                                  wordpressSites (world afterFirstTurn)))).
Proof.
  split; [exact first_iteration|].
  exact (IterationFacts.Crawl_iteration_actions
           Sample.isWordPressWebsite Sample.getHostname
           Sample.fingerprintsOf Sample.Serialize
           CrawlExamples.FindAllAnchorHREFs
           spider (serving htmlBody) 0 NewFingerprints seeded
           firstIndex (world afterFirstTurn) first_iteration).
Defined.

Lemma second_turn :
  CrawlExamples.run spider [(1%nat, serving htmlBody)] afterFirstTurn
  = Some afterBothTurns.
Proof. vm_compute. reflexivity. Defined.

Definition siteFile : gostring :=
  Eval vm_compute in fileNameOf spider siteUrl.

Lemma site_file_written :
  files (world afterFirstTurn) !! siteFile = Some htmlBody.
Proof. vm_compute. reflexivity. Defined.

Lemma run_keeps_files_witness :
  CrawlExamples.run spider [(1%nat, serving htmlBody)] afterFirstTurn
  = Some afterBothTurns
  /\ files (world afterFirstTurn) !! siteFile = Some htmlBody
  /\ files (world afterBothTurns) !! siteFile = Some htmlBody.
Proof.
  split; [exact second_turn|]. split; [exact site_file_written|].
  exact (IterationFacts.run_keeps_files
           Sample.isWordPressWebsite Sample.getHostname
           Sample.fingerprintsOf Sample.Serialize
           CrawlExamples.FindAllAnchorHREFs
           spider [(1%nat, serving htmlBody)] afterFirstTurn afterBothTurns
           second_turn siteFile htmlBody site_file_written).
Defined.

Lemma first_turn_routed :
  IterationFacts.routed spider (frontier (world afterFirstTurn)).
Proof. apply IterationFacts.routedb_sound. vm_compute. reflexivity. Defined.

Lemma run_keeps_routing_witness :
  IterationFacts.routed spider (frontier (world afterFirstTurn))
  /\ CrawlExamples.run spider [(1%nat, serving htmlBody)] afterFirstTurn
     = Some afterBothTurns
  /\ IterationFacts.routed spider (frontier (world afterBothTurns)).
Proof.
  split; [exact first_turn_routed|]. split; [exact second_turn|].
  exact (IterationFacts.run_keeps_routing
           Sample.isWordPressWebsite Sample.getHostname
           Sample.fingerprintsOf Sample.Serialize
           CrawlExamples.FindAllAnchorHREFs
           spider [(1%nat, serving htmlBody)] afterFirstTurn afterBothTurns
           first_turn_routed second_turn).
Defined.

Lemma links_not_empty :
  forall page,
    Forall (fun href : gostring => href <> [])
           (CrawlExamples.FindAllAnchorHREFs page (maxLinksPerPage spider)).
Proof.
  intros page. unfold CrawlExamples.FindAllAnchorHREFs.
  constructor; [discriminate | constructor].
Defined.

Lemma run_no_panic_witness :
  numRoutines spider <> 0
  /\ (forall env routineNum fp w,
        exists fp' w',
          CrawlExamples.Crawl_iteration spider env routineNum fp w
          = Some (fp', w'))
  /\ (forall sched sys,
        exists sys', CrawlExamples.run spider sched sys = Some sys').
Proof.
  assert (Hn : numRoutines spider <> 0) by (cbn; lia).
  split; [exact Hn|].
  exact (IterationFacts.run_no_panic
           Sample.isWordPressWebsite Sample.getHostname
           Sample.fingerprintsOf Sample.Serialize
           CrawlExamples.FindAllAnchorHREFs
           spider Hn links_not_empty).
Defined.

Lemma run_archives_admitted_pages_witness :
  admitted (trace (world (CrawlConcurrently spider seeded))) = []
  /\ CrawlExamples.run spider schedule (CrawlConcurrently spider seeded)
     = Some afterBothTurns
  /\ IterationFacts.archived Sample.Serialize spider (world afterBothTurns).
Proof.
  split; [reflexivity|]. split; [exact run_both_turns|].
  exact (IterationFacts.run_archives_admitted_pages
           Sample.isWordPressWebsite Sample.getHostname
           Sample.fingerprintsOf Sample.Serialize
           CrawlExamples.FindAllAnchorHREFs
           spider schedule (CrawlConcurrently spider seeded) afterBothTurns
           eq_refl run_both_turns).
Defined.

(** A network on which every host forbids [/wp-admin], and one on which
    every request fails. *)
Definition forbidding : gostring -> WordPress.Probe :=
  fun _ => WordPress.ProbeResponse 403 [] false false.

Definition unreachable : gostring -> WordPress.Probe :=
  fun _ => WordPress.ProbeError.

Definition siteHost : gostring := gostr "site.test".

Definition cacheWithSite : Lru.Cache :=
  Eval vm_compute in
    snd (WordPress.isWordPressWebsite forbidding siteHost (Lru.New 1000)).

Lemma site_classified :
  WordPress.isWordPressWebsite forbidding siteHost (Lru.New 1000)
  = (true, cacheWithSite).
Proof. vm_compute. reflexivity. Defined.

Lemma isWordPressWebsite_cached_witness :
  (1 <= Lru.size (Lru.New 1000))%nat
  /\ WordPress.isWordPressWebsite forbidding siteHost (Lru.New 1000)
     = (true, cacheWithSite)
  /\ WordPress.isWordPressWebsite unreachable siteHost cacheWithSite
     = (true, cacheWithSite).
Proof.
  assert (Hsize : (1 <= Lru.size (Lru.New 1000))%nat) by (cbn; lia).
  split; [exact Hsize|]. split; [exact site_classified|].
  exact (OracleFacts.isWordPressWebsite_cached
           forbidding unreachable siteHost (Lru.New 1000) true cacheWithSite
           Hsize site_classified).
Defined.

Lemma legacy_isWordPressWebsite_agrees_witness :
  OracleFacts.readable (forbidding (WordPress.probeUrl siteHost))
  /\ WordPress.legacy_isWordPressWebsite forbidding siteHost (Lru.New 1000)
     = Some (WordPress.isWordPressWebsite forbidding siteHost
               (Lru.New 1000)).
Proof.
  assert (H : OracleFacts.readable (forbidding (WordPress.probeUrl siteHost)))
    by (split; reflexivity).
  split; [exact H|].
  exact (proj1 (OracleFacts.legacy_isWordPressWebsite_agrees
                  forbidding siteHost (Lru.New 1000))
               (or_intror H)).
Defined.

Lemma isWordPressWebsite_classifies_witness :
  Lru.Contains (Lru.New 1000) siteHost = false
  /\ snd (WordPress.isWordPressWebsite forbidding siteHost (Lru.New 1000))
     = Lru.Add (Lru.New 1000) siteHost
         (fst (WordPress.isWordPressWebsite forbidding siteHost
                 (Lru.New 1000)))
  /\ (fst (WordPress.isWordPressWebsite forbidding siteHost (Lru.New 1000))
      = true
      <-> exists StatusCode content closeErr,
            forbidding (WordPress.probeUrl siteHost)
            = WordPress.ProbeResponse StatusCode content false closeErr
            /\ (StatusCode = 403
                \/ StatusCode = 200
                   /\ exists pre word post,
                        content = pre ++ word ++ post
                        /\ OracleFacts.spellsWordPress word)).
Proof.
  assert (H : Lru.Contains (Lru.New 1000) siteHost = false) by reflexivity.
  split; [exact H|].
  exact (OracleFacts.isWordPressWebsite_classifies
           forbidding siteHost (Lru.New 1000) H).
Defined.

Lemma page_file_shared_iff_witness :
  hash siteUrl = hash siteUrl
  /\ forall w : @World unit,
       pageDownloaded spider siteUrl w = pageDownloaded spider siteUrl w.
Proof.
  split; [reflexivity|].
  exact (proj2 (StoreFacts.page_file_shared_iff spider siteUrl siteUrl)
               eq_refl).
Defined.

Lemma site_page_written :
  writeToDisk Sample.Serialize spider (pageAt siteUrl) seeded
  = Some (tt, {| frontier := frontier seeded;
                 files := {[ siteFile := htmlBody ]};
                 wordpressSites := tt; trace := [] |}).
Proof. vm_compute. reflexivity. Defined.

Lemma writeToDisk_pageDownloaded_witness :
  writeToDisk Sample.Serialize spider (pageAt siteUrl) seeded
  = Some (tt, {| frontier := frontier seeded;
                 files := {[ siteFile := htmlBody ]};
                 wordpressSites := tt; trace := [] |})
  /\ forall url,
       pageDownloaded spider url
         {| frontier := frontier seeded;
            files := {[ siteFile := htmlBody ]};
            wordpressSites := tt; trace := [] |}
       = Some (bool_decide (hash url = hash (Url (pageAt siteUrl)))
               || StoreFacts.downloaded spider url seeded,
               {| frontier := frontier seeded;
                  files := {[ siteFile := htmlBody ]};
                  wordpressSites := tt; trace := [] |}).
Proof.
  split; [exact site_page_written|].
  exact (StoreFacts.writeToDisk_pageDownloaded
           Sample.Serialize spider (pageAt siteUrl) seeded _
           site_page_written).
Defined.

Lemma spider_built :
  NewSpider 2 (gostr "pages") [siteUrl] 20 fresh = Some (spider, seeded).
Proof. vm_compute. reflexivity. Defined.

Lemma NewSpider_effect_witness :
  NewSpider 2 (gostr "pages") [siteUrl] 20 fresh = Some (spider, seeded)
  /\ spider = {| numRoutines := 2; workingDirectory := gostr "pages";
                 maxLinksPerPage := 20 |}
  /\ files seeded = files fresh /\ trace seeded = trace fresh
  /\ wordpressSites seeded = wordpressSites fresh
  /\ default [] (frontier seeded !! 0)
     = default [] (frontier fresh !! 0)
       ++ List.filter
            (fun url => negb (StoreFacts.downloaded spider url fresh))
            [siteUrl]
  /\ forall k, k <> 0 -> frontier seeded !! k = frontier fresh !! k.
Proof.
  split; [exact spider_built|].
  exact (StoreFacts.NewSpider_effect
           2 (gostr "pages") [siteUrl] 20 fresh spider seeded spider_built).
Defined.

Lemma legacy_fileNameOf_agrees_witness :
  workingDirectory spider <> []
  /\ Filepath.Clean (Legacy.fileNameOf spider siteUrl)
     = fileNameOf spider siteUrl.
Proof.
  assert (H : workingDirectory spider <> []) by discriminate.
  split; [exact H|].
  exact (proj1 (StoreFacts.legacy_fileNameOf_agrees spider siteUrl) H).
Defined.

(** A page of another URL with the body of the mirror page. *)
Definition otherPage : WebPage := pageAt (gostr "https://other.test").

Lemma other_file_absent :
  files (world afterBothTurns) !! fileNameOf spider (Url otherPage) = None.
Proof. vm_compute. reflexivity. Defined.

Lemma duplicateExists_in_loop_witness :
  admitted (trace seeded) = []
  /\ run spider schedule (CrawlConcurrently spider seeded)
     = Some afterBothTurns
  /\ indexes afterBothTurns !! 1%nat = Some mirrorIndex
  /\ files (world afterBothTurns) !! fileNameOf spider (Url otherPage)
     = None
  /\ mirrorIndex
     = indexOf (admittedBy (Z.of_nat 1) (trace (world afterBothTurns)))
  /\ (duplicateExists mirrorIndex otherPage = true
      <-> exists page,
            In page (admittedBy (Z.of_nat 1)
                       (trace (world afterBothTurns)))
            /\ IndexFacts.sharesFingerprint otherPage page
            /\ (9 # 10 < Similarity otherPage page)%Q).
Proof.
  assert (Hnone : admitted (trace seeded) = []) by reflexivity.
  split; [exact Hnone|]. split; [exact run_both_turns|].
  split; [exact mirrorIndex_lookup|]. split; [exact other_file_absent|].
  exact (DuplicateFacts.duplicateExists_in_loop
           Sample.isWordPressWebsite Sample.getHostname
           Sample.fingerprintsOf Sample.Serialize
           CrawlExamples.FindAllAnchorHREFs
           spider seeded schedule afterBothTurns 1%nat mirrorIndex
           otherPage Hnone run_both_turns mirrorIndex_lookup
           other_file_absent).
Defined.

(** The check does find the mirror page for [otherPage]. *)
Example otherPage_duplicate :
  duplicateExists mirrorIndex otherPage = true.
Proof. vm_compute. reflexivity. Qed.

Lemma forbidding_readable u : OracleFacts.readable (forbidding u).
Proof. split; reflexivity. Defined.

Lemma legacy_constructProperURLs_equiv_witness :
  (forall u, OracleFacts.readable (forbidding u))
  /\ Legacy.constructProperURLs forbidding LegacyFacts.hostAfterScheme
       links siteUrl (Lru.New 1000)
     = constructProperURLs (WordPress.isWordPressWebsite forbidding)
         LegacyFacts.hostAfterScheme links siteUrl (Lru.New 1000).
Proof.
  split; [exact forbidding_readable|].
  exact (LegacyFacts.legacy_constructProperURLs_equiv
           forbidding LegacyFacts.hostAfterScheme links siteUrl
           (Lru.New 1000) forbidding_readable).
Defined.

(** Both copies find the link [/about] on this network. *)
Example legacy_links_found :
  option_map (fun r => Contains (fst r) aboutUrl)
    (Legacy.constructProperURLs forbidding LegacyFacts.hostAfterScheme
       links siteUrl (Lru.New 1000))
  = Some true.
Proof. vm_compute. reflexivity. Qed.

End MoreExamples.
